(** * Patient-report splitting and field normalisation

    A shallow embedding of [src/processors/DocumentSplitter.js], of
    [src/extractors/MetadataExtractor.js], of the file naming of
    [src/services/S3Service.js], of the key/value and table extraction of
    [src/services/TextractService.js] and of the page collection of
    [src/ReportProcessor.js], with the properties of the segmentation
    engine and of the extraction proved over it.

    Conventions of the embedding:
    - a JavaScript string is the list of its UTF-16 code units;
    - a JavaScript value that the code tests with [!v] or [typeof v] is a
      [value]; [null]/[undefined] objects are [None];
    - a plain object used as a dictionary is the [gmap] of its own
      properties, and [getProperty] reads it as [obj[key]] does where the
      key may name what every object inherits;
    - an exception is an [Err] of the [result] monad;
    - [console.log]/[console.warn] and the [createdAt] time stamp are not
      part of the model. *)

From Stdlib Require Import ZArith NArith Bool Lia DecimalString DecimalNat.
From stdpp Require Import base option list gmap strings sorting.

Local Open Scope N_scope.

(** ** JavaScript strings *)

(** A string is its sequence of UTF-16 code units. *)
Abbreviation jsstring := (list N).

(** A string literal of the source, as code units. *)
Definition js (s : string) : jsstring :=
  List.map Ascii.N_of_ascii (String.list_ascii_of_string s).

(** [WhiteSpace] and [LineTerminator] of ECMAScript: what [\s] matches and
    what [String.prototype.trim] removes. *)
Definition isWhiteSpace (c : N) : bool :=
  (9 <=? c) && (c <=? 13)
  || (c =? 32) || (c =? 160) || (c =? 5760)
  || (8192 <=? c) && (c <=? 8202)
  || (c =? 8232) || (c =? 8233) || (c =? 8239) || (c =? 8287)
  || (c =? 12288) || (c =? 65279).

(** [\d] *)
Definition isDigit (c : N) : bool := (48 <=? c) && (c <=? 57).

(** [\w], that is [A-Za-z0-9_] *)
Definition isWordChar (c : N) : bool :=
  isDigit c || (65 <=? c) && (c <=? 90) || (c =? 95)
  || (97 <=? c) && (c <=? 122).

Definition hyphen : N := 45.
Definition colon : N := 58.

Fixpoint trimStart (s : jsstring) : jsstring :=
  match s with
  | c :: t => if isWhiteSpace c then trimStart t else s
  | [] => []
  end.

Definition trimEnd (s : jsstring) : jsstring := rev (trimStart (rev s)).

(** [s.trim()] *)
Definition trim (s : jsstring) : jsstring := trimEnd (trimStart s).

(** The string does not begin with whitespace. *)
Definition startsClean (s : jsstring) : Prop :=
  match s with
  | c :: _ => isWhiteSpace c = false
  | [] => True
  end.

(** [s.replace(/[^\w\s-]/g, '')] *)
Definition keepNameChars (s : jsstring) : jsstring :=
  List.filter (fun c => isWordChar c || isWhiteSpace c || (c =? hyphen)) s.

(** [s.replace(/[^\w]/g, '')] *)
Definition keepWordChars (s : jsstring) : jsstring :=
  List.filter isWordChar s.

(** [/\d/.test(s)] *)
Definition hasDigit (s : jsstring) : bool := existsb isDigit s.

(** [/^\d+$/.test(s)] *)
Definition allDigits (s : jsstring) : bool :=
  match s with
  | [] => false
  | _ => forallb isDigit s
  end.

Fixpoint startsWith (s sub : jsstring) : bool :=
  match sub, s with
  | [], _ => true
  | _ :: _, [] => false
  | b :: sub', a :: s' => (a =? b) && startsWith s' sub'
  end.

(** [s.includes(sub)] *)
Fixpoint includes (s sub : jsstring) : bool :=
  startsWith s sub ||
  match s with
  | [] => false
  | _ :: t => includes t sub
  end.

(** [s.split(c)] for a separator of one code unit. *)
Fixpoint split (c : N) (s : jsstring) : list jsstring :=
  match s with
  | [] => [[]]
  | x :: t =>
      if x =? c then [] :: split c t
      else match split c t with
           | p :: ps => (x :: p) :: ps
           | [] => [[x]]
           end
  end.

(** [toLowerCase] on the ASCII letters; the other code units are kept.  It
    agrees with JavaScript on every string of ASCII code units, and is the
    instance at which the concrete runs below are evaluated. *)
Definition asciiToLowerCase (s : jsstring) : jsstring :=
  List.map (fun c => if (65 <=? c) && (c <=? 90) then c + 32 else c) s.

(** ** JavaScript values *)

Inductive value : Type :=
  | VUndefined
  | VNull
  | VBoolean (b : bool)
  | VNumber (n : Z)
  | VString (s : jsstring).

(** [!!v] *)
Definition truthy (v : value) : bool :=
  match v with
  | VUndefined | VNull => false
  | VBoolean b => b
  | VNumber n => negb (n =? 0)%Z
  | VString [] => false
  | VString (_ :: _) => true
  end.

(** [a || b] *)
Definition orElse (a b : value) : value := if truthy a then a else b.

(** A property or an array element that may be missing reads as
    [undefined]. *)
Definition orUndefined (o : option value) : value := default VUndefined o.

(** A field of an identity object: [null] or a string.  It is "set" when
    the source's test [if (x)] succeeds, that is when it is a non-empty
    string. *)
Definition isSet (f : option jsstring) : bool :=
  match f with
  | Some (_ :: _) => true
  | _ => false
  end.

(** ** Properties of a plain object

    [obj[key]] reads the own property [key] of the object when there is
    one, and otherwise what the object inherits from [Object.prototype]. *)

(** The properties of [Object.prototype]: the methods of every object and
    the accessor [__proto__]. *)
Definition inheritedNames : list jsstring :=
  [ js "constructor"; js "hasOwnProperty"; js "isPrototypeOf";
    js "propertyIsEnumerable"; js "toLocaleString"; js "toString";
    js "valueOf"; js "__proto__"; js "__defineGetter__";
    js "__defineSetter__"; js "__lookupGetter__"; js "__lookupSetter__" ].

(** What [obj[key]] reads: the value of the own property, [undefined] when
    there is no such property at all, or a method of the prototype (for
    [__proto__] the prototype itself), which is an object: truthy, and not
    a string. *)
Inductive property : Type :=
  | Data (v : value)
  | Inherited.

(** [obj[key]] *)
Definition getProperty (obj : gmap jsstring value) (key : jsstring) : property :=
  match obj !! key with
  | Some v => Data v
  | None =>
      if bool_decide (key ∈ inheritedNames) then Inherited else Data VUndefined
  end.

(** [!!p] *)
Definition truthyProperty (p : property) : bool :=
  match p with
  | Data v => truthy v
  | Inherited => true
  end.

(** ** Exceptions *)

Inductive error : Type :=
  | NoPageData        (* "No page data provided for splitting" *)
  | NoValidReports    (* "No valid reports found after splitting" *)
  | TypeError.        (* a method call on a value that has no such method *)

Inductive result (A : Type) : Type :=
  | Ok (a : A)
  | Err (e : error).
Arguments Ok {A} a.
Arguments Err {A} e.

Definition bind {A B} (r : result A) (k : A -> result B) : result B :=
  match r with
  | Ok a => k a
  | Err e => Err e
  end.

Notation "'let*' x ':=' r 'in' k" := (bind r (fun x => k))
  (at level 10, x name, r at level 100, k at level 200).

(** A loop whose body may throw: [for (const x of l) { acc = f(acc, x) }]. *)
Fixpoint foldM {A B} (f : A -> B -> result A) (a : A) (l : list B) : result A :=
  match l with
  | [] => Ok a
  | x :: t => let* a' := f a x in foldM f a' t
  end.

(** [l.some(p)], which stops at the first element satisfying [p]. *)
Fixpoint someM {B} (p : B -> result bool) (l : list B) : result bool :=
  match l with
  | [] => Ok false
  | x :: t => let* b := p x in if b then Ok true else someM p t
  end.

(** ** Page data

    What the text-extraction service hands over for one page.  A field the
    code tests before use ([if (keyValuePairs)], [tables && ...],
    [!table.rows], [Array.isArray(row)], [typeof cell]) may be missing or
    of another type. *)

Inductive Row : Type :=
  | RowArray (cells : list value)
  | RowOther.

Record Table : Type := { rows : option (list Row) }.

Record PageData : Type := {
  index : Z;
  keyValuePairs : option (gmap jsstring value);
  tables : option (list Table)
}.

(** An element of the page array; [None] is a [null] or [undefined] entry. *)
Abbreviation Page := (option PageData).

(** ** src/processors/DocumentSplitter.js *)

Module DocumentSplitter.

Record PatientInfo : Type := {
  name : option jsstring;
  patientId : option jsstring;
  dob : option jsstring
}.

Definition _cleanPatientValue (v : value) : option jsstring :=
  if negb (truthy v) then None
  else match v with
       | VString s => Some (trim (keepNameChars (trim s)))
       | _ => None
       end.

(** [for (const key of keys) { if (keyValuePairs[key]) { field = ...; break; } }]
    for the keys of the three lists below, none of which names a property
    that an object inherits: [keyValuePairs[key]] is the own property, or
    [undefined]. *)
Fixpoint probeKeys (keys : list jsstring) (kv : gmap jsstring value)
    (field : option jsstring) : option jsstring :=
  match keys with
  | [] => field
  | key :: rest =>
      let v := orUndefined (kv !! key) in
      if truthy v then _cleanPatientValue v else probeKeys rest kv field
  end.

Definition nameKeys : list jsstring :=
  [js "patient name"; js "name"; js "patient"; js "full name"].
Definition idKeys : list jsstring :=
  [js "patient id"; js "id"; js "mrn"; js "medical record number";
   js "patient #"; js "account"].
Definition dobKeys : list jsstring :=
  [js "dob"; js "date of birth"; js "birth date"; js "birthdate"].

(** The three key/value loops of [_extractPatientInfo]. *)
Definition fromKeyValuePairs (kv : gmap jsstring value) (info : PatientInfo)
    : PatientInfo :=
  {| name := probeKeys nameKeys kv (name info);
     patientId := probeKeys idKeys kv (patientId info);
     dob := probeKeys dobKeys kv (dob info) |}.

Definition tableNameKeys : list jsstring :=
  [js "patient name"; js "name"; js "patient"].
Definition tableIdKeys : list jsstring :=
  [js "patient id"; js "id"; js "mrn"; js "medical record"].
Definition tableDobKeys : list jsstring :=
  [js "dob"; js "date of birth"; js "birth date"].

(** [_isDifferentPatient(currentPatient, newPatient)] *)
Definition _isDifferentPatient (currentPatient newPatient : option PatientInfo)
    : bool :=
  match currentPatient with
  | None => match newPatient with Some _ => true | None => false end
  | Some cur =>
      match newPatient with
      | None => false
      | Some new =>
          if isSet (patientId cur) && isSet (patientId new) then
            negb (bool_decide (patientId cur = patientId new))
          else if isSet (name cur) && isSet (name new) then
            negb (bool_decide (name cur = name new))
          else if isSet (dob cur) && isSet (dob new) then
            negb (bool_decide (dob cur = dob new))
          else false
      end
  end.

Record Report : Type := {
  reportIndex : nat;
  pages : list Page;
  pageCount : nat;
  firstPageIndex : Z;
  lastPageIndex : Z;
  hasPatientData : bool
}.

(** [page?.index || 0] for a page that may be missing. *)
Definition indexOr0 (p : option Page) : Z :=
  match p with
  | Some (Some pd) => index pd
  | _ => 0%Z
  end.

(** The variables of the scan: [reports], [current], [currentPatientInfo]. *)
Record State : Type := {
  reports : list Report;
  current : list Page;
  currentPatientInfo : option PatientInfo
}.

Definition initial : State :=
  {| reports := []; current := []; currentPatientInfo := None |}.

Section WithToLowerCase.

(** [String.prototype.toLowerCase], whose Unicode case mapping is left
    abstract: everything below holds for any such function. *)
Variable toLowerCase : jsstring -> jsstring.

(** [row[index + 1] || cell.split(':')[1]] *)
Definition valueCellOf (row : list value) (idx : nat) (cell : jsstring) : value :=
  orElse (orUndefined (row !! S idx))
         (orUndefined (VString <$> (split colon cell !! 1%nat))).

(** [valueCell && valueCell.trim() !== cellLower]; only a string has a
    [trim] method. *)
Definition acceptsValue (valueCell : value) (cellLower : jsstring) : result bool :=
  if truthy valueCell then
    match valueCell with
    | VString s => Ok (negb (bool_decide (trim s = cellLower)))
    | _ => Err TypeError
    end
  else Ok false.

(** One of the three blocks of the cell visitor, for the field with the
    given labels. *)
Definition fromCell (keys : list jsstring) (field : option jsstring)
    (row : list value) (idx : nat) (cell cellLower : jsstring)
    : result (option jsstring) :=
  if negb (isSet field) && existsb (fun key => includes cellLower key) keys then
    let valueCell := valueCellOf row idx cell in
    let* ok := acceptsValue valueCell cellLower in
    Ok (if ok then _cleanPatientValue valueCell else field)
  else Ok field.

(** The body of [row.forEach((cell, index) => ...)]. *)
Definition visitCell (row : list value) (info : PatientInfo)
    (ic : nat * value) : result PatientInfo :=
  let (idx, cell) := ic in
  if negb (truthy cell) then Ok info
  else match cell with
       | VString s =>
           let cellLower := toLowerCase s in
           let* n := fromCell tableNameKeys (name info) row idx s cellLower in
           let* i := fromCell tableIdKeys (patientId info) row idx s cellLower in
           let* d := fromCell tableDobKeys (dob info) row idx s cellLower in
           Ok {| name := n; patientId := i; dob := d |}
       | _ => Ok info
       end.

Definition visitRow (info : PatientInfo) (row : Row) : result PatientInfo :=
  match row with
  | RowArray cells => foldM (visitCell cells) info (imap pair cells)
  | RowOther => Ok info
  end.

Definition visitTable (info : PatientInfo) (table : Table) : result PatientInfo :=
  match rows table with
  | Some rs => foldM visitRow info rs
  | None => Ok info
  end.

Definition _extractFromTables (tables : list Table) (info : PatientInfo)
    : result PatientInfo :=
  foldM visitTable info tables.

(** [_extractPatientInfo] up to its last test: the key/value pairs first,
    then the tables when the name or the identifier is still missing. *)
Definition resolveFields (pd : PageData) : result PatientInfo :=
  let info := {| name := None; patientId := None; dob := None |} in
  let info :=
    match keyValuePairs pd with
    | Some kv => fromKeyValuePairs kv info
    | None => info
    end in
  match tables pd with
  | Some (t :: ts) =>
      if negb (isSet (name info)) || negb (isSet (patientId info))
      then _extractFromTables (t :: ts) info
      else Ok info
  | _ => Ok info
  end.

Definition _extractPatientInfo (pageData : Page) : result (option PatientInfo) :=
  match pageData with
  | None => Ok None
  | Some pd =>
      let* info := resolveFields pd in
      if negb (isSet (name info)) && negb (isSet (patientId info))
      then Ok None
      else Ok (Some info)
  end.

Definition yieldsIdentity (page : Page) : result bool :=
  let* c := _extractPatientInfo page in
  Ok (match c with Some _ => true | None => false end).

Definition _finalizeReport (pages : list Page) (reportIndex : nat)
    : result Report :=
  let* some := someM yieldsIdentity pages in
  Ok {| reportIndex := reportIndex;
        pages := pages;
        pageCount := length pages;
        firstPageIndex := indexOr0 (head pages);
        lastPageIndex := indexOr0 (last pages);
        hasPatientData := some |}.

(** The first [if]/[else if] of the loop body: close the current report
    when a different patient shows up, or record the first patient. *)
Definition boundary (st : State) (pagePatientInfo : option PatientInfo)
    : result State :=
  if _isDifferentPatient (currentPatientInfo st) pagePatientInfo
     && negb (bool_decide (current st = []))
  then
    let* r := _finalizeReport (current st) (length (reports st)) in
    Ok {| reports := reports st ++ [r];
          current := [];
          currentPatientInfo := pagePatientInfo |}
  else
    match currentPatientInfo st, pagePatientInfo with
    | None, Some _ =>
        Ok {| reports := reports st;
              current := current st;
              currentPatientInfo := pagePatientInfo |}
    | _, _ => Ok st
    end.

(** [current.push(pageData)] *)
Definition push (st : State) (pageData : Page) : State :=
  {| reports := reports st;
     current := current st ++ [pageData];
     currentPatientInfo := currentPatientInfo st |}.

(** The safety check that ends the loop body. *)
Definition safety (maxPagesPerPatient : Z) (st : State) : result State :=
  if (Z.of_nat (length (current st)) >=? maxPagesPerPatient)%Z then
    let* r := _finalizeReport (current st) (length (reports st)) in
    Ok {| reports := reports st ++ [r];
          current := [];
          currentPatientInfo := None |}
  else Ok st.

(** One iteration of [for (const [index, pageData] of ...)]. *)
Definition step (maxPagesPerPatient : Z) (st : State) (pageData : Page)
    : result State :=
  let* pagePatientInfo := _extractPatientInfo pageData in
  let* st := boundary st pagePatientInfo in
  safety maxPagesPerPatient (push st pageData).

Definition _validateReports (reports : list Report) : result (list Report) :=
  let validReports :=
    List.filter (fun r => negb (bool_decide (pages r = []))) reports in
  match validReports with
  | [] => Err NoValidReports
  | _ =>
      (* the summary loop extracts the first page of each report again *)
      let* _ := foldM (fun (_ : unit) r =>
                         let* _ := _extractPatientInfo (default None (head (pages r))) in
                         Ok tt) tt validReports in
      Ok validReports
  end.

(** [pageDataArray] is [None] when the caller passes [null] or
    [undefined]. *)
Definition splitIntoPatientReports (maxPagesPerPatient : Z)
    (pageDataArray : option (list Page)) : result (list Report) :=
  match pageDataArray with
  | None | Some [] => Err NoPageData
  | Some pageDatas =>
      let* st := foldM (step maxPagesPerPatient) initial pageDatas in
      let* reports :=
        match current st with
        | [] => Ok (reports st)
        | _ =>
            let* r := _finalizeReport (current st) (length (reports st)) in
            Ok (reports st ++ [r])
        end in
      _validateReports reports
  end.

(** *** Notions used to state the properties of the scan *)

(** Extraction of the page's identity does not throw. *)
Definition extractable (page : Page) : Prop :=
  exists c, _extractPatientInfo page = Ok c.

(** The page yields no identity candidate. *)
Definition silent (page : Page) : Prop :=
  _extractPatientInfo page = Ok None.

(** Every page the scan has consumed so far, in order: the pages of the
    emitted reports, then the pages of the report being accumulated. *)
Definition consumed (st : State) : list Page :=
  concat (List.map pages (reports st)) ++ current st.

(** The reports [rs'] are the reports [rs] followed by reports finalised,
    one after the other, from non-empty page lists, each under the number
    of reports before it. *)
Inductive grows : list Report -> list Report -> Prop :=
  | grows_refl rs : grows rs rs
  | grows_emit rs rs' ps r :
      grows rs rs' -> ps <> [] ->
      _finalizeReport ps (length rs') = Ok r ->
      grows rs (rs' ++ [r]).

(** The page does not start a new patient while [anchor] is the current
    one: its candidate, if any, is not judged different. *)
Definition continues (anchor : PatientInfo) (page : Page) : Prop :=
  exists c, _extractPatientInfo page = Ok c
            /\ _isDifferentPatient (Some anchor) c = false.

(** The report that [_finalizeReport] builds from [ps] as report number
    [i], when [flag] is what the pages give for [hasPatientData]. *)
Definition reportOf (i : nat) (ps : list Page) (flag : bool) : Report :=
  {| reportIndex := i;
     pages := ps;
     pageCount := length ps;
     firstPageIndex := indexOr0 (head ps);
     lastPageIndex := indexOr0 (last ps);
     hasPatientData := flag |}.

(** A document cut into runs of pages: each run begins with a page whose
    candidate is judged different from the candidate that began the run
    before it, goes on with pages that continue it, and is shorter than the
    cap. *)
Inductive segmented (maxPagesPerPatient : Z)
    : option PatientInfo -> list (list Page) -> Prop :=
  | segmented_nil prev : segmented maxPagesPerPatient prev []
  | segmented_run prev q b rest runs :
      _extractPatientInfo q = Ok (Some b) ->
      _isDifferentPatient prev (Some b) = true ->
      Forall (continues b) rest ->
      (Z.of_nat (length (q :: rest)) < maxPagesPerPatient)%Z ->
      segmented maxPagesPerPatient (Some b) runs ->
      segmented maxPagesPerPatient prev ((q :: rest) :: runs).

(** A document cut into runs as for [segmented], where a run may also be
    as long as the cap.  [prev] is the anchor the scan holds when it meets
    the runs: after a run shorter than the cap it is the candidate that
    began that run, and after a run as long as the cap there is none, so
    that the next run may begin with any candidate. *)
Inductive capped (maxPagesPerPatient : Z)
    : option PatientInfo -> list (list Page) -> Prop :=
  | capped_nil prev : capped maxPagesPerPatient prev []
  | capped_short prev q b rest runs :
      _extractPatientInfo q = Ok (Some b) ->
      _isDifferentPatient prev (Some b) = true ->
      Forall (continues b) rest ->
      (Z.of_nat (length (q :: rest)) < maxPagesPerPatient)%Z ->
      capped maxPagesPerPatient (Some b) runs ->
      capped maxPagesPerPatient prev ((q :: rest) :: runs)
  | capped_full prev q b rest runs :
      _extractPatientInfo q = Ok (Some b) ->
      _isDifferentPatient prev (Some b) = true ->
      Forall (continues b) rest ->
      Z.of_nat (length (q :: rest)) = maxPagesPerPatient ->
      capped maxPagesPerPatient None runs ->
      capped maxPagesPerPatient prev ((q :: rest) :: runs).

End WithToLowerCase.

(** A table cell the cell visitor can read: a string, or a value that the
    test [!cell] skips. *)
Definition stringOrFalsy (v : value) : Prop :=
  match v with
  | VString _ => True
  | _ => truthy v = false
  end.

Definition rowCells (row : Row) : list value :=
  match row with
  | RowArray cells => cells
  | RowOther => []
  end.

(** Every cell of every table of the page is a string or falsy. *)
Definition stringCells (page : Page) : Prop :=
  match page with
  | None => True
  | Some pd =>
      Forall (fun t => Forall (fun row => Forall stringOrFalsy (rowCells row))
                              (default [] (rows t)))
             (default [] (tables pd))
  end.

(** The filter of [_validateReports]. *)
Definition nonEmpty (r : Report) : bool := negb (bool_decide (pages r = [])).

(** The size of a report is as its [pageCount] says, and within the cap. *)
Definition bounded (maxPagesPerPatient : Z) (r : Report) : Prop :=
  (1 <= Z.of_nat (pageCount r) <= maxPagesPerPatient)%Z
  /\ pageCount r = length (pages r).

(** The invariant of the scan for a positive cap: the emitted reports are
    bounded and the report being accumulated is below the cap. *)
Definition withinCap (maxPagesPerPatient : Z) (st : State) : Prop :=
  Forall (bounded maxPagesPerPatient) (reports st)
  /\ (Z.of_nat (length (current st)) < maxPagesPerPatient)%Z.

(** The report that follows the reports [before] begins with the page [q],
    whether it has been emitted already or is still being accumulated. *)
Definition headed (before : list Report) (q : Page) (st : State) : Prop :=
  exists after,
    reports st = before ++ after
    /\ match after with
       | [] => exists t, current st = q :: t
       | g :: _ => exists t, pages g = q :: t
       end.

(** A string as [_cleanPatientValue] leaves it: only word characters,
    whitespace and hyphens, and nothing for [trim] to remove. *)
Definition cleanText (s : jsstring) : Prop :=
  Forall (fun c => isWordChar c || isWhiteSpace c || (c =? hyphen) = true) s
  /\ trim s = s.

Definition cleanField (f : option jsstring) : Prop :=
  forall s, f = Some s -> cleanText s.

(** The identity object before any field is found. *)
Definition noInfo : PatientInfo :=
  {| name := None; patientId := None; dob := None |}.



(** The page with [kv] for its key/value pairs. *)
Definition withKeyValuePairs (pd : PageData) (kv : gmap jsstring value)
    : PageData :=
  {| index := index pd; keyValuePairs := Some kv; tables := tables pd |}.

(** The key/value pairs [kv'] hold what [kv] holds, except under the keys
    [keys]. *)
Definition agreeOutside (keys : list jsstring) (kv kv' : gmap jsstring value)
    : Prop :=
  forall key, key ∉ keys -> kv' !! key = kv !! key.

(** The three fields of a candidate, each with the aliases that the
    key/value loops of [_extractPatientInfo] probe for it. *)
Definition probedFields
    : list (list jsstring * (PatientInfo -> option jsstring)) :=
  [(nameKeys, name); (idKeys, patientId); (dobKeys, dob)].

(** The page has no table for the table pass to read. *)
Definition noTables (pd : PageData) : Prop :=
  tables pd = None \/ tables pd = Some [].

End DocumentSplitter.

(** ** src/extractors/MetadataExtractor.js *)

Module MetadataExtractor.

(** The field names of [fieldMappings]. *)
Inductive Field : Type := Name | Dob | PatientId.

(** The identity part of the metadata object; its other properties
    ([confidence], [extractedFrom], ...) are not touched by the functions
    below. *)
Record Metadata : Type := {
  name : option jsstring;
  dob : option jsstring;
  patientId : option jsstring
}.

(** [metadata[field]] *)
Definition get (metadata : Metadata) (field : Field) : option jsstring :=
  match field with
  | Name => name metadata
  | Dob => dob metadata
  | PatientId => patientId metadata
  end.

(** [metadata[field] = v] *)
Definition set (metadata : Metadata) (field : Field) (v : option jsstring)
    : Metadata :=
  match field with
  | Name => {| name := v; dob := dob metadata; patientId := patientId metadata |}
  | Dob => {| name := name metadata; dob := v; patientId := patientId metadata |}
  | PatientId => {| name := name metadata; dob := dob metadata; patientId := v |}
  end.

(** The metadata object as [extractMetadata] creates it. *)
Definition fresh : Metadata :=
  {| name := None; dob := None; patientId := None |}.

(** [Object.entries(this.fieldMappings)] as the constructor sets it. *)
Definition fieldMappings : list (Field * list jsstring) :=
  [ (Name, [js "patient name"; js "name"; js "patient"; js "full name";
            js "patient full name"]);
    (Dob, [js "dob"; js "date of birth"; js "birth date"; js "birthdate";
           js "patient dob"]);
    (PatientId, [js "patient id"; js "id"; js "patient #"; js "patient number";
                 js "mrn"; js "medical record number"; js "account";
                 js "accession"; js "medical record no";
                 js "patient identifier"; js "chart number"]) ].

Definition _cleanValue (v : value) (field : Field) : option jsstring :=
  if negb (truthy v) then None
  else match v with
       | VString s =>
           let cleaned := trim s in
           match field with
           | Name =>
               let cleaned := trim (keepNameChars cleaned) in
               if (length cleaned <? 2)%nat || allDigits cleaned then None
               else Some cleaned
           | Dob =>
               if negb (hasDigit cleaned) || (length cleaned <? 6)%nat then None
               else Some cleaned
           | PatientId =>
               let cleaned := keepWordChars cleaned in
               if (length cleaned <? 3)%nat then None
               else Some cleaned
           end
       | _ => None
       end.

(** [this._cleanValue(keyValuePairs[key], field)]: what the object inherits
    is not a string, and [_cleanValue] returns [null] for it. *)
Definition cleanProperty (p : property) (field : Field) : option jsstring :=
  match p with
  | Data v => _cleanValue v field
  | Inherited => None
  end.

(** The inner loop of [_extractFromKeyValuePairs] for one field:
    [if (keyValuePairs[key] && !metadata[field]) { metadata[field] = ...; break; }].
    The aliases are whatever [fieldMappings] holds, so that a key may name
    a property every object inherits. *)
Fixpoint probeKeys (field : Field) (possibleKeys : list jsstring)
    (kv : gmap jsstring value) (metadata : Metadata) : Metadata :=
  match possibleKeys with
  | [] => metadata
  | key :: rest =>
      let p := getProperty kv key in
      if truthyProperty p && negb (isSet (get metadata field))
      then set metadata field (cleanProperty p field)
      else probeKeys field rest kv metadata
  end.

Definition _extractFromKeyValuePairs (mappings : list (Field * list jsstring))
    (kv : gmap jsstring value) (metadata : Metadata) : Metadata :=
  fold_left (fun m fk => probeKeys (fst fk) (snd fk) kv m) mappings metadata.

Definition space : N := 32.

(** [row[index + 1] || cell.split(':')[1] || cell.split(' ').slice(-1)[0]] *)
Definition valueCellOf (row : list value) (idx : nat) (cell : jsstring) : value :=
  orElse (orElse (orUndefined (row !! S idx))
                 (orUndefined (VString <$> (split colon cell !! 1%nat))))
         (orUndefined (VString <$> last (split space cell))).

(** The body of the loop over the field mappings for one cell:
    [if (metadata[field]) continue; if (possibleKeys.some(...)) { ... }]. *)
Definition fromCell (row : list value) (idx : nat) (cell cellLower : jsstring)
    (metadata : Metadata) (fk : Field * list jsstring) : result Metadata :=
  let field := fst fk in
  if isSet (get metadata field) then Ok metadata
  else if existsb (fun key => includes cellLower key) (snd fk) then
    let valueCell := valueCellOf row idx cell in
    let* ok := DocumentSplitter.acceptsValue valueCell cellLower in
    Ok (if ok then set metadata field (_cleanValue valueCell field) else metadata)
  else Ok metadata.

Section WithToLowerCase.

Variable toLowerCase : jsstring -> jsstring.

(** The body of [row.forEach((cell, index) => ...)]. *)
Definition visitCell (mappings : list (Field * list jsstring))
    (row : list value) (metadata : Metadata) (ic : nat * value)
    : result Metadata :=
  let (idx, cell) := ic in
  if negb (truthy cell) then Ok metadata
  else match cell with
       | VString s => foldM (fromCell row idx s (toLowerCase s)) metadata mappings
       | _ => Ok metadata
       end.

Definition visitRow (mappings : list (Field * list jsstring))
    (metadata : Metadata) (row : Row) : result Metadata :=
  match row with
  | RowArray cells => foldM (visitCell mappings cells) metadata (imap pair cells)
  | RowOther => Ok metadata
  end.

Definition visitTable (mappings : list (Field * list jsstring))
    (metadata : Metadata) (table : Table) : result Metadata :=
  match rows table with
  | Some rs => foldM (visitRow mappings) metadata rs
  | None => Ok metadata
  end.

Definition _extractFromTables (mappings : list (Field * list jsstring))
    (tables : list Table) (metadata : Metadata) : result Metadata :=
  foldM (visitTable mappings) metadata tables.

Definition _hasIncompleteData (metadata : Metadata) : bool :=
  negb (isSet (name metadata)) || negb (isSet (dob metadata))
  || negb (isSet (patientId metadata)).

(** What [extractMetadata] does: a metadata object, or one of its two
    exceptions. *)
Inductive extraction : Type :=
  | Extracted (metadata : Metadata)
  | NoPageDataForExtraction   (* "No page data provided for metadata extraction" *)
  | Thrown (e : error).       (* an exception of the table pass *)

(** The identity fields of [extractMetadata(pageData)]; the properties
    [confidence], [extractedFrom], [extractionMethod], [isHighConfidence]
    and [completeness] of the object are set beside them and do not enter
    the extraction of these fields. *)
Definition extractMetadata (mappings : list (Field * list jsstring))
    (pageData : Page) : extraction :=
  match pageData with
  | None => NoPageDataForExtraction
  | Some pd =>
      let metadata :=
        _extractFromKeyValuePairs mappings (default ∅ (keyValuePairs pd)) fresh in
      let r :=
        match tables pd with
        | Some (t :: ts) =>
            if _hasIncompleteData metadata
            then _extractFromTables mappings (t :: ts) metadata
            else Ok metadata
        | _ => Ok metadata
        end in
      match r with
      | Ok metadata => Extracted metadata
      | Err e => Thrown e
      end
  end.

End WithToLowerCase.

(** [fields.filter(field => metadata[field] && metadata[field].length > 0)]
    of [_calculateCompleteness], whose result is the length of this list
    divided by 3. *)
Definition completedFields (metadata : Metadata) : list Field :=
  List.filter
    (fun field =>
       isSet (get metadata field)
       && (0 <? length (default [] (get metadata field)))%nat)
    [Name; Dob; PatientId].

#[global] Instance Field_eq_dec : EqDecision Field.
Proof. solve_decision. Defined.

(** [{ ...this.fieldMappings, ...customMappings }]: an entry of
    [customMappings] replaces the alias list of a field already mapped, in
    place, and is added at the end otherwise. *)
Fixpoint assign (mappings : list (Field * list jsstring)) (field : Field)
    (keys : list jsstring) : list (Field * list jsstring) :=
  match mappings with
  | [] => [(field, keys)]
  | (f, ks) :: rest =>
      if bool_decide (f = field) then (f, keys) :: rest
      else (f, ks) :: assign rest field keys
  end.

Definition setFieldMappings (mappings customMappings : list (Field * list jsstring))
    : list (Field * list jsstring) :=
  fold_left (fun acc fk => assign acc (fst fk) (snd fk)) customMappings mappings.

(** The field's alias list, [mappings[field]]. *)
Fixpoint aliases (mappings : list (Field * list jsstring)) (field : Field)
    : option (list jsstring) :=
  match mappings with
  | [] => None
  | (f, ks) :: rest =>
      if bool_decide (f = field) then Some ks else aliases rest field
  end.

(** A string that [_cleanValue] accepts for the field. *)
Definition valid (field : Field) (s : jsstring) : Prop :=
  match field with
  | Name =>
      (2 <= length s)%nat /\ allDigits s = false
      /\ Forall (fun c => isWordChar c || isWhiteSpace c || (c =? hyphen) = true) s
      /\ trim s = s
  | Dob => (6 <= length s)%nat /\ hasDigit s = true /\ trim s = s
  | PatientId => (3 <= length s)%nat /\ Forall (fun c => isWordChar c = true) s
  end.

Definition validFields (metadata : Metadata) : Prop :=
  forall field s, get metadata field = Some s -> valid field s.

End MetadataExtractor.

(** ** src/services/S3Service.js *)

Module S3Service.

(** An integer that a number holds exactly and prints as its decimal
    digits; every array index and array length is one. *)
Definition safeInteger (n : nat) : Prop := (N.of_nat n < 2 ^ 53)%N.

(** The decimal digits of a non-negative integer, as a template literal
    prints a safe integer. *)
Definition numberToString (n : nat) : jsstring :=
  js (NilEmpty.string_of_uint (Nat.to_uint n)).

Definition underscore : N := 95.
Definition dot : N := 46.

(** [s.replace(/\s+/g, '_')]: every maximal run of whitespace becomes one
    underscore; [inRun] tells that the code unit before belongs to such a
    run. *)
Fixpoint replaceSpaces (inRun : bool) (s : jsstring) : jsstring :=
  match s with
  | [] => []
  | c :: t =>
      if isWhiteSpace c then
        if inRun then replaceSpaces true t
        else underscore :: replaceSpaces true t
      else c :: replaceSpaces false t
  end.

(** [_generateFilename(metadata, reportIndex)], where [timestamp] is the
    date [new Date().toISOString().split('T')[0]] read from the clock. *)
Definition _generateFilename (timestamp : jsstring)
    (metadata : MetadataExtractor.Metadata) (reportIndex : nat) : jsstring :=
  let patientName :=
    if isSet (MetadataExtractor.name metadata)
    then default [] (MetadataExtractor.name metadata)
    else js "Unknown-" ++ numberToString reportIndex in
  let safeName := take 50 (replaceSpaces false (keepNameChars patientName)) in
  let patientId :=
    if isSet (MetadataExtractor.patientId metadata)
    then js "_" ++ default [] (MetadataExtractor.patientId metadata)
    else [] in
  safeName ++ patientId ++ js "_" ++ timestamp ++ js "_"
  ++ numberToString reportIndex ++ js ".pdf".

(** A code unit of an object key made of word characters, hyphens and
    dots. *)
Definition keyChar (c : N) : bool :=
  isWordChar c || (c =? hyphen) || (c =? dot).

(** A code unit of a date [YYYY-MM-DD]. *)
Definition dateChar (c : N) : bool := isDigit c || (c =? hyphen).

End S3Service.

(** ** src/services/TextractService.js *)

Module TextractService.

(** A relationship of a block; [Type_] is its property [Type]. *)
Record Relationship : Type := {
  Type_ : jsstring;
  Ids : list jsstring
}.

(** A block of the text-extraction response, with the properties the
    service reads.  [Text] is present on the word blocks; [RowIndex] and
    [ColumnIndex], counted from 1, are read on the cell blocks only. *)
Record Block : Type := {
  Id : jsstring;
  BlockType : jsstring;
  EntityTypes : option (list jsstring);
  Relationships : option (list Relationship);
  Text : option jsstring;
  RowIndex : nat;
  ColumnIndex : nat
}.

(** [allBlocks.find(b => b.Id === id)] *)
Definition findBlock (allBlocks : list Block) (id : jsstring) : option Block :=
  List.find (fun b => bool_decide (Id b = id)) allBlocks.

(** [relationships.find(rel => rel.Type === type)] *)
Definition findRelationship (type : jsstring) (rels : list Relationship)
    : option Relationship :=
  List.find (fun rel => bool_decide (Type_ rel = type)) rels.

(** [b?.BlockType === type] for an element that may be [undefined]. *)
Definition hasType (type : jsstring) (b : option Block) : bool :=
  match b with
  | Some b => bool_decide (BlockType b = type)
  | None => false
  end.

(** [l.join(sep)], where an [undefined] element prints as the empty
    string. *)
Fixpoint join (sep : jsstring) (l : list (option jsstring)) : jsstring :=
  match l with
  | [] => []
  | [x] => default [] x
  | x :: t => default [] x ++ sep ++ join sep t
  end.

Definition _getBlockText (block : Block) (allBlocks : list Block) : jsstring :=
  match Relationships block with
  | None => []
  | Some rels =>
      let childIds :=
        match findRelationship (js "CHILD") rels with
        | Some rel => Ids rel
        | None => []
        end in
      join (js " ")
           (List.map (fun b => b ≫= Text)
              (List.filter (hasType (js "WORD"))
                 (List.map (findBlock allBlocks) childIds)))
  end.

Definition _findValueBlock (keyBlock : Block) (allBlocks : list Block)
    : option Block :=
  match Relationships keyBlock with
  | None => None
  | Some rels =>
      match findRelationship (js "VALUE") rels with
      | None => None
      | Some valueRelation =>
          match Ids valueRelation with
          | id :: _ => findBlock allBlocks id
          | [] => None
          end
      end
  end.

(** [key.replace(/[:\s]+$/, '')]: the trailing run of colons and whitespace
    is removed. *)
Fixpoint dropColonsAndSpaces (s : jsstring) : jsstring :=
  match s with
  | c :: t => if (c =? colon) || isWhiteSpace c then dropColonsAndSpaces t else s
  | [] => []
  end.

Definition stripTrailing (s : jsstring) : jsstring :=
  rev (dropColonsAndSpaces (rev s)).

(** [keyValuePairs[key] = v] on a plain object, for a string [v]: the
    property [__proto__] is the prototype accessor, which ignores a string,
    and every other key becomes an own property. *)
Definition assignProperty (kv : gmap jsstring value) (key : jsstring) (v : value)
    : gmap jsstring value :=
  if bool_decide (key = js "__proto__") then kv else <[key := v]> kv.

Section WithToLowerCase.

Variable toLowerCase : jsstring -> jsstring.

(** The body of the [forEach] of [_extractKeyValuePairs]. *)
Definition addKeyValue (blocks : list Block) (keyValuePairs : gmap jsstring value)
    (block : Block) : gmap jsstring value :=
  match EntityTypes block with
  | Some types =>
      if existsb (fun t => bool_decide (t = js "KEY")) types then
        let key := _getBlockText block blocks in
        match _findValueBlock block blocks with
        | Some valueBlock =>
            let value := _getBlockText valueBlock blocks in
            let cleanKey := toLowerCase (trim (stripTrailing key)) in
            assignProperty keyValuePairs cleanKey (VString (trim value))
        | None => keyValuePairs
        end
      else keyValuePairs
  | None => keyValuePairs
  end.

Definition _extractKeyValuePairs (blocks : list Block) : gmap jsstring value :=
  fold_left (addKeyValue blocks)
            (List.filter (fun b => bool_decide (BlockType b = js "KEY_VALUE_SET")) blocks)
            ∅.

End WithToLowerCase.

(** The comparator of the sort of the cells is not positive: [a] may stay
    before [b]. *)
Definition cellLeb (a b : Block) : bool :=
  if negb (RowIndex a =? RowIndex b)%nat then (RowIndex a <? RowIndex b)%nat
  else (ColumnIndex a <=? ColumnIndex b)%nat.

(** [cells.sort(...)], a stable sort: a cell is put before the first cell
    it may stay before. *)
Fixpoint insertCell (c : Block) (sorted : list Block) : list Block :=
  match sorted with
  | [] => [c]
  | x :: t => if cellLeb c x then c :: x :: t else x :: insertCell c t
  end.

Definition sortCells (cells : list Block) : list Block :=
  fold_right insertCell [] cells.

(** [row[col - 1] = v] on an array: an index past the end lengthens the
    array, the elements skipped reading as [undefined]; the index [-1] of a
    column 0 is not an element of the array. *)
Definition writeCell (col : nat) (v : value) (row : list value) : list value :=
  match col with
  | O => row
  | S i =>
      if (i <? length row)%nat then <[i := v]> row
      else row ++ replicate (i - length row) VUndefined ++ [v]
  end.

(** [if (!rowGroups[r]) rowGroups[r] = []; rowGroups[r][col - 1] = v], the
    object [rowGroups] being kept as the list of its entries in the order of
    [Object.values], which for row numbers is the ascending one. *)
Fixpoint putCell (r col : nat) (v : value) (rowGroups : list (nat * list value))
    : list (nat * list value) :=
  match rowGroups with
  | [] => [(r, writeCell col v [])]
  | (k, row) :: rest =>
      if (r <? k)%nat then (r, writeCell col v []) :: (k, row) :: rest
      else if (r =? k)%nat then (k, writeCell col v row) :: rest
      else (k, row) :: putCell r col v rest
  end.

(** The table that [_extractTables] builds for one table block. *)
Definition tableOf (blocks : list Block) (tableBlock : Block) : Table :=
  match Relationships tableBlock with
  | None => {| rows := Some [] |}
  | Some rels =>
      match findRelationship (js "CHILD") rels with
      | None => {| rows := Some [] |}
      | Some cellRelation =>
          let cells :=
            sortCells
              (omap id
                 (List.filter (hasType (js "CELL"))
                    (List.map (findBlock blocks) (Ids cellRelation)))) in
          let rowGroups :=
            fold_left
              (fun groups cell =>
                 putCell (RowIndex cell) (ColumnIndex cell)
                         (VString (_getBlockText cell blocks)) groups)
              cells [] in
          {| rows := Some (List.map (fun g => RowArray (snd g)) rowGroups) |}
      end
  end.

Definition _extractTables (blocks : list Block) : list Table :=
  List.map (tableOf blocks)
           (List.filter (fun b => bool_decide (BlockType b = js "TABLE")) blocks).

(** A cell as the service writes it: a string, or a gap that reads as
    [undefined]. *)
Definition textOrGap (v : value) : Prop :=
  v = VUndefined \/ exists s, v = VString s.

End TextractService.

(** ** src/ReportProcessor.js *)

Module ReportProcessor.

(** The page object [{ index: i, bytes, ...extractedData }] for the blocks
    of the response; of the extracted data, the key/value pairs and the
    tables are the part the splitter and the metadata extractor read. *)
Definition pageDataOf (toLowerCase : jsstring -> jsstring) (i : nat)
    (blocks : list TextractService.Block) : PageData :=
  {| index := Z.of_nat i;
     keyValuePairs := Some (TextractService._extractKeyValuePairs toLowerCase blocks);
     tables := Some (TextractService._extractTables blocks) |}.

(** The loop of [_extractPageData] from page [i] on: [responses] gives for
    each page the blocks of its response, or [None] when the page bytes or
    the text extraction failed and the [catch] skipped the page. *)
Fixpoint collectPages (toLowerCase : jsstring -> jsstring) (i : nat)
    (responses : list (option (list TextractService.Block))) : list Page :=
  match responses with
  | [] => []
  | Some blocks :: rest =>
      Some (pageDataOf toLowerCase i blocks) :: collectPages toLowerCase (S i) rest
  | None :: rest => collectPages toLowerCase (S i) rest
  end.

(** [_extractPageData]; [None] is the exception "No pages could be
    processed successfully". *)
Definition _extractPageData (toLowerCase : jsstring -> jsstring)
    (responses : list (option (list TextractService.Block)))
    : option (list Page) :=
  match collectPages toLowerCase 0 responses with
  | [] => None
  | pageDataArray => Some pageDataArray
  end.

End ReportProcessor.

(** ** Runs of the model on concrete pages *)

Definition kvPage (i : Z) (kv : list (string * string)) : Page :=
  Some {| index := i;
          keyValuePairs :=
            Some (list_to_map (List.map (fun p => (js (fst p), VString (js (snd p)))) kv));
          tables := Some [] |}.

Definition tablePage (i : Z) (cells : list value) : Page :=
  Some {| index := i;
          keyValuePairs := Some ∅;
          tables := Some [ {| rows := Some [RowArray cells] |} ] |}.

Import DocumentSplitter.

(** A page with a purely numeric name, and the candidate it yields. *)
Definition numericNamePage : Page := kvPage 0 [("name", "12345")].
Definition numericNameInfo : PatientInfo :=
  {| name := Some (js "12345"); patientId := None; dob := None |}.

(** A page whose identifier is cleaned to the empty string, and a page of
    the same name with a proper identifier. *)
Definition emptyIdPage : Page := kvPage 0 [("name", "Al"); ("id", "!!!")].
Definition emptyIdInfo : PatientInfo :=
  {| name := Some (js "Al"); patientId := Some []; dob := None |}.
Definition properIdPage : Page := kvPage 1 [("name", "Al"); ("id", "X12")].
Definition properIdInfo : PatientInfo :=
  {| name := Some (js "Al"); patientId := Some (js "X12"); dob := None |}.

(** A page whose only table has the row [["Patient Name", 42]]. *)
Definition numberCellPage : Page :=
  tablePage 0 [VString (js "Patient Name"); VNumber 42].

(** A page with a date of birth and nothing else. *)
Definition dobOnlyData : PageData :=
  {| index := 0;
     keyValuePairs := Some {[ js "dob" := VString (js "01/02/1990") ]};
     tables := Some [] |}.
Definition dobOnlyInfo : PatientInfo :=
  {| name := None; patientId := None; dob := Some (js "01021990") |}.

(** A page without any field, and pages of the patient [id]. *)
Definition blankPage (i : Z) : Page := kvPage i [].
Definition patientPage (i : Z) (id : string) : Page :=
  kvPage i [("patient id", id)].
Definition patientInfo (id : string) : PatientInfo :=
  {| name := None; patientId := Some (js id); dob := None |}.

(** The ten pages of the documented example: four patients on pages 0-2,
    3-4, 5-7 and 8-9. *)
Definition tenPages : list Page :=
  [ patientPage 0 "AAA1"; patientPage 1 "AAA1"; patientPage 2 "AAA1";
    patientPage 3 "BBB2"; patientPage 4 "BBB2";
    patientPage 5 "CCC3"; patientPage 6 "CCC3"; patientPage 7 "CCC3";
    patientPage 8 "DDD4"; patientPage 9 "DDD4" ].


(** Key/value pairs whose first name alias has a value of punctuation
    only and whose second has a proper name; the same with another name
    under the second alias; the page of the former, and the candidate it
    yields. *)
Definition invalidFirstAlias : gmap jsstring value :=
  {[ js "patient name" := VString (js "!!");
     js "name" := VString (js "John Doe");
     js "id" := VString (js "X12") ]}.
Definition otherSecondAlias : gmap jsstring value :=
  <[ js "name" := VString (js "Jane Roe") ]> invalidFirstAlias.
Definition invalidFirstData : PageData :=
  {| index := 0; keyValuePairs := Some invalidFirstAlias; tables := Some [] |}.
Definition invalidFirstInfo : PatientInfo :=
  {| name := Some []; patientId := Some (js "X12"); dob := None |}.

(** Field mappings whose first alias for the name is a property that every
    object inherits, and key/value pairs with a name. *)
Definition inheritedAlias : list (MetadataExtractor.Field * list jsstring) :=
  MetadataExtractor.setFieldMappings MetadataExtractor.fieldMappings
    [(MetadataExtractor.Name, [js "constructor"; js "name"])].
Definition nameOnly : gmap jsstring value :=
  {[ js "name" := VString (js "John Doe") ]}.

(** The data of [patientPage i id], and the ten pages as data. *)
Definition patientData (i : Z) (id : string) : PageData :=
  {| index := i;
     keyValuePairs :=
       Some (list_to_map
               (List.map (fun p => (js (fst p), VString (js (snd p))))
                  [("patient id", id)]));
     tables := Some [] |}.

Definition tenData : list PageData :=
  [ patientData 0 "AAA1"; patientData 1 "AAA1"; patientData 2 "AAA1";
    patientData 3 "BBB2"; patientData 4 "BBB2";
    patientData 5 "CCC3"; patientData 6 "CCC3"; patientData 7 "CCC3";
    patientData 8 "DDD4"; patientData 9 "DDD4" ].

(** The ten pages cut into the runs of the four patients, and the reports
    of these runs. *)
Definition tenRuns : list (list Page) :=
  [ [patientPage 0 "AAA1"; patientPage 1 "AAA1"; patientPage 2 "AAA1"];
    [patientPage 3 "BBB2"; patientPage 4 "BBB2"];
    [patientPage 5 "CCC3"; patientPage 6 "CCC3"; patientPage 7 "CCC3"];
    [patientPage 8 "DDD4"; patientPage 9 "DDD4"] ].

Definition tenReports : list Report :=
  imap (fun i ps => reportOf i ps true) tenRuns.

(** Three pages of two patients, and their reports under a cap of one
    page. *)
Definition threePages : list Page :=
  [patientPage 0 "AAA1"; patientPage 1 "AAA1"; patientPage 2 "BBB2"].
Definition threeReports : list Report :=
  imap (fun i p => reportOf i [p] true) threePages.

(** A page whose key/value pairs give a name and an identifier and whose
    table has a number after a label cell; and what the probing gives. *)
Definition completeKeyValues : gmap jsstring value :=
  {[ js "name" := VString (js "Al"); js "id" := VString (js "X12") ]}.
Definition completeData : PageData :=
  {| index := 0;
     keyValuePairs := Some completeKeyValues;
     tables := Some [ {| rows := Some [RowArray [VString (js "Patient Name");
                                                 VNumber 42]] |} ] |}.

(** A page for the metadata extractor: a name in the key/value pairs, an
    identifier and a date of birth in a table. *)
Definition mixedData : PageData :=
  {| index := 0;
     keyValuePairs := Some {[ js "patient name" := VString (js " Jane  Roe! ") ]};
     tables := Some [ {| rows := Some [RowArray [VString (js "MRN");
                                                 VString (js "A-17 29")];
                                       RowArray [VString (js "DOB: 03/04/1985")]] |} ] |}.
Definition mixedMetadata : MetadataExtractor.Metadata :=
  {| MetadataExtractor.name := Some (js "Jane  Roe");
     MetadataExtractor.dob := Some (js "03/04/1985");
     MetadataExtractor.patientId := Some (js "A1729") |}.

(** The blocks of a response: the key "Patient Name:" with the value
    "John Doe", and a table whose only row has "MRN" in column 1 and "A17"
    in column 3. *)
Definition wordBlock (id text : string) : TextractService.Block :=
  {| TextractService.Id := js id;
     TextractService.BlockType := js "WORD";
     TextractService.EntityTypes := None;
     TextractService.Relationships := None;
     TextractService.Text := Some (js text);
     TextractService.RowIndex := 0;
     TextractService.ColumnIndex := 0 |}.

Definition children (ids : list string) : TextractService.Relationship :=
  {| TextractService.Type_ := js "CHILD";
     TextractService.Ids := List.map js ids |}.

Definition cellBlock (id : string) (r c : nat) (ids : list string)
    : TextractService.Block :=
  {| TextractService.Id := js id;
     TextractService.BlockType := js "CELL";
     TextractService.EntityTypes := None;
     TextractService.Relationships := Some [children ids];
     TextractService.Text := None;
     TextractService.RowIndex := r;
     TextractService.ColumnIndex := c |}.

Definition sampleBlocks : list TextractService.Block :=
  [ wordBlock "w1" "Patient"; wordBlock "w2" "Name:";
    wordBlock "w3" "John"; wordBlock "w4" "Doe";
    wordBlock "w5" "MRN"; wordBlock "w6" "A17";
    {| TextractService.Id := js "k1";
       TextractService.BlockType := js "KEY_VALUE_SET";
       TextractService.EntityTypes := Some [js "KEY"];
       TextractService.Relationships :=
         Some [children ["w1"; "w2"];
               {| TextractService.Type_ := js "VALUE";
                  TextractService.Ids := [js "v1"] |}];
       TextractService.Text := None;
       TextractService.RowIndex := 0;
       TextractService.ColumnIndex := 0 |};
    {| TextractService.Id := js "v1";
       TextractService.BlockType := js "KEY_VALUE_SET";
       TextractService.EntityTypes := Some [js "VALUE"];
       TextractService.Relationships := Some [children ["w3"; "w4"]];
       TextractService.Text := None;
       TextractService.RowIndex := 0;
       TextractService.ColumnIndex := 0 |};
    {| TextractService.Id := js "t1";
       TextractService.BlockType := js "TABLE";
       TextractService.EntityTypes := None;
       TextractService.Relationships := Some [children ["c2"; "c1"]];
       TextractService.Text := None;
       TextractService.RowIndex := 0;
       TextractService.ColumnIndex := 0 |};
    cellBlock "c1" 1 1 ["w5"]; cellBlock "c2" 1 3 ["w6"] ].

(** A document of three pages whose second page could not be processed. *)
Definition sampleResponses : list (option (list TextractService.Block)) :=
  [Some sampleBlocks; None; Some sampleBlocks].
Definition samplePages : list Page :=
  [ Some (ReportProcessor.pageDataOf asciiToLowerCase 0 sampleBlocks);
    Some (ReportProcessor.pageDataOf asciiToLowerCase 2 sampleBlocks) ].

(** * Properties *)

Lemma bind_Ok {A B} (r : result A) (k : A -> result B) (b : B) :
  bind r k = Ok b -> exists a, r = Ok a /\ k a = Ok b.
Proof. destruct r as [a|e]; simpl; [eauto | discriminate]. Qed.

Ltac inv_bind H :=
  let a := fresh "a" in
  let Ha := fresh "H" a in
  apply bind_Ok in H; destruct H as (a & Ha & H).

(** ** Strings *)

Lemma trimStart_length s : (length (trimStart s) <= length s)%nat.
Proof.
  induction s as [|c s IH]; simpl; [lia|].
  destruct (isWhiteSpace c); simpl; lia.
Qed.

Lemma Forall_trimStart (P : N -> Prop) s : Forall P s -> Forall P (trimStart s).
Proof.
  induction 1 as [|c s Hc Hs IH]; simpl; [constructor|].
  destruct (isWhiteSpace c); [exact IH | now constructor].
Qed.

Lemma trim_length s : (length (trim s) <= length s)%nat.
Proof.
  unfold trim, trimEnd. rewrite length_rev.
  etransitivity; [apply trimStart_length|]. rewrite length_rev.
  apply trimStart_length.
Qed.

Lemma Forall_trim (P : N -> Prop) s : Forall P s -> Forall P (trim s).
Proof.
  intros H. unfold trim, trimEnd.
  apply Forall_rev, Forall_trimStart, Forall_rev, Forall_trimStart, H.
Qed.

Lemma trimStart_no_space s :
  Forall (fun c => isWhiteSpace c = false) s -> trimStart s = s.
Proof. destruct 1 as [|c s Hc _]; simpl; [reflexivity | now rewrite Hc]. Qed.

Lemma trim_no_space s :
  Forall (fun c => isWhiteSpace c = false) s -> trim s = s.
Proof.
  intros H. unfold trim, trimEnd.
  rewrite (trimStart_no_space s H).
  rewrite trimStart_no_space; [apply rev_involutive | now apply Forall_rev].
Qed.

Lemma digit_not_space c : isDigit c = true -> isWhiteSpace c = false.
Proof.
  unfold isDigit. rewrite andb_true_iff, !N.leb_le. intros [Hlo Hhi].
  destruct (isWhiteSpace c) eqn:W; [exfalso | reflexivity].
  unfold isWhiteSpace in W.
  repeat (rewrite ?orb_true_iff, ?andb_true_iff, ?N.leb_le, ?N.eqb_eq in W).
  lia.
Qed.

Lemma allDigits_Forall s : allDigits s = true -> Forall (fun c => isDigit c = true) s.
Proof.
  destruct s as [|c s]; [discriminate|]. unfold allDigits.
  intros H. apply Forall_forall. intros x Hx.
  rewrite forallb_forall in H. apply H. now apply list_elem_of_In.
Qed.

Lemma trim_allDigits s : allDigits s = true -> trim s = s.
Proof.
  intros H. apply trim_no_space.
  eapply Forall_impl; [apply allDigits_Forall, H|].
  intros c. apply digit_not_space.
Qed.

Lemma Forall_filter_true (f : N -> bool) s :
  Forall (fun c => f c = true) (List.filter f s).
Proof.
  apply Forall_forall. intros c Hc.
  apply list_elem_of_In, filter_In in Hc. tauto.
Qed.

(** ** The field normaliser *)

(** C7. [_cleanValue] on a raw string never throws and gives [null] on
    failure.  For a name it keeps only word characters, whitespace and
    hyphens and gives [null] when what is left has fewer than 2 code units
    or is all digits; for a date of birth it gives [null] when the trimmed
    value has no digit or fewer than 6 code units; for a patient identifier
    it keeps only word characters and gives [null] when fewer than 3 are
    left.  Otherwise the cleaned string is returned. *)
Theorem cleanValue_contract (s : jsstring) :
  let stripped := keepNameChars (trim s) in
  let n := trim stripped in
  let d := trim s in
  let i := keepWordChars (trim s) in
  (MetadataExtractor._cleanValue (VString s) MetadataExtractor.Name
   = if (length n <? 2)%nat || allDigits n then None else Some n)
  /\ Forall (fun c => isWordChar c || isWhiteSpace c || (c =? hyphen) = true) n
  /\ ((length stripped < 2)%nat \/ allDigits stripped = true ->
      MetadataExtractor._cleanValue (VString s) MetadataExtractor.Name = None)
  /\ (MetadataExtractor._cleanValue (VString s) MetadataExtractor.Dob
      = if negb (hasDigit d) || (length d <? 6)%nat then None else Some d)
  /\ (MetadataExtractor._cleanValue (VString s) MetadataExtractor.PatientId
      = if (length i <? 3)%nat then None else Some i)
  /\ Forall (fun c => isWordChar c = true) i.
Proof.
  intros stripped n d i.
  assert (Hname : MetadataExtractor._cleanValue (VString s) MetadataExtractor.Name
                  = if (length n <? 2)%nat || allDigits n then None else Some n)
    by (destruct s; reflexivity).
  split; [exact Hname|].
  split; [apply Forall_trim, Forall_filter_true|].
  split.
  - rewrite Hname. intros [Hlen|Hdig].
    + pose proof (trim_length stripped) as Hle. fold n in Hle.
      destruct (Nat.ltb_spec (length n) 2) as [_|G]; [reflexivity | lia].
    + subst n. rewrite (trim_allDigits _ Hdig), Hdig.
      now rewrite orb_true_r.
  - split; [destruct s; reflexivity|].
    split; [destruct s; reflexivity|].
    apply Forall_filter_true.
Qed.

(** The normaliser of the metadata extractor surfaces no empty string and
    no all-digit name. *)
Lemma cleanValue_valid v field s :
  MetadataExtractor._cleanValue v field = Some s ->
  s <> [] /\ (field = MetadataExtractor.Name -> allDigits s = false).
Proof.
  unfold MetadataExtractor._cleanValue.
  destruct (negb (truthy v)); [discriminate|].
  destruct v as [| | | |r]; try discriminate.
  destruct field.
  - destruct (Nat.ltb_spec (length (trim (keepNameChars (trim r)))) 2) as [L|L];
      simpl; [discriminate|].
    destruct (allDigits _) eqn:D; [discriminate|].
    intros [= <-]. split; [|auto].
    intros E. rewrite E in L. simpl in L. lia.
  - destruct (negb _); simpl; [discriminate|].
    destruct (Nat.ltb_spec (length (trim r)) 6) as [L|L]; [discriminate|].
    intros [= <-]. split; [|discriminate].
    intros E. rewrite E in L. simpl in L. lia.
  - destruct (Nat.ltb_spec (length (keepWordChars (trim r))) 3) as [L|L];
      [discriminate|].
    intros [= <-]. split; [|discriminate].
    intros E. rewrite E in L. simpl in L. lia.
Qed.

(** ** The split decision *)

(** C3, as the code has it.  With no anchor, the candidate is different iff
    it is present; with an anchor and no candidate it is not different;
    otherwise the first of patient identifier, name and date of birth that
    both sides have as a non-empty string decides, by inequality; and with
    no such field the candidate is not different. *)
Theorem isDifferentPatient_precedence (cur new : option PatientInfo) :
  (cur = None ->
     (_isDifferentPatient cur new = true <-> new <> None))
  /\ (cur <> None -> new = None -> _isDifferentPatient cur new = false)
  /\ (forall c n, cur = Some c -> new = Some n ->
       let both f := isSet (f c) && isSet (f n) in
       (both patientId = true ->
          (_isDifferentPatient cur new = true <-> patientId c <> patientId n))
       /\ (both patientId = false -> both name = true ->
           (_isDifferentPatient cur new = true <-> name c <> name n))
       /\ (both patientId = false -> both name = false -> both dob = true ->
           (_isDifferentPatient cur new = true <-> dob c <> dob n))
       /\ (both patientId = false -> both name = false -> both dob = false ->
           _isDifferentPatient cur new = false)).
Proof.
  split; [|split].
  - intros ->. destruct new; simpl; split; congruence.
  - intros Hc ->. destruct cur; [reflexivity | congruence].
  - intros c n -> -> both. simpl. subst both. simpl.
    assert (Hneq : forall a b : option jsstring,
               negb (bool_decide (a = b)) = true <-> a <> b).
    { intros a b. destruct (bool_decide_reflect (a = b)); simpl; split;
        congruence. }
    repeat split; intros; repeat match goal with
                                 | H : _ && _ = _ |- _ => rewrite H in *
                                 end; try apply Hneq; auto;
      match goal with
      | H : negb _ = true |- _ => now apply Hneq in H
      end.
Qed.

(** ** First match wins *)

Lemma probeKeys_first_match kv pre k post v field :
  Forall (fun a => truthy (orUndefined (kv !! a)) = false) pre ->
  kv !! k = Some v -> truthy v = true ->
  probeKeys (pre ++ k :: post) kv field = _cleanPatientValue v.
Proof.
  intros Hpre Hk Hv. induction Hpre as [|a pre Ha _ IH]; simpl.
  - now rewrite Hk; simpl; rewrite Hv.
  - now rewrite Ha.
Qed.

Lemma probeKeys_no_match kv keys field :
  Forall (fun a => truthy (orUndefined (kv !! a)) = false) keys ->
  probeKeys keys kv field = field.
Proof. induction 1 as [|a keys Ha _ IH]; simpl; [|rewrite Ha]; auto. Qed.

Lemma metadata_probe_first_match kv pre k post field m :
  Forall (fun a => truthyProperty (getProperty kv a) = false) pre ->
  truthyProperty (getProperty kv k) = true ->
  isSet (MetadataExtractor.get m field) = false ->
  MetadataExtractor.probeKeys field (pre ++ k :: post) kv m
  = MetadataExtractor.set m field
      (MetadataExtractor.cleanProperty (getProperty kv k) field).
Proof.
  intros Hpre Hk Hm. induction Hpre as [|a pre Ha _ IH]; simpl.
  - now rewrite Hk, Hm.
  - now rewrite Ha.
Qed.

Lemma metadata_probe_other kv keys f g m :
  f <> g ->
  MetadataExtractor.get (MetadataExtractor.probeKeys g keys kv m) f
  = MetadataExtractor.get m f.
Proof.
  intros Hfg. induction keys as [|a keys IH]; simpl; [reflexivity|].
  destruct (_ && _); [|exact IH].
  destruct f, g; try reflexivity; congruence.
Qed.

Lemma metadata_fold_other kv f l : forall m,
  Forall (fun fk => fst fk <> f) l ->
  MetadataExtractor.get
    (fold_left (fun m fk => MetadataExtractor.probeKeys (fst fk) (snd fk) kv m) l m) f
  = MetadataExtractor.get m f.
Proof.
  induction l as [|fk l IH]; simpl; intros m Hl; [reflexivity|].
  apply Forall_cons in Hl as [Hfk Hl].
  rewrite IH by exact Hl. apply metadata_probe_other. congruence.
Qed.

Lemma metadata_get_set m f v :
  MetadataExtractor.get (MetadataExtractor.set m f v) f = v.
Proof. now destruct f. Qed.

(** ** Identity extraction *)

Section Extraction.

Variable toLowerCase : jsstring -> jsstring.

Abbreviation extract := (_extractPatientInfo toLowerCase).

Lemma foldM_total {A B} (P : B -> Prop) (f : A -> B -> result A) l :
  (forall a x, P x -> exists a', f a x = Ok a') ->
  Forall P l -> forall a, exists a', foldM f a l = Ok a'.
Proof.
  intros Hf. induction 1 as [|x l Hx _ IH]; simpl; intros a; [eauto|].
  destruct (Hf a x Hx) as [a' ->]. simpl. apply IH.
Qed.

Lemma foldM_Err {A B} (e0 : error) (f : A -> B -> result A) l :
  (forall a x e, f a x = Err e -> e = e0) ->
  forall a e, foldM f a l = Err e -> e = e0.
Proof.
  intros Hf. induction l as [|x l IH]; simpl; intros a e; [discriminate|].
  destruct (f a x) as [a'|e'] eqn:E; simpl.
  - apply IH.
  - intros [= <-]. eapply Hf, E.
Qed.

Lemma acceptsValue_total v cellLower :
  stringOrFalsy v -> exists b, acceptsValue v cellLower = Ok b.
Proof.
  unfold acceptsValue. destruct v; simpl; intros H; try rewrite H; eauto.
  destruct s; eauto.
Qed.

Lemma valueCellOf_stringOrFalsy row idx cell :
  Forall stringOrFalsy row -> stringOrFalsy (valueCellOf row idx cell).
Proof.
  intros Hrow. unfold valueCellOf, orElse.
  destruct (truthy (orUndefined (row !! S idx))) eqn:T.
  - destruct (row !! S idx) as [v|] eqn:E; simpl in *; [|discriminate].
    eapply Forall_lookup_1; eassumption.
  - destruct (split colon cell !! 1%nat); simpl; auto.
Qed.

Lemma fromCell_total keys field row idx cell cellLower :
  Forall stringOrFalsy row ->
  exists f, fromCell keys field row idx cell cellLower = Ok f.
Proof.
  intros Hrow. unfold fromCell. destruct (_ && _); [|eauto].
  destruct (acceptsValue_total (valueCellOf row idx cell) cellLower) as [b ->];
    [now apply valueCellOf_stringOrFalsy | simpl; eauto].
Qed.

Lemma visitCell_total row info ic :
  Forall stringOrFalsy row ->
  exists info', visitCell toLowerCase row info ic = Ok info'.
Proof.
  intros Hrow. unfold visitCell. destruct ic as [idx cell].
  destruct (negb (truthy cell)); [eauto|].
  destruct cell; eauto.
  destruct (fromCell_total tableNameKeys (name info) row idx s (toLowerCase s) Hrow) as [n ->].
  destruct (fromCell_total tableIdKeys (patientId info) row idx s (toLowerCase s) Hrow) as [i ->].
  destruct (fromCell_total tableDobKeys (dob info) row idx s (toLowerCase s) Hrow) as [d ->].
  simpl. eauto.
Qed.

Lemma visitRow_total info row :
  Forall stringOrFalsy (rowCells row) ->
  exists info', visitRow toLowerCase info row = Ok info'.
Proof.
  destruct row as [cells|]; simpl; [|eauto]. intros Hrow.
  apply (foldM_total (fun _ => True)); [|now apply Forall_true].
  intros a x _. now apply visitCell_total.
Qed.

Lemma visitTable_total info t :
  Forall (fun row => Forall stringOrFalsy (rowCells row)) (default [] (rows t)) ->
  exists info', visitTable toLowerCase info t = Ok info'.
Proof.
  unfold visitTable. destruct (rows t) as [rs|]; simpl; [|eauto]. intros H.
  eapply foldM_total; [|exact H]. intros a x Hx. now apply visitRow_total.
Qed.

(** A page whose table cells are strings or falsy values never makes the
    identity extraction throw. *)
Lemma stringCells_extractable page :
  stringCells page -> extractable toLowerCase page.
Proof.
  destruct page as [pd|]; [|now exists None]. simpl. intros H.
  assert (exists info, resolveFields toLowerCase pd = Ok info) as [info Hinfo].
  { unfold resolveFields. destruct (tables pd) as [[|t ts]|]; simpl in *; eauto.
    destruct (_ || _); [|eauto].
    unfold _extractFromTables.
    eapply foldM_total; [|exact H]. intros a x Hx. now apply visitTable_total. }
  unfold extractable, _extractPatientInfo. rewrite Hinfo. simpl.
  destruct (_ && _); eauto.
Qed.

(** The only exception of the identity extraction is the [TypeError] of
    [valueCell.trim()]. *)
Lemma extract_Err page e : extract page = Err e -> e = TypeError.
Proof.
  assert (Hcell : forall keys field row idx cell cl e,
             fromCell keys field row idx cell cl = Err e -> e = TypeError).
  { intros keys field row idx cell cl e'. unfold fromCell, acceptsValue.
    destruct (_ && _); [|discriminate].
    destruct (truthy _); [|discriminate].
    destruct (valueCellOf row idx cell); simpl; congruence. }
  assert (Hvisit : forall row info ic e,
             visitCell toLowerCase row info ic = Err e -> e = TypeError).
  { intros row info [idx cell] e'. unfold visitCell.
    destruct (negb _); [discriminate|]. destruct cell; try discriminate.
    destruct (fromCell tableNameKeys _ _ _ _ _) eqn:E1; simpl;
      [|intros [= <-]; eapply Hcell, E1].
    destruct (fromCell tableIdKeys _ _ _ _ _) eqn:E2; simpl;
      [|intros [= <-]; eapply Hcell, E2].
    destruct (fromCell tableDobKeys _ _ _ _ _) eqn:E3; simpl;
      [discriminate|intros [= <-]; eapply Hcell, E3]. }
  assert (Hrow : forall info row e,
             visitRow toLowerCase info row = Err e -> e = TypeError).
  { intros info [cells|] e'; simpl; [|discriminate].
    apply foldM_Err. apply Hvisit. }
  assert (Htable : forall info t e,
             visitTable toLowerCase info t = Err e -> e = TypeError).
  { intros info t e'. unfold visitTable. destruct (rows t); [|discriminate].
    apply foldM_Err. apply Hrow. }
  destruct page as [pd|]; simpl; [|discriminate].
  destruct (resolveFields toLowerCase pd) as [info|e'] eqn:E; simpl.
  - destruct (_ && _); discriminate.
  - intros [= <-]. unfold resolveFields in E.
    destruct (tables pd) as [[|t ts]|]; try discriminate.
    destruct (_ || _); [|discriminate].
    revert E. apply foldM_Err. apply Htable.
Qed.

(** C9. A page on which neither a name nor a patient identifier is resolved
    yields no identity candidate, whatever was resolved for the date of
    birth. *)
Theorem no_candidate_without_name_and_id pd info :
  resolveFields toLowerCase pd = Ok info ->
  isSet (name info) = false ->
  isSet (patientId info) = false ->
  extract (Some pd) = Ok None.
Proof.
  intros Hr Hn Hi. unfold _extractPatientInfo.
  rewrite Hr. simpl. now rewrite Hn, Hi.
Qed.

(** The converse: a page yields no candidate only when neither field is
    resolved. *)
Lemma candidate_with_name_or_id pd info :
  resolveFields toLowerCase pd = Ok info ->
  isSet (name info) = true \/ isSet (patientId info) = true ->
  extract (Some pd) = Ok (Some info).
Proof.
  intros Hr H. unfold _extractPatientInfo. rewrite Hr. simpl.
  destruct H as [-> | ->]; simpl; [reflexivity|].
  now rewrite andb_false_r.
Qed.

End Extraction.

(** ** The scan *)

Section Engine.

Variable toLowerCase : jsstring -> jsstring.

Abbreviation extract := (_extractPatientInfo toLowerCase).
Abbreviation finalize := (_finalizeReport toLowerCase).
Abbreviation extractable := (extractable toLowerCase).
Abbreviation silent := (silent toLowerCase).

(** *** Finalising a report *)

Lemma finalize_fields ps i r :
  finalize ps i = Ok r ->
  pages r = ps /\ pageCount r = length ps /\ reportIndex r = i.
Proof.
  unfold _finalizeReport. intros H. inv_bind H.
  injection H as <-. auto.
Qed.

Lemma someM_yields_total ps :
  Forall extractable ps -> exists b, someM (yieldsIdentity toLowerCase) ps = Ok b.
Proof.
  induction 1 as [|p ps [c Hc] _ [b IH]]; simpl; [eauto|].
  unfold yieldsIdentity at 1. rewrite Hc. simpl.
  destruct c; eauto.
Qed.

Lemma finalize_total ps i :
  Forall extractable ps -> exists r, finalize ps i = Ok r.
Proof.
  intros H. destruct (someM_yields_total ps H) as [b Hb].
  unfold _finalizeReport. rewrite Hb. simpl. eauto.
Qed.

Lemma someM_silent ps :
  Forall silent ps -> someM (yieldsIdentity toLowerCase) ps = Ok false.
Proof.
  induction 1 as [|p ps Hp _ IH]; simpl; [reflexivity|].
  unfold yieldsIdentity at 1. rewrite Hp. simpl. exact IH.
Qed.

Lemma finalize_silent ps i r :
  Forall silent ps -> finalize ps i = Ok r -> hasPatientData r = false.
Proof.
  intros Hs H. unfold _finalizeReport in H.
  rewrite (someM_silent ps Hs) in H. simpl in H. injection H as <-. reflexivity.
Qed.

(** *** One iteration *)

Lemma consumed_push st p : consumed (push st p) = consumed st ++ [p].
Proof. unfold consumed, push. simpl. now rewrite app_assoc. Qed.

Lemma boundary_consumed st c st' :
  boundary toLowerCase st c = Ok st' -> consumed st' = consumed st.
Proof.
  unfold boundary. intros H.
  destruct (_ && _).
  - inv_bind H. injection H as <-.
    apply finalize_fields in Ha as (Hp & _ & _).
    unfold consumed. simpl.
    rewrite map_app, concat_app. simpl. rewrite Hp.
    now rewrite !app_nil_r.
  - destruct (currentPatientInfo st), c; injection H as <-; reflexivity.
Qed.

Lemma safety_consumed max st st' :
  safety toLowerCase max st = Ok st' -> consumed st' = consumed st.
Proof.
  unfold safety. intros H.
  destruct (_ >=? _)%Z.
  - inv_bind H. injection H as <-.
    apply finalize_fields in Ha as (Hp & _ & _).
    unfold consumed. simpl.
    rewrite map_app, concat_app. simpl. rewrite Hp.
    now rewrite !app_nil_r.
  - injection H as <-. reflexivity.
Qed.

Lemma step_consumed max st p st' :
  step toLowerCase max st p = Ok st' ->
  extractable p /\ consumed st' = consumed st ++ [p].
Proof.
  unfold step. intros H. inv_bind H. inv_bind H.
  split; [eexists; eassumption|].
  apply safety_consumed in H. rewrite H, consumed_push.
  now rewrite (boundary_consumed _ _ _ Ha0).
Qed.

Lemma scan_consumed max l : forall st st',
  foldM (step toLowerCase max) st l = Ok st' ->
  Forall extractable l /\ consumed st' = consumed st ++ l.
Proof.
  induction l as [|p l IH]; simpl; intros st st' H.
  - injection H as <-. split; [constructor | now rewrite app_nil_r].
  - inv_bind H. apply step_consumed in Ha as [Hp Hc].
    apply IH in H as [Hl H]. split; [now constructor|].
    rewrite H, Hc. now rewrite <- app_assoc.
Qed.

Lemma boundary_total st c :
  Forall extractable (current st) ->
  exists st', boundary toLowerCase st c = Ok st'
              /\ Forall extractable (current st').
Proof.
  intros Hc. unfold boundary.
  destruct (_ && _).
  - destruct (finalize_total (current st) (length (reports st)) Hc) as [r Hr].
    rewrite Hr. simpl. eexists; split; [reflexivity|]. simpl. constructor.
  - destruct (currentPatientInfo st), c; eexists; (split; [reflexivity|]); exact Hc.
Qed.

Lemma safety_total max st :
  Forall extractable (current st) ->
  exists st', safety toLowerCase max st = Ok st'.
Proof.
  intros Hc. unfold safety.
  destruct (_ >=? _)%Z; [|eauto].
  destruct (finalize_total (current st) (length (reports st)) Hc) as [r Hr].
  rewrite Hr. simpl. eauto.
Qed.

Lemma step_total max st p :
  Forall extractable (current st) -> extractable p ->
  exists st', step toLowerCase max st p = Ok st'.
Proof.
  intros Hc [c Hp]. unfold step. rewrite Hp. simpl.
  destruct (boundary_total st c Hc) as (st1 & H1 & Hc1).
  rewrite H1. simpl.
  apply safety_total. simpl. apply Forall_app. split; [exact Hc1|].
  constructor; [eexists; eassumption | constructor].
Qed.

Lemma consumed_current st :
  Forall extractable (consumed st) -> Forall extractable (current st).
Proof. unfold consumed. intros H. now apply Forall_app in H. Qed.

Lemma scan_total max l : forall st,
  Forall extractable (consumed st) -> Forall extractable l ->
  exists st', foldM (step toLowerCase max) st l = Ok st'.
Proof.
  induction l as [|p l IH]; simpl; intros st Hst Hl; [eauto|].
  apply Forall_cons in Hl as [Hp Hl].
  destruct (step_total max st p (consumed_current st Hst) Hp) as [st1 H1].
  rewrite H1. simpl. apply IH; [|exact Hl].
  apply step_consumed in H1 as [_ ->].
  apply Forall_app. split; [exact Hst|]. now constructor.
Qed.

(** *** The end of the scan and the post-pass *)

Lemma concat_nonEmpty rs :
  concat (List.map pages (List.filter nonEmpty rs)) = concat (List.map pages rs).
Proof.
  induction rs as [|r rs IH]; simpl; [reflexivity|].
  unfold nonEmpty at 1. destruct (bool_decide_reflect (pages r = [])) as [E|E]; simpl.
  - now rewrite E.
  - now rewrite IH.
Qed.

Lemma validate_Ok rs rs' :
  _validateReports toLowerCase rs = Ok rs' -> rs' = List.filter nonEmpty rs.
Proof.
  unfold _validateReports. fold nonEmpty.
  destruct (List.filter nonEmpty rs) as [|r0 rs0]; [discriminate|].
  intros H. inv_bind H. now injection H as <-.
Qed.

Lemma summary_total rs :
  Forall (fun r => extractable (default None (head (pages r)))) rs ->
  foldM (fun (_ : unit) r =>
           let* _ := extract (default None (head (pages r))) in Ok tt) tt rs
  = Ok tt.
Proof.
  induction 1 as [|r rs [c Hc] _ IH]; simpl; [reflexivity|].
  rewrite Hc. simpl. exact IH.
Qed.

Lemma first_page_extractable rs :
  Forall extractable (concat (List.map pages rs)) ->
  Forall (fun r => extractable (default None (head (pages r)))) rs.
Proof.
  induction rs as [|r rs IH]; simpl; intros H; [constructor|].
  apply Forall_app in H as [Hr H]. constructor; [|now apply IH].
  destruct (pages r) as [|p ps]; simpl.
  - exists None. reflexivity.
  - now apply Forall_cons in Hr as [Hp _].
Qed.

Lemma validate_total rs :
  Forall extractable (concat (List.map pages rs)) ->
  concat (List.map pages rs) <> [] ->
  _validateReports toLowerCase rs = Ok (List.filter nonEmpty rs).
Proof.
  intros He Hne. unfold _validateReports. fold nonEmpty.
  rewrite <- concat_nonEmpty in He, Hne.
  destruct (List.filter nonEmpty rs) as [|r0 rs0]; [now elim Hne|].
  rewrite summary_total; [reflexivity|].
  now apply first_page_extractable.
Qed.

(** The reports handed to the post-pass, and what they contain. *)
Lemma flush_Ok st rs :
  match current st with
  | [] => Ok (reports st)
  | _ => let* r := finalize (current st) (length (reports st)) in
         Ok (reports st ++ [r])
  end = Ok rs ->
  concat (List.map pages rs) = consumed st.
Proof.
  unfold consumed. destruct (current st) as [|p ps] eqn:E.
  - intros H. injection H as <-. now rewrite app_nil_r.
  - intros H. inv_bind H. injection H as <-.
    apply finalize_fields in Ha as (Hp & _ & _).
    rewrite map_app, concat_app. simpl. now rewrite Hp, app_nil_r.
Qed.

Lemma flush_total st :
  Forall extractable (current st) ->
  exists rs,
    match current st with
    | [] => Ok (reports st)
    | _ => let* r := finalize (current st) (length (reports st)) in
           Ok (reports st ++ [r])
    end = Ok rs.
Proof.
  intros Hc. destruct (current st) as [|p ps] eqn:E; [eauto|].
  destruct (finalize_total (p :: ps) (length (reports st)) Hc) as [r Hr].
  rewrite Hr. simpl. eauto.
Qed.

Lemma split_Ok max l rs :
  splitIntoPatientReports toLowerCase max (Some l) = Ok rs ->
  exists st rs0,
    foldM (step toLowerCase max) initial l = Ok st
    /\ match current st with
       | [] => Ok (reports st)
       | _ => let* r := finalize (current st) (length (reports st)) in
              Ok (reports st ++ [r])
       end = Ok rs0
    /\ rs = List.filter nonEmpty rs0
    /\ l <> [].
Proof.
  unfold splitIntoPatientReports. destruct l as [|p l]; [discriminate|].
  intros H. inv_bind H. inv_bind H. apply validate_Ok in H.
  exists a, a0. repeat split; try assumption. discriminate.
Qed.

Lemma split_total max l :
  l <> [] -> Forall extractable l ->
  exists rs, splitIntoPatientReports toLowerCase max (Some l) = Ok rs.
Proof.
  intros Hne Hl. unfold splitIntoPatientReports.
  destruct l as [|p l]; [now elim Hne|].
  destruct (scan_total max (p :: l) initial) as [st Hst]; [constructor | exact Hl |].
  rewrite Hst. simpl.
  pose proof (scan_consumed max _ _ _ Hst) as [_ Hc]. simpl in Hc.
  assert (Hall : Forall extractable (consumed st)) by now rewrite Hc.
  destruct (flush_total st (consumed_current st Hall)) as [rs0 H0].
  rewrite H0. simpl.
  apply flush_Ok in H0 as Hp.
  rewrite validate_total; [eauto | now rewrite Hp | rewrite Hp, Hc; discriminate].
Qed.

(** *** What the scan can throw *)

Lemma finalize_Err ps i e : finalize ps i = Err e -> e = TypeError.
Proof.
  unfold _finalizeReport.
  destruct (someM (yieldsIdentity toLowerCase) ps) as [b|e'] eqn:E; simpl;
    [discriminate|].
  intros [= <-]. revert E.
  induction ps as [|p ps IH]; simpl; [discriminate|].
  unfold yieldsIdentity at 1.
  destruct (extract p) as [c|e''] eqn:Ep; simpl.
  - destruct c; [discriminate | exact IH].
  - intros [= <-]. eapply extract_Err, Ep.
Qed.

Lemma step_Err max st p e : step toLowerCase max st p = Err e -> e = TypeError.
Proof.
  unfold step.
  destruct (extract p) as [c|e1] eqn:E1; simpl;
    [|intros [= <-]; eapply extract_Err, E1].
  destruct (boundary toLowerCase st c) as [st0|e2] eqn:E2; simpl.
  - unfold safety. destruct (_ >=? _)%Z; [|discriminate].
    destruct (finalize _ _) eqn:E3; simpl; [discriminate|].
    intros [= <-]. eapply finalize_Err, E3.
  - intros [= <-]. unfold boundary in E2.
    destruct (_ && _).
    + destruct (finalize _ _) eqn:E3; simpl in E2; [discriminate|].
      injection E2 as <-. eapply finalize_Err, E3.
    + destruct (currentPatientInfo st), c; discriminate.
Qed.

Lemma extractable_or_throws l :
  Forall extractable l \/ Exists (fun p => extract p = Err TypeError) l.
Proof.
  induction l as [|p l [IH|IH]].
  - left. constructor.
  - destruct (extract p) as [c|e] eqn:E.
    + left. constructor; [now exists c | exact IH].
    + right. left. now rewrite (extract_Err _ _ _ E) in E.
  - right. now right.
Qed.

(** The exceptions of [splitIntoPatientReports]: the input error for a
    missing or empty page array, and otherwise only a [TypeError] that the
    identity extraction of some page throws.  "No valid reports" is never
    thrown. *)
Lemma split_Err max input e :
  splitIntoPatientReports toLowerCase max input = Err e ->
  match input with
  | None | Some [] => e = NoPageData
  | Some l => e = TypeError /\ Exists (fun p => extract p = Err TypeError) l
  end.
Proof.
  destruct input as [[|p l]|]; [cbn; congruence | | cbn; congruence].
  unfold splitIntoPatientReports. intros H. split.
  - destruct (foldM (step toLowerCase max) initial (p :: l)) as [st|e1] eqn:E1;
      [|cbn [bind] in H; injection H as <-; revert E1; apply foldM_Err; apply step_Err].
    cbn [bind] in H.
    match type of H with
    | bind ?flush _ = _ => destruct flush as [rs|e2] eqn:E2
    end; simpl in H.
    + apply flush_Ok in E2 as Hp.
      apply scan_consumed in E1 as [Hl Hc]. simpl in Hc.
      rewrite validate_total in H; [discriminate | rewrite Hp, Hc; exact Hl
                                   | rewrite Hp, Hc; discriminate].
    + injection H as <-. destruct (current st); [discriminate|].
      destruct (finalize _ _) eqn:E3; simpl in E2; [discriminate|].
      injection E2 as <-. eapply finalize_Err, E3.
  - destruct (extractable_or_throws (p :: l)) as [Hl|Hl]; [|exact Hl].
    destruct (split_total max (p :: l)) as [rs Hrs]; [discriminate | exact Hl |].
    unfold splitIntoPatientReports in Hrs. congruence.
Qed.

(** On pages whose table cells are strings or falsy, an exception is thrown
    exactly for the missing or empty page array, and a non-empty array gives
    at least one report. *)
Lemma split_stringCells max input :
  (forall l, input = Some l -> Forall stringCells l) ->
  match splitIntoPatientReports toLowerCase max input with
  | Ok rs => rs <> [] /\ input <> None /\ input <> Some []
  | Err e => e = NoPageData /\ (input = None \/ input = Some [])
  end.
Proof.
  intros Hcells.
  destruct (splitIntoPatientReports toLowerCase max input) as [rs|e] eqn:E.
  - destruct input as [[|p l]|]; try discriminate.
    repeat split; try discriminate.
    apply split_Ok in E as (st & rs0 & Hscan & Hflush & -> & _).
    intros Hnil.
    pose proof (concat_nonEmpty rs0) as Hc. rewrite Hnil in Hc. simpl in Hc.
    rewrite (flush_Ok _ _ Hflush) in Hc.
    apply scan_consumed in Hscan as [_ Hs]. simpl in Hs. congruence.
  - apply split_Err in E.
    destruct input as [[|p l]|]; auto.
    destruct E as [_ Hex]. exfalso.
    specialize (Hcells _ eq_refl).
    apply Exists_exists in Hex as (q & Hin & Hq).
    eapply Forall_forall in Hcells; [|exact Hin].
    apply (stringCells_extractable toLowerCase) in Hcells as [c Hc]. congruence.
Qed.

(** C1. Partition property: for a non-empty page sequence, the pages of the
    returned reports, concatenated in the order of the reports, are the
    input sequence itself; and reports are returned whenever no page makes
    the identity extraction throw. *)
Theorem partition_property max (l : list Page) :
  l <> [] ->
  (Forall extractable l ->
   exists rs, splitIntoPatientReports toLowerCase max (Some l) = Ok rs)
  /\ (forall rs,
        splitIntoPatientReports toLowerCase max (Some l) = Ok rs ->
        concat (List.map pages rs) = l).
Proof.
  intros Hne. split; [now apply split_total|].
  intros rs H. apply split_Ok in H as (st & rs0 & Hscan & Hflush & -> & _).
  rewrite concat_nonEmpty, (flush_Ok _ _ Hflush).
  now apply scan_consumed in Hscan as [_ ->].
Qed.

(** *** Sizes of the reports *)

Lemma finalize_bounded max ps i r :
  ps <> [] -> (Z.of_nat (length ps) <= max)%Z ->
  finalize ps i = Ok r -> bounded max r.
Proof.
  intros Hne Hle H. apply finalize_fields in H as (Hp & Hc & _).
  unfold bounded. rewrite Hc, Hp. split; [|reflexivity].
  destruct ps; [now elim Hne | simpl in *; lia].
Qed.

Lemma boundary_withinCap max st c st' :
  (0 < max)%Z -> withinCap max st ->
  boundary toLowerCase st c = Ok st' -> withinCap max st'.
Proof.
  intros Hmax [Hr Hc]. unfold boundary.
  destruct (_isDifferentPatient _ _); simpl.
  - destruct (bool_decide_reflect (current st = [])) as [E|E]; simpl.
    + destruct (currentPatientInfo st), c; intros H; injection H as <-;
        now split.
    + intros H. inv_bind H. injection H as <-. split; simpl; [|lia].
      apply Forall_app. split; [exact Hr|]. constructor; [|constructor].
      eapply finalize_bounded; [exact E | | exact Ha]. lia.
  - destruct (currentPatientInfo st), c; intros H; injection H as <-;
      now split.
Qed.

Lemma safety_withinCap max st st' :
  (0 < max)%Z ->
  Forall (bounded max) (reports st) -> current st <> [] ->
  (Z.of_nat (length (current st)) <= max)%Z ->
  safety toLowerCase max st = Ok st' -> withinCap max st'.
Proof.
  intros Hmax Hr Hne Hle. unfold safety.
  destruct (Z.geb_spec (Z.of_nat (length (current st))) max) as [G|G].
  - intros H. inv_bind H. injection H as <-. split; simpl; [|lia].
    apply Forall_app. split; [exact Hr|]. constructor; [|constructor].
    eapply finalize_bounded; eassumption.
  - intros H. injection H as <-. now split.
Qed.

Lemma step_withinCap max st p st' :
  (0 < max)%Z -> withinCap max st ->
  step toLowerCase max st p = Ok st' -> withinCap max st'.
Proof.
  intros Hmax Hst H. unfold step in H. inv_bind H. inv_bind H.
  apply (boundary_withinCap max _ _ _ Hmax Hst) in Ha0 as [Hr Hc].
  apply safety_withinCap in H; [exact H | exact Hmax | exact Hr | |]; simpl.
  - now destruct (current a0).
  - rewrite length_app. simpl. lia.
Qed.

Lemma scan_withinCap max l : forall st st',
  (0 < max)%Z -> withinCap max st ->
  foldM (step toLowerCase max) st l = Ok st' -> withinCap max st'.
Proof.
  induction l as [|p l IH]; simpl; intros st st' Hmax Hst H.
  - now injection H as <-.
  - inv_bind H. eapply IH; [exact Hmax | | exact H].
    eapply step_withinCap; eassumption.
Qed.

Lemma Forall_filter_bool {A} (P : A -> Prop) (f : A -> bool) (l : list A) :
  Forall P l -> Forall P (List.filter f l).
Proof.
  induction 1 as [|x l Hx _ IH]; simpl; [constructor|].
  destruct (f x); [now constructor | exact IH].
Qed.

(** C2. Bounded group size: for a non-empty page sequence and a positive
    [maxPagesPerPatient], every returned report has between one and
    [maxPagesPerPatient] pages and its [pageCount] is the length of its
    page list; and reports are returned whenever no page makes the identity
    extraction throw. *)
Theorem bounded_group_size max (l : list Page) :
  l <> [] -> (0 < max)%Z ->
  (Forall extractable l ->
   exists rs, splitIntoPatientReports toLowerCase max (Some l) = Ok rs)
  /\ (forall rs,
        splitIntoPatientReports toLowerCase max (Some l) = Ok rs ->
        Forall (bounded max) rs).
Proof.
  intros Hne Hmax. split; [now apply split_total|].
  intros rs H. apply split_Ok in H as (st & rs0 & Hscan & Hflush & -> & _).
  apply Forall_filter_bool.
  apply scan_withinCap in Hscan as [Hr Hc]; [ | exact Hmax | split; [constructor | simpl; lia]].
  destruct (current st) as [|p ps] eqn:E.
  - now injection Hflush as <-.
  - inv_bind Hflush. injection Hflush as <-.
    apply Forall_app. split; [exact Hr|]. constructor; [|constructor].
    eapply finalize_bounded; [ | | exact Ha]; [discriminate | lia].
Qed.

(** *** Pages without identity at the start of the document *)

Lemma foldM_app {A B} (f : A -> B -> result A) (l1 l2 : list B) : forall a,
  foldM f a (l1 ++ l2) = let* a' := foldM f a l1 in foldM f a' l2.
Proof.
  induction l1 as [|x l1 IH]; simpl; intros a; [reflexivity|].
  destruct (f a x); simpl; [apply IH | reflexivity].
Qed.

Lemma scan_silent max rs pre : forall cur,
  Forall silent pre ->
  (Z.of_nat (length cur + length pre) < max)%Z ->
  foldM (step toLowerCase max)
        {| reports := rs; current := cur; currentPatientInfo := None |} pre
  = Ok {| reports := rs; current := cur ++ pre; currentPatientInfo := None |}.
Proof.
  induction pre as [|p pre IH]; simpl; intros cur Hs Hlt.
  - now rewrite app_nil_r.
  - apply Forall_cons in Hs as [Hp Hs].
    unfold step at 1. rewrite Hp. simpl.
    unfold safety, push. simpl.
    destruct (Z.geb_spec (Z.of_nat (length (cur ++ [p]))) max) as [G|G].
    + rewrite length_app in G. simpl in G. lia.
    + simpl. rewrite IH; [ | exact Hs | rewrite length_app; simpl; lia].
      now rewrite <- app_assoc.
Qed.

Lemma emit_headed before q st r cur' a :
  headed before q st ->
  finalize (current st) (length (reports st)) = Ok r ->
  headed before q {| reports := reports st ++ [r]; current := cur';
                     currentPatientInfo := a |}.
Proof.
  intros (after & Hr & Hq) H. apply finalize_fields in H as (Hp & _ & _).
  exists (after ++ [r]). simpl. split; [now rewrite Hr, app_assoc|].
  destruct after as [|g after]; simpl; [|exact Hq].
  destruct Hq as [t Ht]. exists t. now rewrite Hp.
Qed.

Lemma boundary_headed before q st c st' :
  headed before q st -> boundary toLowerCase st c = Ok st' ->
  headed before q st'
  /\ (current st' = current st \/ exists g, reports st' = reports st ++ [g]).
Proof.
  intros Hh. unfold boundary. destruct (_ && _).
  - intros H. inv_bind H. injection H as <-. split.
    + now apply emit_headed.
    + right. simpl. eauto.
  - destruct (currentPatientInfo st), c; intros H; injection H as <-;
      (split; [exact Hh | now left]).
Qed.

Lemma push_headed before q st p :
  headed before q st -> headed before q (push st p).
Proof.
  intros (after & Hr & Hq). exists after. simpl. split; [exact Hr|].
  destruct after; [|exact Hq].
  destruct Hq as [t ->]. now exists (t ++ [p]).
Qed.

Lemma safety_headed max before q st st' :
  headed before q st -> safety toLowerCase max st = Ok st' ->
  headed before q st'.
Proof.
  intros Hh. unfold safety. destruct (_ >=? _)%Z.
  - intros H. inv_bind H. injection H as <-. now apply emit_headed.
  - intros H. now injection H as <-.
Qed.

Lemma step_headed max before q st p st' :
  headed before q st -> step toLowerCase max st p = Ok st' ->
  headed before q st'.
Proof.
  intros Hh H. unfold step in H. inv_bind H. inv_bind H.
  eapply safety_headed; [|exact H].
  apply push_headed. now apply (boundary_headed _ _ _ _ _ Hh) in Ha0 as [? _].
Qed.

Lemma scan_headed max before q l : forall st st',
  headed before q st -> foldM (step toLowerCase max) st l = Ok st' ->
  headed before q st'.
Proof.
  induction l as [|p l IH]; simpl; intros st st' Hh H.
  - now injection H as <-.
  - inv_bind H. eapply IH; [|exact H]. eapply step_headed; eassumption.
Qed.

Lemma flush_headed before q st rs :
  headed before q st ->
  match current st with
  | [] => Ok (reports st)
  | _ => let* r := finalize (current st) (length (reports st)) in
         Ok (reports st ++ [r])
  end = Ok rs ->
  exists g after t, rs = before ++ g :: after /\ pages g = q :: t.
Proof.
  intros Hh H. destruct (current st) as [|p ps] eqn:E.
  - injection H as <-. destruct Hh as (after & Hr & Hq).
    destruct after as [|g after]; [destruct Hq as [t Ht]; congruence|].
    destruct Hq as [t Ht]. eauto.
  - inv_bind H. injection H as <-. rewrite <- E in Ha.
    destruct (emit_headed before q st a [] None Hh Ha) as (after & Hr & Hq).
    simpl in Hr, Hq. rewrite Hr.
    destruct after as [|g after]; [destruct Hq; discriminate|].
    destruct Hq as [t Ht]. eauto.
Qed.

(** The scan of a silent prefix followed by the first page with an
    identity. *)
Lemma scan_silent_then_identity max pre q c :
  Forall silent pre -> pre <> [] ->
  (Z.of_nat (length pre) < max)%Z ->
  extract q = Ok (Some c) ->
  exists g0,
    foldM (step toLowerCase max) initial (pre ++ [q])
    = Ok {| reports := [g0]; current := [q]; currentPatientInfo := Some c |}
    /\ pages g0 = pre /\ pageCount g0 = length pre
    /\ reportIndex g0 = 0%nat /\ hasPatientData g0 = false.
Proof.
  intros Hs Hne Hlt Hq.
  rewrite foldM_app. unfold initial.
  rewrite scan_silent; [ | exact Hs | simpl; lia]. simpl.
  unfold step. rewrite Hq. simpl.
  unfold boundary. simpl.
  destruct (bool_decide_reflect (pre = [])) as [E|_]; [now elim Hne|]. simpl.
  unfold _finalizeReport at 1. rewrite (someM_silent pre Hs). simpl.
  unfold safety, push. simpl.
  destruct (Z.geb_spec (Z.of_nat 1) max) as [G|G].
  - destruct pre; [now elim Hne | simpl in Hlt; lia].
  - eexists. split; [reflexivity|]. simpl. auto.
Qed.

(** C10. Leading identity-less pages form their own group: when the first
    [k] pages, [1 <= k < maxPagesPerPatient], yield no identity candidate
    and the page that follows them yields one, the first report returned is
    exactly those [k] pages, with [hasPatientData] false, and the second
    report begins with the identity-bearing page; reports are returned
    whenever no later page makes the identity extraction throw. *)
Theorem leading_silent_pages_form_a_group max pre q post c :
  Forall silent pre -> (1 <= length pre)%nat ->
  (Z.of_nat (length pre) < max)%Z ->
  extract q = Ok (Some c) ->
  (Forall extractable post ->
   exists rs,
     splitIntoPatientReports toLowerCase max (Some (pre ++ q :: post)) = Ok rs)
  /\ (forall rs,
        splitIntoPatientReports toLowerCase max (Some (pre ++ q :: post)) = Ok rs ->
        exists g0 g1 rest t,
          rs = g0 :: g1 :: rest
          /\ pages g0 = pre /\ pageCount g0 = length pre
          /\ reportIndex g0 = 0%nat /\ hasPatientData g0 = false
          /\ pages g1 = q :: t).
Proof.
  intros Hs Hk Hlt Hq.
  assert (Hne : pre <> []) by (destruct pre; [simpl in Hk; lia | discriminate]).
  split.
  - intros Hpost. apply split_total; [now destruct pre|].
    apply Forall_app. split.
    + eapply Forall_impl; [exact Hs|]. intros p Hp. now exists None.
    + constructor; [now exists (Some c) | exact Hpost].
  - intros rs H. apply split_Ok in H as (st & rs0 & Hscan & Hflush & -> & _).
    replace (pre ++ q :: post) with ((pre ++ [q]) ++ post) in Hscan
      by now rewrite <- app_assoc.
    rewrite foldM_app in Hscan.
    destruct (scan_silent_then_identity max pre q c Hs Hne Hlt Hq)
      as (g0 & Hpre & Hp0 & Hc0 & Hi0 & Hd0).
    rewrite Hpre in Hscan. simpl in Hscan.
    eapply (scan_headed max [g0] q) in Hscan;
      [ | exists []; simpl; split; [reflexivity | now exists []]].
    destruct (flush_headed [g0] q st rs0 Hscan Hflush) as (g1 & after & t & -> & Hp1).
    exists g0, g1, (List.filter nonEmpty after), t. simpl.
    unfold nonEmpty at 1 2. rewrite Hp0, Hp1.
    destruct (bool_decide_reflect (pre = [])) as [E|_]; [now elim Hne|].
    simpl. auto 10.
Qed.

(** *** The safety cap *)

(** The iteration that reaches the cap: when the report being accumulated
    reaches [maxPagesPerPatient] with the page [p], the iteration emits that
    report at once and leaves an empty accumulator and no anchor; a next
    page [q] with an identity [c'] then starts a report of its own. *)
Lemma step_at_cap max st p c st0 st1 :
  extract p = Ok c ->
  boundary toLowerCase st c = Ok st0 ->
  (max <= Z.of_nat (length (current st0 ++ [p])))%Z ->
  step toLowerCase max st p = Ok st1 ->
  (exists r, reports st1 = reports st0 ++ [r] /\ pages r = current st0 ++ [p])
  /\ current st1 = []
  /\ currentPatientInfo st1 = None
  /\ (forall q c',
        extract q = Ok (Some c') ->
        boundary toLowerCase st1 (Some c')
        = Ok {| reports := reports st1; current := [];
                currentPatientInfo := Some c' |}
        /\ ((1 < max)%Z ->
            step toLowerCase max st1 q
            = Ok {| reports := reports st1; current := [q];
                    currentPatientInfo := Some c' |})
        /\ ((max <= 1)%Z ->
            exists r',
              step toLowerCase max st1 q
              = Ok {| reports := reports st1 ++ [r']; current := [];
                      currentPatientInfo := None |}
              /\ pages r' = [q])).
Proof.
  intros Hp Hb Hcap H.
  unfold step in H. rewrite Hp in H. simpl in H. rewrite Hb in H. simpl in H.
  unfold safety in H. simpl in H.
  destruct (Z.geb_spec (Z.of_nat (length (current st0 ++ [p]))) max) as [G|G]; [|lia].
  inv_bind H. injection H as <-. simpl.
  apply finalize_fields in Ha as (Hpg & _ & _).
  split; [eauto|]. split; [reflexivity|]. split; [reflexivity|].
  intros q c' Hq.
  assert (Hbq : boundary toLowerCase
            {| reports := reports st0 ++ [a]; current := [];
               currentPatientInfo := None |} (Some c')
          = Ok {| reports := reports st0 ++ [a]; current := [];
                  currentPatientInfo := Some c' |}) by reflexivity.
  split; [exact Hbq|].
  unfold step. rewrite Hq. cbn [bind]. rewrite Hbq. cbn [bind].
  unfold safety, push. simpl.
  destruct (Z.geb_spec (Z.of_nat 1) max) as [G1|G1]; split; intros Hm; try lia.
  - unfold _finalizeReport. simpl. unfold yieldsIdentity at 1. rewrite Hq. simpl.
    eexists. split; reflexivity.
  - reflexivity.
Qed.

End Engine.

Import DocumentSplitter.

(** ** Concrete runs *)

(** The documented example: ten pages of four patients give four reports of
    3, 2, 3 and 2 pages. *)
Example ten_pages_four_reports :
  match splitIntoPatientReports asciiToLowerCase 10 (Some tenPages) with
  | Ok rs => List.map pageCount rs = [3; 2; 3; 2]%nat
  | Err _ => False
  end.
Proof. vm_compute. reflexivity. Qed.

(** Three pages of one patient under a cap of two pages: the third page is
    a report of its own. *)
Example same_patient_after_forced_split :
  match splitIntoPatientReports asciiToLowerCase 2
          (Some [patientPage 0 "AAA1"; patientPage 1 "AAA1"; patientPage 2 "AAA1"]) with
  | Ok rs => List.map pages rs
             = [[patientPage 0 "AAA1"; patientPage 1 "AAA1"]; [patientPage 2 "AAA1"]]
  | Err _ => False
  end.
Proof. vm_compute. reflexivity. Qed.

(** C5. The candidate of the document splitter is not validated: a purely
    numeric name is surfaced as it is, and an identifier made of punctuation
    is surfaced as the empty string; the normaliser of the metadata
    extractor rejects both values. *)
Theorem splitter_candidate_not_validated :
  _extractPatientInfo asciiToLowerCase numericNamePage = Ok (Some numericNameInfo)
  /\ name numericNameInfo = Some (js "12345")
  /\ allDigits (js "12345") = true
  /\ _extractPatientInfo asciiToLowerCase emptyIdPage = Ok (Some emptyIdInfo)
  /\ patientId emptyIdInfo = Some []
  /\ MetadataExtractor._cleanValue (VString (js "12345")) MetadataExtractor.Name = None
  /\ MetadataExtractor._cleanValue (VString (js "!!!")) MetadataExtractor.PatientId = None.
Proof. vm_compute. auto 10. Qed.

(** C6. A non-empty page array whose table has a number after a label cell
    makes [splitIntoPatientReports] throw a [TypeError]. *)
Theorem split_throws_on_number_cell :
  splitIntoPatientReports asciiToLowerCase 10 (Some [numberCellPage])
  = Err TypeError.
Proof. vm_compute. reflexivity. Qed.

(** C3 as stated fails: the two candidates below, extracted from two pages,
    have patient identifiers that are both non-null and differ, and yet the
    second is not judged a different patient, the empty identifier being
    skipped and the equal names deciding. *)
Lemma nonnull_identifiers_do_not_decide :
  _extractPatientInfo asciiToLowerCase emptyIdPage = Ok (Some emptyIdInfo)
  /\ _extractPatientInfo asciiToLowerCase properIdPage = Ok (Some properIdInfo)
  /\ patientId emptyIdInfo <> None
  /\ patientId properIdInfo <> None
  /\ patientId emptyIdInfo <> patientId properIdInfo
  /\ name emptyIdInfo = name properIdInfo
  /\ _isDifferentPatient (Some emptyIdInfo) (Some properIdInfo) = false.
Proof. vm_compute. repeat split; congruence. Qed.

Lemma isDifferentPatient_precedence_witness :
  _isDifferentPatient (Some emptyIdInfo) (Some properIdInfo) = true
  <-> name emptyIdInfo <> name properIdInfo.
Proof.
  pose proof (isDifferentPatient_precedence (Some emptyIdInfo) (Some properIdInfo))
    as (_ & _ & H).
  specialize (H emptyIdInfo properIdInfo eq_refl eq_refl).
  cbv zeta in H. destruct H as (_ & H & _).
  exact (H eq_refl eq_refl).
Defined.

Lemma cleanValue_contract_witness :
  MetadataExtractor._cleanValue (VString (js " 12 ")) MetadataExtractor.Name = None.
Proof.
  pose proof (cleanValue_contract (js " 12 ")) as H.
  cbv zeta in H. destruct H as (_ & _ & H & _).
  apply H. right. reflexivity.
Defined.

Lemma no_candidate_without_name_and_id_witness :
  resolveFields asciiToLowerCase dobOnlyData = Ok dobOnlyInfo
  /\ isSet (dob dobOnlyInfo) = true
  /\ _extractPatientInfo asciiToLowerCase (Some dobOnlyData) = Ok None.
Proof.
  split; [vm_compute; reflexivity|]. split; [reflexivity|].
  apply (no_candidate_without_name_and_id asciiToLowerCase dobOnlyData dobOnlyInfo).
  - vm_compute. reflexivity.
  - reflexivity.
  - reflexivity.
Defined.

Lemma partition_property_witness :
  (Forall (extractable asciiToLowerCase) tenPages ->
   exists rs, splitIntoPatientReports asciiToLowerCase 10 (Some tenPages) = Ok rs)
  /\ (forall rs,
        splitIntoPatientReports asciiToLowerCase 10 (Some tenPages) = Ok rs ->
        concat (List.map pages rs) = tenPages).
Proof.
  apply (partition_property asciiToLowerCase 10 tenPages). discriminate.
Defined.

Lemma bounded_group_size_witness :
  (Forall (extractable asciiToLowerCase) tenPages ->
   exists rs, splitIntoPatientReports asciiToLowerCase 2 (Some tenPages) = Ok rs)
  /\ (forall rs,
        splitIntoPatientReports asciiToLowerCase 2 (Some tenPages) = Ok rs ->
        Forall (bounded 2) rs).
Proof.
  apply (bounded_group_size asciiToLowerCase 2 tenPages).
  - discriminate.
  - reflexivity.
Defined.

Lemma leading_silent_pages_form_a_group_witness :
  (Forall (extractable asciiToLowerCase) [patientPage 3 "AAA1"] ->
   exists rs,
     splitIntoPatientReports asciiToLowerCase 10
       (Some ([blankPage 0; blankPage 1] ++ patientPage 2 "AAA1" :: [patientPage 3 "AAA1"]))
     = Ok rs)
  /\ (forall rs,
        splitIntoPatientReports asciiToLowerCase 10
          (Some ([blankPage 0; blankPage 1] ++ patientPage 2 "AAA1" :: [patientPage 3 "AAA1"]))
        = Ok rs ->
        exists g0 g1 rest t,
          rs = g0 :: g1 :: rest
          /\ pages g0 = [blankPage 0; blankPage 1]
          /\ pageCount g0 = length [blankPage 0; blankPage 1]
          /\ reportIndex g0 = 0%nat /\ hasPatientData g0 = false
          /\ pages g1 = patientPage 2 "AAA1" :: t).
Proof.
  apply (leading_silent_pages_form_a_group asciiToLowerCase 10
           [blankPage 0; blankPage 1] (patientPage 2 "AAA1")
           [patientPage 3 "AAA1"] (patientInfo "AAA1")).
  - repeat constructor; vm_compute; reflexivity.
  - simpl. repeat constructor.
  - reflexivity.
  - vm_compute. reflexivity.
Defined.

(** * Further properties of the scan *)

Section Reports.

Variable toLowerCase : jsstring -> jsstring.

Abbreviation extract := (_extractPatientInfo toLowerCase).
Abbreviation finalize := (_finalizeReport toLowerCase).
Abbreviation grows := (grows toLowerCase).

(** *** How the list of reports grows *)

Lemma grows_trans rs1 rs2 rs3 : grows rs1 rs2 -> grows rs2 rs3 -> grows rs1 rs3.
Proof.
  intros H12 H23. induction H23 as [|rs2 rs3 ps r _ IH Hne Hr]; [exact H12|].
  eapply grows_emit; eauto.
Qed.

Lemma grows_one rs ps r :
  ps <> [] -> finalize ps (length rs) = Ok r -> grows rs (rs ++ [r]).
Proof. intros. eapply grows_emit; eauto. apply grows_refl. Qed.

Lemma boundary_grows st c st' :
  boundary toLowerCase st c = Ok st' -> grows (reports st) (reports st').
Proof.
  unfold boundary. destruct (_isDifferentPatient _ _); simpl.
  - destruct (bool_decide_reflect (current st = [])) as [E|E]; simpl.
    + destruct (currentPatientInfo st), c; intros [= <-]; apply grows_refl.
    + intros H. inv_bind H. injection H as <-. simpl.
      now apply (grows_one _ (current st)).
  - destruct (currentPatientInfo st), c; intros [= <-]; apply grows_refl.
Qed.

Lemma safety_grows max st st' :
  current st <> [] ->
  safety toLowerCase max st = Ok st' -> grows (reports st) (reports st').
Proof.
  intros Hne. unfold safety. destruct (_ >=? _)%Z.
  - intros H. inv_bind H. injection H as <-. simpl.
    now apply (grows_one _ (current st)).
  - intros [= <-]. apply grows_refl.
Qed.

Lemma step_grows max st p st' :
  step toLowerCase max st p = Ok st' -> grows (reports st) (reports st').
Proof.
  unfold step. intros H. inv_bind H. inv_bind H.
  eapply grows_trans; [eapply boundary_grows; eassumption|].
  apply safety_grows in H; [exact H|].
  simpl. now destruct (current a0).
Qed.

Lemma scan_grows max l : forall st st',
  foldM (step toLowerCase max) st l = Ok st' -> grows (reports st) (reports st').
Proof.
  induction l as [|p l IH]; simpl; intros st st' H.
  - injection H as <-. apply grows_refl.
  - inv_bind H. eapply grows_trans; [eapply step_grows; eassumption|].
    now apply IH.
Qed.

Lemma grows_nonEmpty rs rs' :
  grows rs rs' -> Forall (fun r => pages r <> []) rs ->
  Forall (fun r => pages r <> []) rs'.
Proof.
  induction 1 as [|rs rs' ps r _ IH Hne Hr]; intros H0; [exact H0|].
  apply Forall_app. split; [now apply IH|].
  constructor; [|constructor].
  apply finalize_fields in Hr as (-> & _ & _). exact Hne.
Qed.

Lemma filter_nonEmpty_id rs :
  Forall (fun r => pages r <> []) rs -> List.filter nonEmpty rs = rs.
Proof.
  induction 1 as [|r rs Hr _ IH]; simpl; [reflexivity|].
  unfold nonEmpty at 1.
  destruct (bool_decide_reflect (pages r = [])) as [E|_]; [now elim Hr|].
  simpl. now rewrite IH.
Qed.

(** What a successful run returns: reports finalised one after the other
    from non-empty page lists that together are the input. *)
Lemma split_grows max l rs :
  splitIntoPatientReports toLowerCase max (Some l) = Ok rs ->
  grows [] rs /\ concat (List.map pages rs) = l /\ l <> [].
Proof.
  intros H. apply split_Ok in H as (st & rs0 & Hscan & Hflush & -> & Hne).
  assert (Hg : grows [] rs0).
  { apply scan_grows in Hscan as Hg. simpl in Hg.
    destruct (current st) as [|p ps] eqn:E.
    - now injection Hflush as <-.
    - inv_bind Hflush. injection Hflush as <-.
      eapply grows_emit; [exact Hg | | exact Ha]. discriminate. }
  rewrite filter_nonEmpty_id by (eapply grows_nonEmpty; [exact Hg | constructor]).
  repeat split; try assumption.
  rewrite (flush_Ok _ _ _ Hflush).
  now apply scan_consumed in Hscan as [_ ->].
Qed.

Lemma grows_numbered rs rs' :
  grows rs rs' ->
  (forall i r, rs !! i = Some r -> reportIndex r = i) ->
  forall i r, rs' !! i = Some r -> reportIndex r = i.
Proof.
  induction 1 as [|rs rs' ps r0 _ IH Hne Hr]; intros H0 i r Hi; [now apply H0|].
  apply lookup_app_Some in Hi as [Hi | [Hlen Hi]]; [now apply IH|].
  apply list_lookup_singleton_Some in Hi as [Hz <-].
  apply finalize_fields in Hr as (_ & _ & ->). lia.
Qed.

(** X1. The reports returned are numbered by their position: the report at
    position [i] of the result has [reportIndex] [i]. *)
Theorem reports_numbered max l rs i r :
  splitIntoPatientReports toLowerCase max (Some l) = Ok rs ->
  rs !! i = Some r ->
  reportIndex r = i.
Proof.
  intros H Hi. apply split_grows in H as (Hg & _ & _).
  eapply grows_numbered; [exact Hg | | exact Hi].
  intros j r' Hj. now rewrite lookup_nil in Hj.
Qed.

Lemma someM_yields_true ps :
  someM (yieldsIdentity toLowerCase) ps = Ok true ->
  exists p c, In p ps /\ extract p = Ok (Some c).
Proof.
  induction ps as [|p ps IH]; simpl; [discriminate|].
  unfold yieldsIdentity at 1.
  destruct (extract p) as [[c|]|e] eqn:E; simpl; [ | | discriminate].
  - intros _. exists p, c. auto.
  - intros H. destruct (IH H) as (q & c & Hq & Hc). exists q, c. auto.
Qed.

Lemma someM_yields_false ps :
  someM (yieldsIdentity toLowerCase) ps = Ok false ->
  Forall (silent toLowerCase) ps.
Proof.
  induction ps as [|p ps IH]; simpl; [constructor|].
  unfold yieldsIdentity at 1.
  destruct (extract p) as [[c|]|e] eqn:E; simpl; try discriminate.
  intros H. constructor; [exact E | now apply IH].
Qed.

Lemma finalize_hasPatientData ps i r :
  finalize ps i = Ok r ->
  hasPatientData r = true <-> exists p c, In p ps /\ extract p = Ok (Some c).
Proof.
  unfold _finalizeReport. intros H. inv_bind H. injection H as <-. simpl.
  destruct a.
  - split; [intros _; now apply someM_yields_true | reflexivity].
  - split; [discriminate|]. intros (p & c & Hin & Hc).
    apply someM_yields_false in Ha.
    eapply Forall_forall in Ha; [|apply list_elem_of_In, Hin].
    unfold silent in Ha. congruence.
Qed.

Lemma grows_Forall (P : Report -> Prop) rs rs' :
  (forall ps i r, ps <> [] -> finalize ps i = Ok r -> P r) ->
  grows rs rs' -> Forall P rs -> Forall P rs'.
Proof.
  intros HP. induction 1 as [|rs rs' ps r _ IH Hne Hr]; intros H0; [exact H0|].
  apply Forall_app. split; [now apply IH|].
  constructor; [|constructor]. eapply HP; eassumption.
Qed.

(** X2. The flag [hasPatientData] of a returned report is true exactly when
    one of its pages yields an identity candidate. *)
Theorem hasPatientData_iff max l rs r :
  splitIntoPatientReports toLowerCase max (Some l) = Ok rs ->
  In r rs ->
  hasPatientData r = true
  <-> exists p c, In p (pages r) /\ extract p = Ok (Some c).
Proof.
  intros H Hr. apply split_grows in H as (Hg & _ & _).
  eapply (grows_Forall
            (fun r => hasPatientData r = true
                      <-> exists p c, In p (pages r) /\ extract p = Ok (Some c)))
    in Hg; [ | | constructor].
  - eapply Forall_forall in Hg; [exact Hg | now apply list_elem_of_In].
  - intros ps i r' _ Hf.
    pose proof (finalize_fields _ _ _ _ Hf) as (-> & _ & _).
    eapply finalize_hasPatientData, Hf.
Qed.

(** *** Page index ranges *)

Lemma finalize_range ps i r :
  finalize ps i = Ok r ->
  firstPageIndex r = indexOr0 (head ps) /\ lastPageIndex r = indexOr0 (last ps).
Proof.
  unfold _finalizeReport. intros H. inv_bind H. injection H as <-. auto.
Qed.

Lemma sorted_head_last (zs : list Z) x y :
  StronglySorted Z.lt zs -> head zs = Some x -> last zs = Some y -> (x <= y)%Z.
Proof.
  intros Hs Hx Hy. destruct zs as [|z zs]; [discriminate|].
  injection Hx as ->. apply StronglySorted_inv in Hs as [_ Hall].
  destruct zs as [|z' zs]; [injection Hy as ->; lia|].
  rewrite last_cons_cons in Hy.
  apply last_Some_elem_of in Hy.
  eapply Forall_forall in Hall; [|exact Hy]. lia.
Qed.

Lemma ranges_ordered rs : forall pds : list PageData,
  concat (List.map pages rs) = List.map Some pds ->
  Forall (fun r => pages r <> []
                   /\ firstPageIndex r = indexOr0 (head (pages r))
                   /\ lastPageIndex r = indexOr0 (last (pages r))) rs ->
  StronglySorted Z.lt (List.map index pds) ->
  Forall (fun r => (firstPageIndex r <= lastPageIndex r)%Z) rs
  /\ StronglySorted (fun r1 r2 => (lastPageIndex r1 < firstPageIndex r2)%Z) rs.
Proof.
  induction rs as [|r rs IH]; intros pds Hc Hr Hs; [split; constructor|].
  simpl in Hc. symmetry in Hc.
  apply map_eq_app in Hc as (seg & rest & -> & Hseg & Hrest).
  apply Forall_cons in Hr as [(Hne & Hf & Hl) Hr].
  rewrite map_app in Hs. apply StronglySorted_app in Hs as (Hlt & Hs1 & Hs2).
  destruct (IH rest (eq_sym Hrest) Hr Hs2) as [IH1 IH2].
  assert (Hlast : exists pl, last seg = Some pl /\ lastPageIndex r = index pl).
  { destruct (last seg) as [pl|] eqn:E.
    - exists pl. split; [reflexivity|].
      rewrite Hl, <- Hseg.
      apply last_Some in E as [seg' ->].
      rewrite map_app. simpl. now rewrite last_snoc.
    - apply last_None in E. subst seg. simpl in Hseg. now elim Hne. }
  destruct Hlast as (pl & Hpl & Hlpl).
  split.
  - constructor; [|exact IH1].
    destruct seg as [|pf seg']; [simpl in Hseg; now elim Hne|].
    rewrite Hf, <- Hseg. simpl. rewrite Hlpl.
    eapply (sorted_head_last (List.map index (pf :: seg'))); [exact Hs1 | reflexivity|].
    apply last_Some in Hpl as [seg0 E]. rewrite E, map_app. simpl.
    now rewrite last_snoc.
  - constructor; [exact IH2|].
    apply Forall_forall. intros r2 Hr2.
    eapply Forall_forall in Hr; [|exact Hr2]. destruct Hr as (Hne2 & Hf2 & _).
    assert (Hsub : exists pf, head (pages r2) = Some (Some pf) /\ pf ∈ rest).
    { destruct (pages r2) as [|p2 ps2] eqn:E2; [now elim Hne2|].
      assert (Hin : p2 ∈ List.map Some rest).
      { rewrite Hrest. apply list_elem_of_In, in_concat.
        exists (p2 :: ps2). split; [|now left].
        apply in_map_iff. exists r2. split; [exact E2 | now apply list_elem_of_In]. }
      apply list_elem_of_In, in_map_iff in Hin as (pf & <- & Hpf).
      exists pf. split; [reflexivity | now apply list_elem_of_In]. }
    destruct Hsub as (pf & Hhead & Hpf).
    rewrite Hlpl, Hf2, Hhead. simpl.
    apply Hlt.
    + apply list_elem_of_In, in_map, list_elem_of_In, last_Some_elem_of, Hpl.
    + now apply list_elem_of_In, in_map, list_elem_of_In.
Qed.

(** X3. When every page is present and the page indices increase strictly,
    each returned report covers a range [firstPageIndex <= lastPageIndex],
    and the range of a report lies wholly before the range of every later
    report. *)
Theorem page_ranges_ordered max (pds : list PageData) rs :
  StronglySorted Z.lt (List.map index pds) ->
  splitIntoPatientReports toLowerCase max (Some (List.map Some pds)) = Ok rs ->
  Forall (fun r => (firstPageIndex r <= lastPageIndex r)%Z) rs
  /\ StronglySorted (fun r1 r2 => (lastPageIndex r1 < firstPageIndex r2)%Z) rs.
Proof.
  intros Hs H. apply split_grows in H as (Hg & Hc & _).
  apply (ranges_ordered rs pds Hc); [|exact Hs].
  eapply grows_Forall; [ | exact Hg | constructor].
  intros ps i r Hne Hf.
  pose proof (finalize_fields _ _ _ _ Hf) as (-> & _ & _).
  split; [exact Hne | eapply finalize_range, Hf].
Qed.

(** *** Numbers of reports and of pages *)

Lemma concat_length_bounds (max : Z) rs :
  Forall (fun r => pages r <> []) rs ->
  (length rs <= length (concat (List.map pages rs)))%nat
  /\ (Forall (bounded max) rs ->
      (Z.of_nat (length (concat (List.map pages rs)))
       <= max * Z.of_nat (length rs))%Z).
Proof.
  induction 1 as [|r rs Hr _ [IH1 IH2]]; simpl; [split; [lia | intros _; lia]|].
  rewrite length_app. split.
  - destruct (pages r); [now elim Hr | simpl; lia].
  - intros Hb. apply Forall_cons in Hb as [[Hb He] Hbs].
    specialize (IH2 Hbs). rewrite He in Hb. lia.
Qed.

(** X4. There are at most as many reports as pages, and for a positive cap
    at least as many as the pages need: [length l <= max * length rs]. *)
Theorem report_count_bounds max l rs :
  splitIntoPatientReports toLowerCase max (Some l) = Ok rs ->
  (length rs <= length l)%nat
  /\ ((0 < max)%Z -> (Z.of_nat (length l) <= max * Z.of_nat (length rs))%Z).
Proof.
  intros H. pose proof (split_grows _ _ _ H) as (Hg & Hc & _).
  assert (Hne : Forall (fun r => pages r <> []) rs)
    by (eapply grows_nonEmpty; [exact Hg | constructor]).
  destruct (concat_length_bounds max rs Hne) as [H1 H2]. rewrite Hc in H1, H2.
  split; [exact H1|]. intros Hmax. apply H2.
  apply split_Ok in H as (st & rs0 & Hscan & Hflush & -> & _).
  apply Forall_filter_bool.
  apply scan_withinCap in Hscan as [Hr Hcur];
    [ | exact Hmax | split; [constructor | simpl; lia]].
  destruct (current st) as [|p ps] eqn:E.
  - now injection Hflush as <-.
  - inv_bind Hflush. injection Hflush as <-.
    apply Forall_app. split; [exact Hr|]. constructor; [|constructor].
    eapply finalize_bounded; [ | | exact Ha]; [discriminate | lia].
Qed.

(** *** A cap of one page or less *)

Lemma scan_cap_one max l : forall st st',
  (max <= 1)%Z -> current st = [] ->
  foldM (step toLowerCase max) st l = Ok st' ->
  current st' = []
  /\ List.map pages (reports st')
     = List.map pages (reports st) ++ List.map (fun p => [p]) l.
Proof.
  induction l as [|p l IH]; simpl; intros st st' Hmax Hcur H.
  - injection H as <-. now rewrite app_nil_r.
  - inv_bind H. unfold step in Ha. inv_bind Ha. inv_bind Ha.
    assert (Hb : reports a1 = reports st /\ current a1 = []).
    { unfold boundary in Ha1. rewrite Hcur in Ha1.
      rewrite andb_false_r in Ha1.
      destruct (currentPatientInfo st), a0; injection Ha1 as <-; auto. }
    destruct Hb as [Hbr Hbc].
    unfold safety, push in Ha. simpl in Ha. rewrite Hbc in Ha. simpl in Ha.
    destruct (Z.geb_spec (Z.of_nat 1) max) as [_|G]; [|lia].
    inv_bind Ha. injection Ha as <-.
    apply finalize_fields in Ha2 as (Hp & _ & _).
    apply IH in H as [Hc Hm]; [ | exact Hmax | reflexivity].
    split; [exact Hc|]. rewrite Hm. simpl.
    rewrite map_app. simpl. rewrite Hp, Hbr. now rewrite <- app_assoc.
Qed.

(** X5. With [maxPagesPerPatient] at most 1 (also 0 or negative) every page
    is a report of its own, whatever identities the pages carry. *)
Theorem cap_of_one_isolates_pages max l rs :
  (max <= 1)%Z ->
  splitIntoPatientReports toLowerCase max (Some l) = Ok rs ->
  List.map pages rs = List.map (fun p => [p]) l.
Proof.
  intros Hmax H. apply split_Ok in H as (st & rs0 & Hscan & Hflush & -> & _).
  apply scan_cap_one in Hscan as [Hc Hm]; [ | exact Hmax | reflexivity].
  rewrite Hc in Hflush. injection Hflush as <-. simpl in Hm.
  rewrite filter_nonEmpty_id; [exact Hm|].
  apply Forall_forall. intros r Hr E.
  assert (Hin : In (pages r) (List.map (fun p => [p]) l))
    by (rewrite <- Hm; apply in_map, list_elem_of_In, Hr).
  apply in_map_iff in Hin as (p & Hp & _). congruence.
Qed.

(** *** Documents made of runs of pages *)

Abbreviation continues := (continues toLowerCase).
Abbreviation segmented := (segmented toLowerCase).

Lemma scan_calm max rs a l : forall cur,
  Forall (continues a) l ->
  (Z.of_nat (length cur + length l) < max)%Z ->
  foldM (step toLowerCase max)
        {| reports := rs; current := cur; currentPatientInfo := Some a |} l
  = Ok {| reports := rs; current := cur ++ l; currentPatientInfo := Some a |}.
Proof.
  induction l as [|p l IH]; simpl; intros cur Hl Hlt.
  - now rewrite app_nil_r.
  - apply Forall_cons in Hl as [(c & Hp & Hsame) Hl].
    assert (Hstep : step toLowerCase max
                      {| reports := rs; current := cur;
                         currentPatientInfo := Some a |} p
                    = Ok {| reports := rs; current := cur ++ [p];
                            currentPatientInfo := Some a |}).
    { unfold step. rewrite Hp. cbn [bind].
      unfold boundary. cbn [currentPatientInfo reports current].
      rewrite Hsame. cbn [andb].
      destruct c; cbn [bind]; unfold safety, push;
        cbn [currentPatientInfo reports current];
        (destruct (Z.geb_spec (Z.of_nat (length (cur ++ [p]))) max) as [G|G];
         [rewrite length_app in G; simpl in G; lia | reflexivity]). }
    rewrite Hstep. cbn [bind].
    rewrite IH; [ | exact Hl | rewrite length_app; simpl; lia].
    now rewrite <- app_assoc.
Qed.

Lemma finalize_identity_first q b rest i :
  extract q = Ok (Some b) ->
  finalize (q :: rest) i = Ok (reportOf i (q :: rest) true).
Proof.
  intros Hq. unfold _finalizeReport. simpl.
  unfold yieldsIdentity at 1. rewrite Hq. reflexivity.
Qed.

(** The pages of one run, met with the run before them still in the
    accumulator: that run is emitted and the new one accumulated. *)
Lemma scan_next_run max rs cur prev q b rest rep :
  cur <> [] ->
  finalize cur (length rs) = Ok rep ->
  extract q = Ok (Some b) ->
  _isDifferentPatient prev (Some b) = true ->
  Forall (continues b) rest ->
  (Z.of_nat (length (q :: rest)) < max)%Z ->
  foldM (step toLowerCase max)
        {| reports := rs; current := cur; currentPatientInfo := prev |} (q :: rest)
  = Ok {| reports := rs ++ [rep]; current := q :: rest;
          currentPatientInfo := Some b |}.
Proof.
  intros Hne Hrep Hq Hdiff Hrest Hlt. simpl in Hlt.
  cbn [foldM]. unfold step at 1. rewrite Hq. cbn [bind].
  unfold boundary. cbn [currentPatientInfo reports current].
  rewrite Hdiff.
  destruct (bool_decide_reflect (cur = [])) as [E|_]; [now elim Hne|].
  cbn [andb negb]. rewrite Hrep. cbn [bind].
  unfold safety, push. cbn [currentPatientInfo reports current app length].
  destruct (Z.geb_spec (Z.of_nat 1) max) as [G|G]; [lia|].
  cbn [bind]. rewrite scan_calm; [reflexivity | exact Hrest | simpl; lia].
Qed.

(** The first run, met by the scan in its initial state. *)
Lemma scan_first_run max q b rest :
  extract q = Ok (Some b) ->
  Forall (continues b) rest ->
  (Z.of_nat (length (q :: rest)) < max)%Z ->
  foldM (step toLowerCase max) initial (q :: rest)
  = Ok {| reports := []; current := q :: rest; currentPatientInfo := Some b |}.
Proof.
  intros Hq Hrest Hlt. simpl in Hlt.
  cbn [foldM]. unfold step at 1. rewrite Hq. cbn [bind].
  unfold boundary, initial. cbn [currentPatientInfo reports current].
  cbn [_isDifferentPatient andb negb bind].
  rewrite bool_decide_eq_true_2 by reflexivity. cbn [andb negb bind].
  unfold safety, push. cbn [currentPatientInfo reports current app length].
  destruct (Z.geb_spec (Z.of_nat 1) max) as [G|G]; [lia|].
  cbn [bind]. rewrite scan_calm; [reflexivity | exact Hrest | simpl; lia].
Qed.

Lemma scan_segmented max runs : forall rs cur a,
  segmented max (Some a) runs ->
  cur <> [] ->
  (forall i, finalize cur i = Ok (reportOf i cur true)) ->
  exists st,
    foldM (step toLowerCase max)
          {| reports := rs; current := cur; currentPatientInfo := Some a |}
          (concat runs) = Ok st
    /\ match current st with
       | [] => Ok (reports st)
       | _ => let* r := finalize (current st) (length (reports st)) in
              Ok (reports st ++ [r])
       end
       = Ok (rs ++ imap (fun i ps => reportOf (length rs + i) ps true) (cur :: runs)).
Proof.
  induction runs as [|run runs IH]; intros rs cur a Hseg Hne Hfin.
  - eexists. split; [reflexivity|]. cbn [current reports].
    destruct cur as [|p ps]; [now elim Hne|].
    rewrite Hfin. cbn [bind imap]. now rewrite Nat.add_0_r.
  - inversion Hseg as [|prev q b rest runs' Hq Hdiff Hrest Hlt Hnext]; subst.
    cbn [concat]. rewrite foldM_app.
    rewrite (scan_next_run max rs cur (Some a) q b rest
               (reportOf (length rs) cur true)); try assumption; [|apply Hfin].
    cbn [bind].
    destruct (IH (rs ++ [reportOf (length rs) cur true]) (q :: rest) b Hnext)
      as (st & Hst & Hflush);
      [discriminate | intros i; now apply (finalize_identity_first q b) |].
    exists st. split; [exact Hst|]. rewrite Hflush.
    rewrite <- app_assoc. f_equal. f_equal.
    rewrite (imap_cons _ cur). rewrite Nat.add_0_r. cbn [app]. f_equal.
    apply imap_ext. intros i ps _. cbn.
    rewrite length_app. cbn [length]. f_equal. lia.
Qed.

Lemma segmented_extractable max prev runs :
  segmented max prev runs -> Forall (extractable toLowerCase) (concat runs).
Proof.
  induction 1 as [|prev q b rest runs Hq _ Hrest _ _ IH]; [constructor|].
  cbn [concat]. apply Forall_app. split; [|exact IH].
  constructor; [now exists (Some b)|].
  eapply Forall_impl; [exact Hrest|]. intros p (c & Hc & _). now exists c.
Qed.

Lemma segmented_nonEmpty max prev runs :
  segmented max prev runs -> Forall (fun run => run <> []) runs.
Proof. induction 1; constructor; [discriminate | assumption]. Qed.

Lemma pages_imap_reportOf k flag runs :
  List.map pages (imap (fun i ps => reportOf (k + i) ps flag) runs) = runs.
Proof.
  revert k. induction runs as [|run runs IH]; intros k; [reflexivity|].
  rewrite imap_cons. cbn [List.map]. f_equal.
  rewrite <- (IH (S k)) at 2. f_equal. apply imap_ext.
  intros i ps _. cbn. f_equal. lia.
Qed.

(** X7. A document made of runs, where each run begins with a page whose
    candidate is judged different from the one that began the run before,
    goes on with pages that continue it, and is shorter than the cap, is
    split into exactly its runs: one report per run, numbered in order, each
    with [hasPatientData] true. *)
Theorem segmented_document_reports max runs :
  segmented max None runs -> runs <> [] ->
  splitIntoPatientReports toLowerCase max (Some (concat runs))
  = Ok (imap (fun i ps => reportOf i ps true) runs).
Proof.
  intros Hseg Hne.
  pose proof (segmented_extractable _ _ _ Hseg) as Hext.
  pose proof (segmented_nonEmpty _ _ _ Hseg) as Hruns.
  destruct runs as [|run runs]; [now elim Hne|].
  inversion Hseg as [|prev q b rest runs' Hq _ Hrest Hlt Hnext]; subst.
  unfold splitIntoPatientReports. cbn [concat].
  change ((q :: rest) ++ concat runs) with (q :: (rest ++ concat runs)).
  cbv beta iota.
  change (q :: (rest ++ concat runs)) with ((q :: rest) ++ concat runs).
  rewrite foldM_app, (scan_first_run max q b rest Hq Hrest Hlt). cbn [bind].
  destruct (scan_segmented max runs [] (q :: rest) b Hnext)
    as (st & Hst & Hflush);
    [discriminate | intros i; now apply (finalize_identity_first q b) |].
  rewrite Hst. cbn [bind]. rewrite Hflush. cbn [bind app length Nat.add].
  assert (Hp : List.map pages
                 (imap (fun i ps => reportOf i ps true) ((q :: rest) :: runs))
               = (q :: rest) :: runs) by apply (pages_imap_reportOf 0).
  rewrite validate_total.
  - apply f_equal, filter_nonEmpty_id.
    apply Forall_forall. intros r Hr E.
    assert (Hin : In (pages r) ((q :: rest) :: runs))
      by (rewrite <- Hp; apply in_map, list_elem_of_In, Hr).
    eapply Forall_forall in Hruns; [|apply list_elem_of_In, Hin]. now elim Hruns.
  - now rewrite Hp.
  - rewrite Hp. discriminate.
Qed.

(** X8. A document none of whose pages yields an identity candidate, and
    shorter than the cap, is returned as one report of all its pages, with
    [hasPatientData] false. *)
Theorem silent_document_single_report max l :
  Forall (silent toLowerCase) l -> l <> [] ->
  (Z.of_nat (length l) < max)%Z ->
  splitIntoPatientReports toLowerCase max (Some l) = Ok [reportOf 0 l false].
Proof.
  intros Hs Hne Hlt. unfold splitIntoPatientReports.
  destruct l as [|p l]; [now elim Hne|].
  unfold initial.
  rewrite (scan_silent toLowerCase max [] (p :: l) []); [ | exact Hs | simpl in *; lia].
  cbn [bind app current reports length].
  unfold _finalizeReport at 1. rewrite (someM_silent _ _ Hs). cbn [bind app].
  rewrite validate_total.
  - reflexivity.
  - cbn. rewrite app_nil_r.
    eapply Forall_impl; [exact Hs|]. intros x Hx. now exists None.
  - discriminate.
Qed.

(** *** Runs that reach the cap *)

Abbreviation capped := (capped toLowerCase).

(** The first [if] of the loop body for a page with a candidate: with
    nothing accumulated and no anchor the candidate becomes the anchor, and
    with pages accumulated under an anchor it differs from they are
    emitted. *)
Lemma boundary_fresh rs b :
  boundary toLowerCase
    {| reports := rs; current := []; currentPatientInfo := None |} (Some b)
  = Ok {| reports := rs; current := []; currentPatientInfo := Some b |}.
Proof. reflexivity. Qed.

Lemma boundary_next rs cur prev b rep :
  cur <> [] ->
  _isDifferentPatient prev (Some b) = true ->
  finalize cur (length rs) = Ok rep ->
  boundary toLowerCase
    {| reports := rs; current := cur; currentPatientInfo := prev |} (Some b)
  = Ok {| reports := rs ++ [rep]; current := []; currentPatientInfo := Some b |}.
Proof.
  intros Hne Hdiff Hrep. unfold boundary. cbn [currentPatientInfo reports current].
  rewrite Hdiff.
  destruct (bool_decide_reflect (cur = [])) as [E|_]; [now elim Hne|].
  cbn [andb negb]. now rewrite Hrep.
Qed.

(** The pages of a run shorter than the cap, from the state in which the
    first [if] leaves the scan at the run's first page. *)
Lemma scan_run_short max st rs q b rest :
  extract q = Ok (Some b) ->
  boundary toLowerCase st (Some b)
  = Ok {| reports := rs; current := []; currentPatientInfo := Some b |} ->
  Forall (continues b) rest ->
  (Z.of_nat (length (q :: rest)) < max)%Z ->
  foldM (step toLowerCase max) st (q :: rest)
  = Ok {| reports := rs; current := q :: rest; currentPatientInfo := Some b |}.
Proof.
  intros Hq Hb Hrest Hlt. simpl in Hlt.
  cbn [foldM]. unfold step at 1. rewrite Hq. cbn [bind]. rewrite Hb. cbn [bind].
  unfold safety, push. cbn [currentPatientInfo reports current app length].
  destruct (Z.geb_spec (Z.of_nat 1) max) as [G|G]; [lia|].
  cbn [bind]. rewrite scan_calm; [reflexivity | exact Hrest | simpl; lia].
Qed.

(** The pages that fill the accumulator up to the cap: with the last of
    them the safety check emits the report and drops the anchor. *)
Lemma scan_fill max rs a l cur rep :
  Forall (continues a) l -> l <> [] ->
  Z.of_nat (length cur + length l) = max ->
  finalize (cur ++ l) (length rs) = Ok rep ->
  foldM (step toLowerCase max)
        {| reports := rs; current := cur; currentPatientInfo := Some a |} l
  = Ok {| reports := rs ++ [rep]; current := []; currentPatientInfo := None |}.
Proof.
  intros Hl Hne Hlen Hrep.
  destruct (exists_last Hne) as (l' & x & ->).
  apply Forall_app in Hl as [Hl' Hx].
  apply Forall_cons in Hx as [(c & Hx & Hsame) _].
  rewrite length_app in Hlen. simpl in Hlen.
  rewrite foldM_app, scan_calm; [ | exact Hl' | lia].
  cbn [bind foldM]. unfold step. rewrite Hx. cbn [bind].
  unfold boundary. cbn [currentPatientInfo reports current].
  rewrite Hsame. cbn [andb].
  rewrite app_assoc in Hrep.
  destruct c; cbn [bind]; unfold safety, push;
    cbn [currentPatientInfo reports current];
    (destruct (Z.geb_spec (Z.of_nat (length ((cur ++ l') ++ [x]))) max) as [G|G];
     [now rewrite Hrep | rewrite !length_app in G; simpl in G; lia]).
Qed.

(** The pages of a run as long as the cap. *)
Lemma scan_run_full max st rs q b rest :
  extract q = Ok (Some b) ->
  boundary toLowerCase st (Some b)
  = Ok {| reports := rs; current := []; currentPatientInfo := Some b |} ->
  Forall (continues b) rest ->
  Z.of_nat (length (q :: rest)) = max ->
  foldM (step toLowerCase max) st (q :: rest)
  = Ok {| reports := rs ++ [reportOf (length rs) (q :: rest) true];
          current := []; currentPatientInfo := None |}.
Proof.
  intros Hq Hb Hrest Hlen. simpl in Hlen.
  pose proof (finalize_identity_first q b rest (length rs) Hq) as Hrep.
  cbn [foldM]. unfold step at 1. rewrite Hq. cbn [bind]. rewrite Hb. cbn [bind].
  unfold safety, push. cbn [currentPatientInfo reports current app length].
  destruct rest as [|p rest].
  - destruct (Z.geb_spec (Z.of_nat 1) max) as [G|G]; [|simpl in Hlen; lia].
    now rewrite Hrep.
  - destruct (Z.geb_spec (Z.of_nat 1) max) as [G|G]; [simpl in Hlen; lia|].
    cbn [bind].
    apply (scan_fill max rs b (p :: rest) [q]); [exact Hrest | discriminate | | exact Hrep].
    simpl in *. lia.
Qed.

Abbreviation numbered k runs :=
  (imap (fun i ps => reportOf (k + i) ps true) runs).

Lemma numbered_cons k run runs :
  numbered k (run :: runs) = reportOf k run true :: numbered (S k) runs.
Proof.
  rewrite imap_cons. f_equal; [f_equal; lia|].
  apply imap_ext. intros i ps _. cbn. f_equal. lia.
Qed.

(** The scan over a document of runs, begun with nothing accumulated and no
    anchor, or with a run accumulated under its anchor. *)
Lemma scan_capped max runs : forall rs cur prev,
  capped max prev runs ->
  (cur = [] /\ prev = None
   \/ cur <> [] /\ forall i, finalize cur i = Ok (reportOf i cur true)) ->
  exists st,
    foldM (step toLowerCase max)
          {| reports := rs; current := cur; currentPatientInfo := prev |}
          (concat runs) = Ok st
    /\ match current st with
       | [] => Ok (reports st)
       | _ => let* r := finalize (current st) (length (reports st)) in
              Ok (reports st ++ [r])
       end
       = Ok (rs ++ numbered (length rs)
                     (match cur with [] => runs | _ => cur :: runs end)).
Proof.
  induction runs as [|run runs IH]; intros rs cur prev Hcap Hst.
  - eexists. split; [reflexivity|]. cbn [current reports concat].
    destruct Hst as [[-> _] | [Hne Hfin]]; [now rewrite app_nil_r|].
    destruct cur as [|p ps]; [now elim Hne|].
    rewrite Hfin. cbn [bind]. now rewrite numbered_cons.
  - cbn [concat]. rewrite foldM_app.
    assert (Hb : forall b,
              _isDifferentPatient prev (Some b) = true ->
              exists rs',
                boundary toLowerCase
                  {| reports := rs; current := cur; currentPatientInfo := prev |}
                  (Some b)
                = Ok {| reports := rs'; current := [];
                        currentPatientInfo := Some b |}
                /\ forall tail,
                     rs' ++ numbered (length rs') tail
                     = rs ++ numbered (length rs)
                               (match cur with [] => tail | _ => cur :: tail end)).
    { intros b Hdiff. destruct Hst as [[-> ->] | [Hne Hfin]].
      - exists rs. split; [apply boundary_fresh | reflexivity].
      - exists (rs ++ [reportOf (length rs) cur true]). split.
        + now apply boundary_next.
        + intros tail. destruct cur as [|p ps]; [now elim Hne|].
          rewrite numbered_cons, <- app_assoc, length_app. cbn [length app].
          now rewrite Nat.add_1_r. }
    inversion Hcap as [ | prev' q b rest runs' Hq Hdiff Hrest Hlt Hnext
                        | prev' q b rest runs' Hq Hdiff Hrest Hlen Hnext ]; subst.
    + destruct (Hb b Hdiff) as (rs' & Hbound & Hrs').
      rewrite (scan_run_short max _ rs' q b rest Hq Hbound Hrest Hlt). cbn [bind].
      destruct (IH rs' (q :: rest) (Some b) Hnext) as (st & Hscan & Hflush).
      { right. split; [discriminate|].
        intros i. now apply (finalize_identity_first q b). }
      exists st. split; [exact Hscan|]. rewrite Hflush. f_equal.
      rewrite numbered_cons, <- Hrs', numbered_cons. reflexivity.
    + destruct (Hb b Hdiff) as (rs' & Hbound & Hrs').
      rewrite (scan_run_full _ _ rs' q b rest Hq Hbound Hrest eq_refl). cbn [bind].
      destruct (IH (rs' ++ [reportOf (length rs') (q :: rest) true]) [] None Hnext)
        as (st & Hscan & Hflush); [now left|].
      exists st. split; [exact Hscan|]. rewrite Hflush. f_equal.
      rewrite <- Hrs', numbered_cons, <- app_assoc, length_app. cbn [length app].
      now rewrite Nat.add_1_r.
Qed.

Lemma capped_extractable max prev runs :
  capped max prev runs -> Forall (extractable toLowerCase) (concat runs).
Proof.
  induction 1 as [ | prev q b rest runs Hq _ Hrest _ _ IH
                   | prev q b rest runs Hq _ Hrest _ _ IH ]; [constructor | |];
    cbn [concat]; (apply Forall_app; split; [|exact IH]);
    (constructor; [now exists (Some b)|]);
    (eapply Forall_impl; [exact Hrest|]); intros p (c & Hc & _); now exists c.
Qed.

Lemma capped_nonEmpty max prev runs :
  capped max prev runs -> Forall (fun run => run <> []) runs.
Proof. induction 1; constructor; try discriminate; assumption. Qed.

(** X25. A document made of runs of pages, each run begun by a page whose
    candidate is judged different from the anchor that the scan holds (the
    candidate that began the run before when that run was shorter than the
    cap, and none at the beginning and after a run as long as the cap),
    continued by pages that are not judged different from the candidate of
    its first page, and at most as long as the cap, is split into exactly
    its runs: one report per run, numbered in order, each with
    [hasPatientData] true. *)
Theorem capped_document_reports max runs :
  capped max None runs -> runs <> [] ->
  splitIntoPatientReports toLowerCase max (Some (concat runs))
  = Ok (imap (fun i ps => reportOf i ps true) runs).
Proof.
  intros Hcap Hne.
  pose proof (capped_extractable _ _ _ Hcap) as Hext.
  pose proof (capped_nonEmpty _ _ _ Hcap) as Hruns.
  destruct (scan_capped max runs [] [] None Hcap) as (st & Hscan & Hflush);
    [now left|].
  cbn [app length] in Hflush.
  assert (Hp : List.map pages (numbered 0 runs) = runs)
    by apply (pages_imap_reportOf 0).
  assert (Hdoc : concat runs <> []).
  { destruct runs as [|run runs]; [now elim Hne|].
    apply Forall_cons in Hruns as [Hrun _].
    destruct run; [now elim Hrun | discriminate]. }
  unfold splitIntoPatientReports.
  destruct (concat runs) as [|p l] eqn:E; [now elim Hdoc|].
  unfold initial. rewrite Hscan. cbn [bind]. rewrite Hflush. cbn [bind].
  rewrite validate_total.
  - apply f_equal, filter_nonEmpty_id.
    apply Forall_forall. intros r Hr Er.
    assert (Hin : In (pages r) runs)
      by (rewrite <- Hp; apply in_map, list_elem_of_In, Hr).
    eapply Forall_forall in Hruns; [|apply list_elem_of_In, Hin]. now elim Hruns.
  - now rewrite Hp, E.
  - rewrite Hp, E. discriminate.
Qed.

(** *** The scan after a forced split *)

Abbreviation flush st :=
  (match current st with
   | [] => Ok (reports st)
   | _ => let* r := finalize (current st) (length (reports st)) in
          Ok (reports st ++ [r])
   end).















End Reports.


Lemma capped_document_reports_witness :
  splitIntoPatientReports asciiToLowerCase 2
    (Some (concat [ [patientPage 0 "ZZZ9"];
                    [patientPage 1 "AAA1"; patientPage 2 "AAA1"];
                    [patientPage 3 "AAA1"];
                    [patientPage 4 "BBB2"] ]))
  = Ok (imap (fun i run => reportOf i run true)
             [ [patientPage 0 "ZZZ9"];
               [patientPage 1 "AAA1"; patientPage 2 "AAA1"];
               [patientPage 3 "AAA1"];
               [patientPage 4 "BBB2"] ]).
Proof.
  apply (capped_document_reports asciiToLowerCase 2); [|discriminate].
  apply (capped_short _ _ _ _ (patientInfo "ZZZ9"));
    [vm_compute; reflexivity | reflexivity | constructor | reflexivity |].
  apply (capped_full _ _ _ _ (patientInfo "AAA1"));
    [vm_compute; reflexivity | vm_compute; reflexivity | | reflexivity |].
  { repeat constructor. exists (Some (patientInfo "AAA1")).
    split; vm_compute; reflexivity. }
  apply (capped_short _ _ _ _ (patientInfo "AAA1"));
    [vm_compute; reflexivity | reflexivity | constructor | reflexivity |].
  apply (capped_short _ _ _ _ (patientInfo "BBB2"));
    [vm_compute; reflexivity | vm_compute; reflexivity | constructor
     | reflexivity | constructor].
Defined.

(** *** The split decision, further *)

(** X6. Comparing two present candidates does not depend on which of them
    is the anchor, and a candidate is never different from itself. *)
Theorem isDifferentPatient_symmetric (a b : PatientInfo) :
  _isDifferentPatient (Some a) (Some b) = _isDifferentPatient (Some b) (Some a)
  /\ _isDifferentPatient (Some a) (Some a) = false.
Proof.
  assert (Hsym : forall x y : option jsstring,
             negb (bool_decide (x = y)) = negb (bool_decide (y = x))).
  { intros x y. destruct (bool_decide_reflect (x = y)), (bool_decide_reflect (y = x));
      congruence. }
  split; simpl.
  - rewrite (andb_comm (isSet (patientId a))), (andb_comm (isSet (name a))),
      (andb_comm (isSet (dob a))).
    now rewrite (Hsym (patientId a)), (Hsym (name a)), (Hsym (dob a)).
  - rewrite !bool_decide_eq_true_2 by reflexivity. simpl.
    repeat match goal with |- context [if ?b then _ else _] => destruct b end;
      reflexivity.
Qed.

(** * Further properties of the identity extraction *)

(** ** Trimming *)

Lemma trimStart_startsClean s : startsClean (trimStart s).
Proof.
  induction s as [|c s IH]; simpl; [exact I|].
  destruct (isWhiteSpace c) eqn:E; [exact IH | exact E].
Qed.

Lemma trimStart_fix s : startsClean s -> trimStart s = s.
Proof. destruct s as [|c s]; simpl; [reflexivity | now intros ->]. Qed.

Lemma trimStart_suffix s : exists pre, s = pre ++ trimStart s.
Proof.
  induction s as [|c s [pre IH]]; simpl; [now exists []|].
  destruct (isWhiteSpace c); [|now exists []].
  exists (c :: pre). simpl. now f_equal.
Qed.

Lemma trimEnd_prefix s : exists suf, s = trimEnd s ++ suf.
Proof.
  unfold trimEnd. destruct (trimStart_suffix (rev s)) as [pre E].
  exists (rev pre). rewrite <- rev_app_distr, <- E. now rewrite rev_involutive.
Qed.

Lemma trimEnd_startsClean s : startsClean s -> startsClean (trimEnd s).
Proof.
  destruct (trimEnd_prefix s) as [suf E]. intros H. rewrite E in H.
  now destruct (trimEnd s).
Qed.

Lemma trimEnd_endsClean s : startsClean (rev (trimEnd s)).
Proof. unfold trimEnd. rewrite rev_involutive. apply trimStart_startsClean. Qed.

Lemma trim_fix s : startsClean s -> startsClean (rev s) -> trim s = s.
Proof.
  intros H1 H2. unfold trim, trimEnd.
  rewrite (trimStart_fix s H1), (trimStart_fix (rev s) H2).
  apply rev_involutive.
Qed.

Lemma trim_idempotent s : trim (trim s) = trim s.
Proof.
  apply trim_fix.
  - apply trimEnd_startsClean, trimStart_startsClean.
  - apply trimEnd_endsClean.
Qed.

Lemma filter_fix (f : N -> bool) s :
  Forall (fun c => f c = true) s -> List.filter f s = s.
Proof.
  induction 1 as [|c s Hc _ IH]; simpl; [reflexivity|]. now rewrite Hc, IH.
Qed.

Lemma word_not_space c : isWordChar c = true -> isWhiteSpace c = false.
Proof.
  unfold isWordChar, isDigit. intros H.
  destruct (isWhiteSpace c) eqn:W; [exfalso | reflexivity].
  unfold isWhiteSpace in W.
  repeat (rewrite ?orb_true_iff, ?andb_true_iff, ?N.leb_le, ?N.eqb_eq in W).
  repeat (rewrite ?orb_true_iff, ?andb_true_iff, ?N.leb_le, ?N.eqb_eq in H).
  lia.
Qed.

(** ** What the splitter surfaces in a candidate *)

Lemma cleanPatientValue_clean v : cleanField (_cleanPatientValue v).
Proof.
  intros s. unfold _cleanPatientValue.
  destruct (negb (truthy v)); [discriminate|].
  destruct v; try discriminate. intros [= <-]. split.
  - apply Forall_trim, Forall_filter_true.
  - apply trim_idempotent.
Qed.

Lemma probeKeys_clean keys kv field :
  cleanField field -> cleanField (probeKeys keys kv field).
Proof.
  intros Hf. induction keys as [|k keys IH]; simpl; [exact Hf|].
  destruct (truthy _); [apply cleanPatientValue_clean | exact IH].
Qed.

Lemma foldM_invariant {A B} (P : A -> Prop) (f : A -> B -> result A) l :
  (forall a x a', P a -> f a x = Ok a' -> P a') ->
  forall a a', P a -> foldM f a l = Ok a' -> P a'.
Proof.
  intros Hf. induction l as [|x l IH]; simpl; intros a a' Ha H.
  - now injection H as <-.
  - inv_bind H. eapply IH; [|exact H]. eapply Hf; eassumption.
Qed.

Section TableFallback.

Variable toLowerCase : jsstring -> jsstring.

(** Properties of the three fields that every step of the table pass keeps
    also hold after [_extractFromTables]. *)
Lemma tables_invariant (Pn Pi Pd : option jsstring -> Prop) :
  (forall (P : option jsstring -> Prop), P = Pn \/ P = Pi \/ P = Pd ->
     forall keys field row idx cell cl f',
       P field -> fromCell keys field row idx cell cl = Ok f' -> P f') ->
  forall tables info info',
    Pn (name info) /\ Pi (patientId info) /\ Pd (dob info) ->
    _extractFromTables toLowerCase tables info = Ok info' ->
    Pn (name info') /\ Pi (patientId info') /\ Pd (dob info').
Proof.
  intros Hcell tables.
  apply (foldM_invariant
           (fun i => Pn (name i) /\ Pi (patientId i) /\ Pd (dob i))).
  intros info t info' Hinfo. unfold visitTable.
  destruct (rows t) as [rs|]; [|now intros [= <-]].
  revert info info' Hinfo.
  apply (foldM_invariant
           (fun i => Pn (name i) /\ Pi (patientId i) /\ Pd (dob i))).
  intros info row info' Hinfo. destruct row as [cells|]; simpl;
    [|now intros [= <-]].
  revert info info' Hinfo.
  apply (foldM_invariant
           (fun i => Pn (name i) /\ Pi (patientId i) /\ Pd (dob i))).
  intros info [idx cell] info' (Hn & Hi & Hd). unfold visitCell.
  destruct (negb (truthy cell)); [now intros [= <-]|].
  destruct cell; try (now intros [= <-]).
  intros H. inv_bind H. inv_bind H. inv_bind H. injection H as <-. simpl.
  repeat split; (eapply Hcell; [ | | eassumption]); auto.
Qed.

Lemma fromCell_clean keys field row idx cell cl f' :
  cleanField field -> fromCell keys field row idx cell cl = Ok f' ->
  cleanField f'.
Proof.
  intros Hf. unfold fromCell. destruct (_ && _); [|now intros [= <-]].
  intros H. inv_bind H. injection H as <-.
  destruct a; [apply cleanPatientValue_clean | exact Hf].
Qed.

Lemma fromCell_keeps v keys field row idx cell cl f' :
  (isSet v = true -> field = v) ->
  fromCell keys field row idx cell cl = Ok f' ->
  (isSet v = true -> f' = v).
Proof.
  intros Hf. unfold fromCell.
  destruct (isSet field) eqn:E; simpl; [now intros [= <-]|].
  intros H Hv. specialize (Hf Hv). congruence.
Qed.

(** X9. Every field of a candidate the splitter extracts is [null] or a
    string of word characters, whitespace and hyphens with no whitespace at
    either end, and its name or its patient identifier is a non-empty
    string. *)
Theorem candidate_fields_clean page c :
  _extractPatientInfo toLowerCase page = Ok (Some c) ->
  cleanField (name c) /\ cleanField (patientId c) /\ cleanField (dob c)
  /\ (isSet (name c) = true \/ isSet (patientId c) = true).
Proof.
  destruct page as [pd|]; simpl; [|discriminate].
  intros H. inv_bind H.
  assert (Hclean : cleanField (name a) /\ cleanField (patientId a)
                   /\ cleanField (dob a)).
  { unfold resolveFields in Ha.
    set (info := match keyValuePairs pd with
                 | Some kv => fromKeyValuePairs kv _
                 | None => _
                 end) in Ha.
    assert (H0 : cleanField (name info) /\ cleanField (patientId info)
                 /\ cleanField (dob info)).
    { subst info. destruct (keyValuePairs pd);
        unfold fromKeyValuePairs; cbn [name patientId dob];
        (split; [|split]); try apply probeKeys_clean; intros ? [=]. }
    destruct (tables pd) as [[|t ts]|]; try (injection Ha as <-; exact H0).
    destruct (_ || _); [|injection Ha as <-; exact H0].
    eapply (tables_invariant cleanField cleanField cleanField);
      [ | exact H0 | exact Ha].
    intros P [-> | [-> | ->]] keys field row idx cell cl f';
      apply fromCell_clean. }
  destruct (isSet (name a)) eqn:En; simpl in H.
  - injection H as <-. intuition.
  - destruct (isSet (patientId a)) eqn:Ei; simpl in H; [|discriminate].
    injection H as <-. intuition.
Qed.

(** X10. Key/value pairs come first: a field that the key/value probing
    sets to a non-empty string is the field of the candidate, whatever the
    tables hold; and when the probing sets both the name and the patient
    identifier the tables are not read at all, so that the extraction
    returns the probed fields and cannot throw. *)
Theorem key_values_take_precedence pd kv :
  keyValuePairs pd = Some kv ->
  let probed := fromKeyValuePairs kv noInfo in
  (forall c,
     _extractPatientInfo toLowerCase (Some pd) = Ok (Some c) ->
     (isSet (name probed) = true -> name c = name probed)
     /\ (isSet (patientId probed) = true -> patientId c = patientId probed)
     /\ (isSet (dob probed) = true -> dob c = dob probed))
  /\ (isSet (name probed) = true -> isSet (patientId probed) = true ->
      _extractPatientInfo toLowerCase (Some pd) = Ok (Some probed)).
Proof.
  intros Hkv probed. split.
  - intros c H. simpl in H. inv_bind H.
    assert (a = c) as <-
      by (destruct (_ && _); [discriminate | now injection H]).
    clear H. unfold resolveFields in Ha. rewrite Hkv in Ha.
    fold noInfo in Ha. fold probed in Ha.
    destruct (tables pd) as [[|t ts]|]; try (injection Ha as <-; auto).
    destruct (_ || _); [|injection Ha as <-; auto].
    eapply (tables_invariant
              (fun f => isSet (name probed) = true -> f = name probed)
              (fun f => isSet (patientId probed) = true -> f = patientId probed)
              (fun f => isSet (dob probed) = true -> f = dob probed));
      [ | | exact Ha]; [|auto].
    intros P [-> | [-> | ->]] keys field row idx cell cl f';
      apply fromCell_keeps.
  - intros Hn Hi. unfold _extractPatientInfo, resolveFields. rewrite Hkv.
    fold noInfo. fold probed.
    destruct (tables pd) as [[|t ts]|];
      rewrite ?Hn, ?Hi; cbn [negb orb andb bind]; rewrite ?Hn, ?Hi; reflexivity.
Qed.

End TableFallback.

(** * Further properties of the metadata extractor *)

Lemma cleanValue_is_valid v field s :
  MetadataExtractor._cleanValue v field = Some s ->
  MetadataExtractor.valid field s.
Proof.
  unfold MetadataExtractor._cleanValue.
  destruct (negb (truthy v)); [discriminate|].
  destruct v as [| | | |r]; try discriminate.
  destruct field; simpl.
  - destruct (Nat.ltb_spec (length (trim (keepNameChars (trim r)))) 2) as [L|L];
      simpl; [discriminate|].
    destruct (allDigits _) eqn:D; [discriminate|].
    intros [= <-]. repeat split; try assumption.
    + apply Forall_trim, Forall_filter_true.
    + apply trim_idempotent.
  - destruct (hasDigit (trim r)) eqn:D; simpl; [|discriminate].
    destruct (Nat.ltb_spec (length (trim r)) 6) as [L|L]; [discriminate|].
    intros [= <-]. repeat split; try assumption. apply trim_idempotent.
  - destruct (Nat.ltb_spec (length (keepWordChars (trim r))) 3) as [L|L];
      [discriminate|].
    intros [= <-]. split; [exact L | apply Forall_filter_true].
Qed.

Lemma valid_is_kept field s :
  MetadataExtractor.valid field s ->
  MetadataExtractor._cleanValue (VString s) field = Some s.
Proof.
  unfold MetadataExtractor._cleanValue.
  destruct field; simpl.
  - intros (L & D & A & T).
    destruct s as [|c s']; [simpl in L; lia|]. cbn [truthy negb].
    rewrite T. unfold keepNameChars. rewrite (filter_fix _ _ A), T, D.
    destruct (Nat.ltb_spec (length (c :: s')) 2) as [L'|_]; [lia | reflexivity].
  - intros (L & D & T).
    destruct s as [|c s']; [simpl in L; lia|]. cbn [truthy negb].
    rewrite T, D.
    destruct (Nat.ltb_spec (length (c :: s')) 6) as [L'|_]; [lia | reflexivity].
  - intros (L & W).
    destruct s as [|c s']; [simpl in L; lia|]. cbn [truthy negb].
    rewrite trim_no_space
      by (eapply Forall_impl; [exact W | intros x; apply word_not_space]).
    unfold keepWordChars. rewrite (filter_fix _ _ W).
    destruct (Nat.ltb_spec (length (c :: s')) 3) as [L'|_]; [lia | reflexivity].
Qed.

(** X11. Normalising is idempotent: a string that [_cleanValue] returns for
    a field is returned unchanged when it is normalised again for that
    field. *)
Theorem cleanValue_idempotent v field s :
  MetadataExtractor._cleanValue v field = Some s ->
  MetadataExtractor._cleanValue (VString s) field = Some s.
Proof. intros H. apply valid_is_kept. eapply cleanValue_is_valid, H. Qed.

Lemma set_validFields m field v :
  MetadataExtractor.validFields m ->
  (forall s, v = Some s -> MetadataExtractor.valid field s) ->
  MetadataExtractor.validFields (MetadataExtractor.set m field v).
Proof.
  intros Hm Hv g s. destruct field, g; simpl; intros E;
    try (apply Hv; exact E);
    try (apply (Hm MetadataExtractor.Name); exact E);
    try (apply (Hm MetadataExtractor.Dob); exact E);
    try (apply (Hm MetadataExtractor.PatientId); exact E).
Qed.

Lemma metadata_probe_valid field keys kv m :
  MetadataExtractor.validFields m ->
  MetadataExtractor.validFields (MetadataExtractor.probeKeys field keys kv m).
Proof.
  intros Hm. induction keys as [|k keys IH]; simpl; [exact Hm|].
  destruct (_ && _); [|exact IH].
  apply set_validFields; [exact Hm|]. intros s.
  destruct (getProperty kv k); [apply cleanValue_is_valid | discriminate].
Qed.

Lemma metadata_kv_valid mappings kv : forall m,
  MetadataExtractor.validFields m ->
  MetadataExtractor.validFields
    (MetadataExtractor._extractFromKeyValuePairs mappings kv m).
Proof.
  unfold MetadataExtractor._extractFromKeyValuePairs.
  induction mappings as [|fk mappings IH]; simpl; intros m Hm; [exact Hm|].
  apply IH, metadata_probe_valid, Hm.
Qed.

Section MetadataTables.

Variable toLowerCase : jsstring -> jsstring.

(** A property of the metadata object that every assignment of the table
    pass keeps also holds after [_extractFromTables]. *)
Lemma metadata_tables_invariant (P : MetadataExtractor.Metadata -> Prop) mappings :
  (forall row idx cell cl m fk m',
     P m -> MetadataExtractor.fromCell row idx cell cl m fk = Ok m' -> P m') ->
  forall tables m m',
    P m ->
    MetadataExtractor._extractFromTables toLowerCase mappings tables m = Ok m' ->
    P m'.
Proof.
  intros Hcell tables. apply (foldM_invariant P).
  intros m t m' Hm. unfold MetadataExtractor.visitTable.
  destruct (rows t) as [rs|]; [|now intros [= <-]].
  revert m m' Hm. apply (foldM_invariant P).
  intros m row m' Hm. destruct row as [cells|]; simpl; [|now intros [= <-]].
  revert m m' Hm. apply (foldM_invariant P).
  intros m [idx cell] m' Hm. unfold MetadataExtractor.visitCell.
  destruct (negb (truthy cell)); [now intros [= <-]|].
  destruct cell; try (now intros [= <-]).
  revert m m' Hm. apply (foldM_invariant P).
  intros m fk m' Hm. apply Hcell, Hm.
Qed.

Lemma metadata_fromCell_valid row idx cell cl m fk m' :
  MetadataExtractor.validFields m ->
  MetadataExtractor.fromCell row idx cell cl m fk = Ok m' ->
  MetadataExtractor.validFields m'.
Proof.
  intros Hm. unfold MetadataExtractor.fromCell.
  destruct (isSet _); [now intros [= <-]|].
  destruct (existsb _ _); [|now intros [= <-]].
  intros H. inv_bind H. injection H as <-.
  destruct a; [|exact Hm].
  apply set_validFields; [exact Hm|]. intros s. apply cleanValue_is_valid.
Qed.

(** X12. Whatever the field mappings and the page, every identity field of
    the metadata that [extractMetadata] returns is [null] or a string the
    normaliser accepts for that field: a name of at least 2 allowed
    characters that is not all digits, a date of birth of at least 6 code
    units with a digit, a patient identifier of at least 3 word
    characters. *)
Theorem extractMetadata_fields_valid mappings page m :
  MetadataExtractor.extractMetadata toLowerCase mappings page
  = MetadataExtractor.Extracted m ->
  MetadataExtractor.validFields m.
Proof.
  unfold MetadataExtractor.extractMetadata.
  destruct page as [pd|]; [|discriminate].
  set (m0 := MetadataExtractor._extractFromKeyValuePairs _ _ _).
  assert (H0 : MetadataExtractor.validFields m0).
  { apply metadata_kv_valid. intros f s. destruct f; discriminate. }
  destruct (tables pd) as [[|t ts]|]; try (intros [= <-]; exact H0).
  destruct (MetadataExtractor._hasIncompleteData m0); [|intros [= <-]; exact H0].
  destruct (MetadataExtractor._extractFromTables _ _ _ _) as [m1|e] eqn:E;
    [|discriminate].
  intros [= <-].
  eapply (metadata_tables_invariant MetadataExtractor.validFields);
    [ | exact H0 | exact E].
  intros. eapply metadata_fromCell_valid; eassumption.
Qed.

End MetadataTables.

(** X13. The number of completed fields that [_calculateCompleteness]
    counts is 3 exactly when [_hasIncompleteData] is false, and a field is
    counted exactly when it is a non-empty string. *)
Theorem completeness_full_iff_complete (m : MetadataExtractor.Metadata) :
  (length (MetadataExtractor.completedFields m) = 3%nat
   <-> MetadataExtractor._hasIncompleteData m = false)
  /\ (forall field,
        In field (MetadataExtractor.completedFields m)
        <-> isSet (MetadataExtractor.get m field) = true).
Proof.
  destruct m as [[[|? ?]|] [[|? ?]|] [[|? ?]|]]; split;
    try (vm_compute; split; congruence);
    intros []; vm_compute; intuition congruence.
Qed.

(** ** Concrete runs of the further properties *)

Lemma ten_pages_split :
  splitIntoPatientReports asciiToLowerCase 10 (Some tenPages) = Ok tenReports.
Proof. vm_compute. reflexivity. Qed.

Lemma reports_numbered_witness :
  tenReports !! 2%nat = Some (reportOf 2 [patientPage 5 "CCC3"; patientPage 6 "CCC3";
                                         patientPage 7 "CCC3"] true)
  /\ reportIndex (reportOf 2 [patientPage 5 "CCC3"; patientPage 6 "CCC3";
                              patientPage 7 "CCC3"] true) = 2%nat.
Proof.
  split; [reflexivity|].
  apply (reports_numbered asciiToLowerCase 10 tenPages tenReports).
  - vm_compute. reflexivity.
  - reflexivity.
Defined.

Lemma hasPatientData_iff_witness :
  hasPatientData (reportOf 0 [patientPage 0 "AAA1"; patientPage 1 "AAA1";
                              patientPage 2 "AAA1"] true) = true
  <-> exists p c,
        In p (pages (reportOf 0 [patientPage 0 "AAA1"; patientPage 1 "AAA1";
                                 patientPage 2 "AAA1"] true))
        /\ _extractPatientInfo asciiToLowerCase p = Ok (Some c).
Proof.
  apply (hasPatientData_iff asciiToLowerCase 10 tenPages tenReports).
  - vm_compute. reflexivity.
  - left. reflexivity.
Defined.

Lemma page_ranges_ordered_witness :
  Forall (fun r => (firstPageIndex r <= lastPageIndex r)%Z) tenReports
  /\ StronglySorted (fun r1 r2 => (lastPageIndex r1 < firstPageIndex r2)%Z)
       tenReports.
Proof.
  apply (page_ranges_ordered asciiToLowerCase 10 tenData tenReports).
  - vm_compute. repeat constructor.
  - vm_compute. reflexivity.
Defined.

Lemma report_count_bounds_witness :
  (length tenReports <= length tenPages)%nat
  /\ ((0 < 10)%Z ->
      (Z.of_nat (length tenPages) <= 10 * Z.of_nat (length tenReports))%Z).
Proof.
  apply (report_count_bounds asciiToLowerCase 10 tenPages tenReports).
  vm_compute. reflexivity.
Defined.

Lemma cap_of_one_isolates_pages_witness :
  List.map pages threeReports = List.map (fun p => [p]) threePages.
Proof.
  apply (cap_of_one_isolates_pages asciiToLowerCase 1 threePages threeReports).
  - discriminate.
  - vm_compute. reflexivity.
Defined.

Lemma segmented_document_reports_witness :
  splitIntoPatientReports asciiToLowerCase 10 (Some (concat tenRuns))
  = Ok (imap (fun i ps => reportOf i ps true) tenRuns).
Proof.
  apply (segmented_document_reports asciiToLowerCase 10 tenRuns); [|discriminate].
  unfold tenRuns.
  apply (segmented_run _ _ _ _ (patientInfo "AAA1"));
    [vm_compute; reflexivity | reflexivity
    | repeat constructor; eexists; split; vm_compute; reflexivity
    | reflexivity | ].
  apply (segmented_run _ _ _ _ (patientInfo "BBB2"));
    [vm_compute; reflexivity | vm_compute; reflexivity
    | repeat constructor; eexists; split; vm_compute; reflexivity
    | reflexivity | ].
  apply (segmented_run _ _ _ _ (patientInfo "CCC3"));
    [vm_compute; reflexivity | vm_compute; reflexivity
    | repeat constructor; eexists; split; vm_compute; reflexivity
    | reflexivity | ].
  apply (segmented_run _ _ _ _ (patientInfo "DDD4"));
    [vm_compute; reflexivity | vm_compute; reflexivity
    | repeat constructor; eexists; split; vm_compute; reflexivity
    | reflexivity | ].
  apply segmented_nil.
Defined.

Lemma silent_document_single_report_witness :
  splitIntoPatientReports asciiToLowerCase 10 (Some [blankPage 0; blankPage 1])
  = Ok [reportOf 0 [blankPage 0; blankPage 1] false].
Proof.
  apply (silent_document_single_report asciiToLowerCase 10 [blankPage 0; blankPage 1]).
  - repeat constructor; vm_compute; reflexivity.
  - discriminate.
  - reflexivity.
Defined.

Lemma candidate_fields_clean_witness :
  cleanField (name properIdInfo) /\ cleanField (patientId properIdInfo)
  /\ cleanField (dob properIdInfo)
  /\ (isSet (name properIdInfo) = true \/ isSet (patientId properIdInfo) = true).
Proof.
  apply (candidate_fields_clean asciiToLowerCase properIdPage properIdInfo).
  vm_compute. reflexivity.
Defined.

Lemma key_values_take_precedence_witness :
  _extractPatientInfo asciiToLowerCase (Some completeData)
  = Ok (Some (fromKeyValuePairs completeKeyValues noInfo)).
Proof.
  apply (key_values_take_precedence asciiToLowerCase completeData completeKeyValues).
  - reflexivity.
  - vm_compute. reflexivity.
  - vm_compute. reflexivity.
Defined.

Lemma cleanValue_idempotent_witness :
  MetadataExtractor._cleanValue (VString (js "Jane  Roe")) MetadataExtractor.Name
  = Some (js "Jane  Roe").
Proof.
  apply (cleanValue_idempotent (VString (js " Jane  Roe! "))).
  vm_compute. reflexivity.
Defined.

Lemma extractMetadata_fields_valid_witness :
  MetadataExtractor.validFields mixedMetadata.
Proof.
  apply (extractMetadata_fields_valid asciiToLowerCase
           MetadataExtractor.fieldMappings (Some mixedData)).
  vm_compute. reflexivity.
Defined.

(** * Properties of the upload file names *)

Lemma numberToString_digits n :
  Forall (fun c => isDigit c = true) (S3Service.numberToString n).
Proof.
  unfold S3Service.numberToString.
  induction (Nat.to_uint n) as [|d IH|d IH|d IH|d IH|d IH|d IH|d IH|d IH|d IH|d IH];
    simpl; constructor; (reflexivity || exact IH).
Qed.

Lemma js_injective s1 s2 : js s1 = js s2 -> s1 = s2.
Proof.
  unfold js. intros H.
  rewrite <- (String.string_of_list_ascii_of_string s1),
          <- (String.string_of_list_ascii_of_string s2).
  f_equal. revert H.
  generalize (String.list_ascii_of_string s1) (String.list_ascii_of_string s2).
  induction l as [|a l IH]; intros [|b l']; simpl; try discriminate; [reflexivity|].
  intros [= Hab Hl]. f_equal; [|now apply IH].
  rewrite <- (Ascii.ascii_N_embedding a), <- (Ascii.ascii_N_embedding b).
  now rewrite Hab.
Qed.

Lemma numberToString_injective i j :
  S3Service.numberToString i = S3Service.numberToString j -> i = j.
Proof.
  unfold S3Service.numberToString. intros H. apply js_injective in H.
  assert (Hu : Nat.to_uint i = Nat.to_uint j).
  { pose proof (NilEmpty.usu (Nat.to_uint i)) as Hi.
    rewrite H, NilEmpty.usu in Hi. congruence. }
  rewrite <- (DecimalNat.Unsigned.of_to i), <- (DecimalNat.Unsigned.of_to j).
  now rewrite Hu.
Qed.

Lemma same_up_to_separator (c : N) l1 : forall l2 x y,
  Forall (fun a => a <> c) l1 -> Forall (fun a => a <> c) l2 ->
  l1 ++ c :: x = l2 ++ c :: y -> l1 = l2.
Proof.
  induction l1 as [|a l1 IH]; intros [|b l2] x y H1 H2 E; simpl in E.
  - reflexivity.
  - injection E as <- _. apply Forall_cons in H2 as [H2 _]. now elim H2.
  - injection E as -> _. apply Forall_cons in H1 as [H1 _]. now elim H1.
  - injection E as <- E. apply Forall_cons in H1 as [_ H1].
    apply Forall_cons in H2 as [_ H2]. f_equal. eapply IH; eassumption.
Qed.

Lemma digit_not_underscore c : isDigit c = true -> c <> S3Service.underscore.
Proof.
  unfold isDigit, S3Service.underscore.
  rewrite andb_true_iff, !N.leb_le. lia.
Qed.

Lemma filename_determines_index t t' m m' i j :
  S3Service._generateFilename t m i = S3Service._generateFilename t' m' j ->
  i = j.
Proof.
  unfold S3Service._generateFilename.
  set (a := take 50 _). set (a' := take 50 _).
  set (b := if isSet (MetadataExtractor.patientId m) then _ else _).
  set (b' := if isSet (MetadataExtractor.patientId m') then _ else _).
  intros H. apply (f_equal (@rev N)) in H.
  rewrite !rev_app_distr in H. simpl in H.
  injection H as H.
  apply numberToString_injective.
  rewrite <- (rev_involutive (S3Service.numberToString i)),
          <- (rev_involutive (S3Service.numberToString j)).
  f_equal.
  change 95 with S3Service.underscore in H.
  rewrite <- !app_assoc in H. simpl in H.
  eapply same_up_to_separator; [ | | exact H];
    apply Forall_rev;
    (eapply Forall_impl; [apply numberToString_digits|]);
    intros c; apply digit_not_underscore.
Qed.

(** X14. The file name ends with the report number: two file names, for
    report indices that are safe integers, are equal only for the same
    report index, whatever the metadata and the dates, so the reports of
    one run never share an object key. *)
Theorem generateFilename_distinct t t' m m' i j :
  S3Service.safeInteger i -> S3Service.safeInteger j ->
  S3Service._generateFilename t m i = S3Service._generateFilename t' m' j ->
  i = j.
Proof. intros _ _. apply filename_determines_index. Qed.

Lemma replaceSpaces_chars s : forall inRun,
  Forall (fun c => isWordChar c || isWhiteSpace c || (c =? hyphen) = true) s ->
  Forall (fun c => S3Service.keyChar c = true) (S3Service.replaceSpaces inRun s).
Proof.
  induction s as [|c s IH]; intros inRun H; simpl; [constructor|].
  apply Forall_cons in H as [Hc H].
  destruct (isWhiteSpace c) eqn:W.
  - destruct inRun; [now apply IH|]. constructor; [reflexivity | now apply IH].
  - constructor; [|now apply IH].
    unfold S3Service.keyChar. rewrite orb_false_r in Hc.
    now rewrite Hc.
Qed.

Lemma word_keyChar s :
  Forall (fun c => isWordChar c = true) s ->
  Forall (fun c => S3Service.keyChar c = true) s.
Proof.
  intros Hs. eapply Forall_impl; [exact Hs|].
  intros c H. unfold S3Service.keyChar. now rewrite H.
Qed.

(** X15. For a report index that is a safe integer: when the patient
    identifier of the metadata is [null] or made of
    word characters, as the normaliser leaves it, and the date is made of
    digits and hyphens, the file name contains only word characters,
    hyphens and dots: no whitespace, no slash, nothing to escape in an
    object key. *)
Theorem generateFilename_characters t m i :
  S3Service.safeInteger i ->
  (forall s, MetadataExtractor.patientId m = Some s ->
             Forall (fun c => isWordChar c = true) s) ->
  Forall (fun c => S3Service.dateChar c = true) t ->
  Forall (fun c => S3Service.keyChar c = true) (S3Service._generateFilename t m i).
Proof.
  intros _ Hid Ht. unfold S3Service._generateFilename.
  assert (Hnum : Forall (fun c => S3Service.keyChar c = true)
                   (S3Service.numberToString i)).
  { eapply Forall_impl; [apply numberToString_digits|].
    intros c H. unfold S3Service.keyChar, isWordChar. now rewrite H. }
  repeat apply Forall_app_2.
  - apply Forall_take, replaceSpaces_chars, Forall_filter_true.
  - destruct (MetadataExtractor.patientId m) as [[|c s]|] eqn:E; simpl;
      try constructor; [reflexivity|].
    apply word_keyChar, (Hid (c :: s) eq_refl).
  - repeat constructor.
  - eapply Forall_impl; [exact Ht|]. intros c H.
    unfold S3Service.dateChar in H. unfold S3Service.keyChar, isWordChar.
    apply orb_true_iff in H as [-> | ->]; [reflexivity|].
    now rewrite !orb_true_r.
  - repeat constructor.
  - exact Hnum.
  - repeat constructor.
Qed.

(** * Properties of the field mappings *)

Lemma assign_aliases mappings field keys g :
  MetadataExtractor.aliases (MetadataExtractor.assign mappings field keys) g
  = if bool_decide (field = g) then Some keys
    else MetadataExtractor.aliases mappings g.
Proof.
  induction mappings as [|[f ks] mappings IH]; simpl.
  - reflexivity.
  - destruct (bool_decide_reflect (f = field)) as [->|Hf]; simpl.
    + destruct (bool_decide_reflect (field = g)); reflexivity.
    + rewrite IH.
      destruct (bool_decide_reflect (f = g)) as [->|Hg]; [|reflexivity].
      destruct (bool_decide_reflect (field = g)); [congruence | reflexivity].
Qed.

Lemma assign_fields mappings field keys :
  List.map fst (MetadataExtractor.assign mappings field keys)
  = if bool_decide (field ∈ List.map fst mappings)
    then List.map fst mappings
    else List.map fst mappings ++ [field].
Proof.
  induction mappings as [|[f ks] mappings IH].
  - cbn [MetadataExtractor.assign List.map fst app].
    destruct (bool_decide_reflect (field ∈ @nil MetadataExtractor.Field)) as [H|_];
      [now apply elem_of_nil in H | reflexivity].
  - cbn [MetadataExtractor.assign List.map fst].
    destruct (bool_decide_reflect (f = field)) as [->|Hf].
    + destruct (bool_decide_reflect (field ∈ field :: List.map fst mappings)) as [_|H];
        [reflexivity | elim H; apply list_elem_of_here].
    + cbn [List.map fst]. rewrite IH.
      destruct (bool_decide_reflect (field ∈ List.map fst mappings)) as [Hin|Hin];
        destruct (bool_decide_reflect (field ∈ f :: List.map fst mappings)) as [H|H];
        try reflexivity.
      * elim H. now apply list_elem_of_further.
      * apply elem_of_cons in H as [H|H]; congruence.
Qed.

Lemma aliases_None mappings g :
  ~ In g (List.map fst mappings) -> MetadataExtractor.aliases mappings g = None.
Proof.
  induction mappings as [|[f ks] mappings IH]; simpl; [reflexivity|].
  intros H. rewrite bool_decide_eq_false_2 by tauto. apply IH. tauto.
Qed.

(** X16. [setFieldMappings] merges: afterwards a field named in the custom
    mappings has the custom alias list and every other field keeps its own;
    the fields already mapped keep their order, new ones coming after them;
    and no field is listed twice. *)
Theorem setFieldMappings_merges custom : forall mappings,
  NoDup (List.map fst custom) ->
  NoDup (List.map fst mappings) ->
  (forall g,
     MetadataExtractor.aliases (MetadataExtractor.setFieldMappings mappings custom) g
     = match MetadataExtractor.aliases custom g with
       | Some keys => Some keys
       | None => MetadataExtractor.aliases mappings g
       end)
  /\ (exists added,
       List.map fst (MetadataExtractor.setFieldMappings mappings custom)
       = List.map fst mappings ++ added)
  /\ NoDup (List.map fst (MetadataExtractor.setFieldMappings mappings custom)).
Proof.
  unfold MetadataExtractor.setFieldMappings.
  induction custom as [|[f ks] custom IH]; intros mappings Hc Hm; simpl.
  - repeat split; [exists []; now rewrite app_nil_r | exact Hm].
  - simpl in Hc. apply NoDup_cons in Hc as [Hf Hc].
    assert (Hm' : NoDup (List.map fst (MetadataExtractor.assign mappings f ks))).
    { rewrite assign_fields.
      destruct (bool_decide_reflect (f ∈ List.map fst mappings)) as [Hin|Hin];
        [exact Hm|].
      apply NoDup_app. repeat split; [exact Hm | | apply NoDup_singleton].
      intros x Hx Hx'. apply list_elem_of_singleton in Hx' as ->.
      now apply Hin. }
    destruct (IH (MetadataExtractor.assign mappings f ks) Hc Hm')
      as (Hlook & (added & Hadd) & Hnd).
    split; [|split; [|exact Hnd]].
    + intros g. rewrite Hlook, assign_aliases.
      destruct (bool_decide_reflect (f = g)) as [->|Hfg]; [|reflexivity].
      rewrite aliases_None; [reflexivity|].
      intros Hin. apply Hf. now apply list_elem_of_In.
    + rewrite Hadd, assign_fields.
      destruct (bool_decide (f ∈ List.map fst mappings)).
      * now exists added.
      * exists ([f] ++ added). now rewrite app_assoc.
Qed.

Lemma setFieldMappings_merges_witness :
  MetadataExtractor.aliases
    (MetadataExtractor.setFieldMappings MetadataExtractor.fieldMappings
       [(MetadataExtractor.Name, [js "pt name"])]) MetadataExtractor.Name
  = Some [js "pt name"]
  /\ MetadataExtractor.aliases
       (MetadataExtractor.setFieldMappings MetadataExtractor.fieldMappings
          [(MetadataExtractor.Name, [js "pt name"])]) MetadataExtractor.Dob
     = MetadataExtractor.aliases MetadataExtractor.fieldMappings MetadataExtractor.Dob.
Proof.
  pose proof (setFieldMappings_merges [(MetadataExtractor.Name, [js "pt name"])]
                MetadataExtractor.fieldMappings) as H.
  destruct H as (H & _ & _).
  - vm_compute. repeat (apply NoDup_cons_2 || apply NoDup_nil_2);
      rewrite ?elem_of_nil; tauto.
  - vm_compute. repeat (apply NoDup_cons_2 || apply NoDup_nil_2);
      rewrite ?elem_of_cons, ?elem_of_nil; intuition discriminate.
  - split; [exact (H MetadataExtractor.Name) | exact (H MetadataExtractor.Dob)].
Defined.

Lemma generateFilename_distinct_witness :
  S3Service._generateFilename (js "2026-01-05") MetadataExtractor.fresh 3
  = js "Unknown-3_2026-01-05_3.pdf"
  /\ 3%nat = 3%nat.
Proof.
  split; [vm_compute; reflexivity|].
  apply (generateFilename_distinct (js "2026-01-05") (js "2026-01-05")
           MetadataExtractor.fresh MetadataExtractor.fresh 3 3);
    reflexivity.
Defined.

Lemma generateFilename_characters_witness :
  S3Service._generateFilename (js "2026-01-05") mixedMetadata 3
  = js "Jane_Roe_A1729_2026-01-05_3.pdf"
  /\ Forall (fun c => S3Service.keyChar c = true)
       (S3Service._generateFilename (js "2026-01-05") mixedMetadata 3).
Proof.
  split; [vm_compute; reflexivity|].
  apply (generateFilename_characters (js "2026-01-05") mixedMetadata 3).
  - reflexivity.
  - intros s [= <-]. vm_compute. repeat constructor.
  - vm_compute. repeat constructor.
Defined.

(** * Properties of the text-extraction service and of the pipeline *)

Lemma fold_left_invariant {A B} (P : A -> Prop) (f : A -> B -> A) l :
  (forall a x, P a -> P (f a x)) -> forall a, P a -> P (fold_left f l a).
Proof.
  intros Hf. induction l as [|x l IH]; simpl; intros a Ha; [exact Ha|].
  apply IH, Hf, Ha.
Qed.

(** X17. Every value of the key/value pairs that [_extractKeyValuePairs]
    builds is a string with no whitespace at either end. *)
Theorem extractKeyValuePairs_values toLowerCase blocks k v :
  TextractService._extractKeyValuePairs toLowerCase blocks !! k = Some v ->
  exists s, v = VString s /\ trim s = s.
Proof.
  unfold TextractService._extractKeyValuePairs.
  generalize (List.filter
                (fun b => bool_decide (TextractService.BlockType b = js "KEY_VALUE_SET"))
                blocks).
  intros l. revert k v.
  apply (fold_left_invariant
           (fun kv : gmap jsstring value =>
              forall k v, kv !! k = Some v -> exists s, v = VString s /\ trim s = s)).
  - intros kv b Hkv k v. unfold TextractService.addKeyValue.
    destruct (TextractService.EntityTypes b) as [types|]; [|apply Hkv].
    destruct (existsb _ types); [|apply Hkv].
    destruct (TextractService._findValueBlock b blocks) as [vb|]; [|apply Hkv].
    unfold TextractService.assignProperty.
    destruct (bool_decide _); [apply Hkv|].
    intros H. apply lookup_insert_Some in H as [[_ <-] | [_ H]];
      [|now apply (Hkv k v)].
    eexists. split; [reflexivity | apply trim_idempotent].
  - intros k v H. now rewrite lookup_empty in H.
Qed.

Lemma writeCell_textOrGap col s row :
  Forall TextractService.textOrGap row ->
  Forall TextractService.textOrGap (TextractService.writeCell col (VString s) row).
Proof.
  intros Hrow. destruct col as [|i]; simpl; [exact Hrow|].
  destruct (i <? length row)%nat.
  - apply Forall_insert; [exact Hrow|]. right. now exists s.
  - apply Forall_app. split; [exact Hrow|].
    apply Forall_app. split.
    + apply Forall_replicate. now left.
    + constructor; [|constructor]. right. now exists s.
Qed.

Lemma putCell_textOrGap r col s groups :
  Forall (fun g => Forall TextractService.textOrGap (snd g)) groups ->
  Forall (fun g => Forall TextractService.textOrGap (snd g))
         (TextractService.putCell r col (VString s) groups).
Proof.
  induction groups as [|[k row] groups IH]; simpl; intros H.
  - constructor; [|constructor]. simpl. apply writeCell_textOrGap. constructor.
  - apply Forall_cons in H as [Hrow H]. simpl in Hrow.
    destruct (r <? k)%nat.
    + constructor; [simpl; apply writeCell_textOrGap; constructor|].
      now constructor.
    + destruct (r =? k)%nat.
      * constructor; [simpl; now apply writeCell_textOrGap | exact H].
      * constructor; [exact Hrow | now apply IH].
Qed.

Lemma tableOf_cells blocks tableBlock :
  exists rs,
    rows (TextractService.tableOf blocks tableBlock) = Some rs
    /\ Forall (fun row => exists cells,
                 row = RowArray cells /\ Forall TextractService.textOrGap cells) rs.
Proof.
  unfold TextractService.tableOf.
  destruct (TextractService.Relationships tableBlock) as [rels|];
    [|exists []; split; [reflexivity | constructor]].
  destruct (TextractService.findRelationship _ rels) as [rel|];
    [|exists []; split; [reflexivity | constructor]].
  eexists. split; [reflexivity|].
  apply Forall_forall. intros row Hrow.
  apply list_elem_of_In, in_map_iff in Hrow as ([k cells] & <- & Hin).
  exists cells. split; [reflexivity|].
  revert Hin. generalize (TextractService.sortCells
                            (omap id
                               (List.filter (TextractService.hasType (js "CELL"))
                                  (List.map (TextractService.findBlock blocks)
                                     (TextractService.Ids rel))))).
  intros l Hin.
  assert (Hall : Forall (fun g : nat * list value =>
                           Forall TextractService.textOrGap (snd g))
                   (fold_left
                      (fun groups cell =>
                         TextractService.putCell (TextractService.RowIndex cell)
                           (TextractService.ColumnIndex cell)
                           (VString (TextractService._getBlockText cell blocks))
                           groups) l [])).
  { apply (fold_left_invariant
             (Forall (fun g : nat * list value =>
                        Forall TextractService.textOrGap (snd g))));
      [|constructor].
    intros groups cell. apply putCell_textOrGap. }
  eapply Forall_forall in Hall; [|apply list_elem_of_In, Hin]. exact Hall.
Qed.

Lemma extractTables_cells_aux blocks :
  Forall (fun t => exists rs,
            rows t = Some rs
            /\ Forall (fun row => exists cells,
                         row = RowArray cells
                         /\ Forall TextractService.textOrGap cells) rs)
         (TextractService._extractTables blocks).
Proof.
  unfold TextractService._extractTables. apply Forall_forall. intros t Ht.
  apply list_elem_of_In, in_map_iff in Ht as (b & <- & _).
  apply tableOf_cells.
Qed.

(** X18. Every cell of every row of every table that [_extractTables]
    builds is a string or a gap reading as [undefined]; the rows are arrays
    and every table has its [rows]. *)
Theorem extractTables_cells blocks :
  Forall (fun t => exists rs,
            rows t = Some rs
            /\ Forall (fun row => exists cells,
                         row = RowArray cells
                         /\ Forall TextractService.textOrGap cells) rs)
         (TextractService._extractTables blocks).
Proof. apply extractTables_cells_aux. Qed.

Lemma textOrGap_stringOrFalsy v :
  TextractService.textOrGap v -> stringOrFalsy v.
Proof. intros [-> | [s ->]]; simpl; auto. Qed.

Lemma pageDataOf_stringCells toLowerCase i blocks :
  stringCells (Some (ReportProcessor.pageDataOf toLowerCase i blocks)).
Proof.
  simpl. eapply Forall_impl; [apply extractTables_cells_aux|].
  intros t (rs & -> & Hrs). simpl.
  eapply Forall_impl; [exact Hrs|].
  intros row (cells & -> & Hcells). simpl.
  eapply Forall_impl; [exact Hcells|]. apply textOrGap_stringOrFalsy.
Qed.

Lemma collectPages_stringCells toLowerCase responses : forall i,
  Forall stringCells (ReportProcessor.collectPages toLowerCase i responses).
Proof.
  induction responses as [|[blocks|] responses IH]; intros i; simpl.
  - constructor.
  - constructor; [apply pageDataOf_stringCells | apply IH].
  - apply IH.
Qed.

(** What the loop of [_extractPageData] collects from page [i] on. *)
Lemma collectPages_indices toLowerCase responses : forall i,
  exists pds,
    ReportProcessor.collectPages toLowerCase i responses = List.map Some pds
    /\ StronglySorted Z.lt (List.map index pds)
    /\ Forall (fun pd =>
                 exists j blocks,
                   responses !! j = Some (Some blocks)
                   /\ pd = ReportProcessor.pageDataOf toLowerCase (i + j) blocks) pds.
Proof.
  induction responses as [|r responses IH]; intros i.
  - exists []. repeat split; constructor.
  - destruct (IH (S i)) as (pds & Hp & Hs & Hall).
    assert (Hall' : Forall (fun pd =>
                       exists j blocks,
                         (r :: responses) !! j = Some (Some blocks)
                         /\ pd = ReportProcessor.pageDataOf toLowerCase (i + j) blocks)
                      pds).
    { eapply Forall_impl; [exact Hall|].
      intros pd (j & blocks & Hj & ->). exists (S j), blocks.
      split; [exact Hj | f_equal; lia]. }
    destruct r as [blocks|]; simpl.
    + exists (ReportProcessor.pageDataOf toLowerCase i blocks :: pds).
      split; [now rewrite Hp|]. split.
      * simpl. constructor; [exact Hs|].
        apply Forall_forall. intros z Hz.
        apply list_elem_of_In, in_map_iff in Hz as (pd & <- & Hpd).
        eapply Forall_forall in Hall; [|apply list_elem_of_In, Hpd].
        destruct Hall as (j & b & _ & ->). simpl. lia.
      * constructor; [|exact Hall'].
        exists 0%nat, blocks. split; [reflexivity | f_equal; lia].
    + exists pds. auto.
Qed.

(** X19. [_extractPageData] throws exactly when no page could be processed;
    otherwise the pages it returns are all present, each is the page object
    of a response that succeeded, under the number that page has in the
    document, and the page indices increase strictly. *)
Theorem extractPageData_pages toLowerCase responses :
  (ReportProcessor._extractPageData toLowerCase responses = None
   <-> Forall (fun r => r = None) responses)
  /\ (forall pageDataArray,
        ReportProcessor._extractPageData toLowerCase responses = Some pageDataArray ->
        exists pds,
          pageDataArray = List.map Some pds /\ pds <> []
          /\ StronglySorted Z.lt (List.map index pds)
          /\ Forall (fun pd =>
                       exists j blocks,
                         responses !! j = Some (Some blocks)
                         /\ pd = ReportProcessor.pageDataOf toLowerCase j blocks) pds).
Proof.
  unfold ReportProcessor._extractPageData. split.
  - assert (Hnil : forall i,
               ReportProcessor.collectPages toLowerCase i responses = []
               <-> Forall (fun r => r = None) responses).
    { induction responses as [|[blocks|] responses IH]; intros i; simpl.
      - split; [constructor | reflexivity].
      - split; [discriminate | intros H; now apply Forall_cons in H as [? _]].
      - rewrite IH. split; [now constructor | intros H; now apply Forall_cons in H]. }
    rewrite <- (Hnil 0%nat).
    destruct (ReportProcessor.collectPages toLowerCase 0 responses); split;
      congruence.
  - intros pages H.
    destruct (collectPages_indices toLowerCase responses 0) as (pds & Hp & Hs & Hall).
    destruct (ReportProcessor.collectPages toLowerCase 0 responses) as [|p ps] eqn:E;
      [discriminate|].
    injection H as <-. exists pds. repeat split; try assumption.
    intros ->. discriminate.
Qed.

(** X20. In the pipeline the splitting step cannot fail: on the pages that
    [_extractPageData] returns, whatever the responses of the text
    extraction, [splitIntoPatientReports] returns at least one report, and
    the reports cover page ranges that follow one another. *)
Theorem pipeline_split_succeeds toLowerCase max responses pageDataArray :
  ReportProcessor._extractPageData toLowerCase responses = Some pageDataArray ->
  exists rs,
    splitIntoPatientReports toLowerCase max (Some pageDataArray) = Ok rs
    /\ rs <> []
    /\ Forall (fun r => (firstPageIndex r <= lastPageIndex r)%Z) rs
    /\ StronglySorted (fun r1 r2 => (lastPageIndex r1 < firstPageIndex r2)%Z) rs.
Proof.
  unfold ReportProcessor._extractPageData. intros H.
  destruct (collectPages_indices toLowerCase responses 0) as (pds & Hp & Hs & _).
  pose proof (collectPages_stringCells toLowerCase responses 0) as Hcells.
  destruct (ReportProcessor.collectPages toLowerCase 0 responses) as [|p ps] eqn:E;
    [discriminate|].
  injection H as <-.
  pose proof (split_stringCells toLowerCase max (Some (p :: ps))) as Hsplit.
  destruct (splitIntoPatientReports toLowerCase max (Some (p :: ps))) as [rs|e] eqn:Es.
  - exists rs. split; [reflexivity|].
    destruct Hsplit as (Hne & _ & _); [now intros l [= <-]|].
    split; [exact Hne|].
    apply split_grows in Es as (Hg & Hc & _). rewrite Hp in Hc.
    apply (ranges_ordered rs pds Hc); [|exact Hs].
    eapply grows_Forall; [ | exact Hg | constructor].
    intros qs i r Hqs Hf.
    pose proof (finalize_fields _ _ _ _ Hf) as (-> & _ & _).
    split; [exact Hqs | eapply finalize_range, Hf].
  - destruct Hsplit as (_ & [Hn | Hn]); [now intros l [= <-] | |]; discriminate.
Qed.

(** ** The metadata extractor on string cells *)

Lemma metadata_valueCellOf_stringOrFalsy row idx cell :
  Forall stringOrFalsy row ->
  stringOrFalsy (MetadataExtractor.valueCellOf row idx cell).
Proof.
  intros Hrow. unfold MetadataExtractor.valueCellOf, orElse.
  destruct (truthy (orUndefined (row !! S idx))) eqn:T.
  - rewrite T. destruct (row !! S idx) as [v|] eqn:E; simpl in *; [|discriminate].
    eapply Forall_lookup_1; eassumption.
  - destruct (truthy (orUndefined (VString <$> split colon cell !! 1%nat)));
      [destruct (split colon cell !! 1%nat); simpl; auto|].
    destruct (last (split MetadataExtractor.space cell)); simpl; auto.
Qed.

Lemma metadata_fromCell_total row idx cell cl m fk :
  Forall stringOrFalsy row ->
  exists m', MetadataExtractor.fromCell row idx cell cl m fk = Ok m'.
Proof.
  intros Hrow. unfold MetadataExtractor.fromCell.
  destruct (isSet _); [eauto|]. destruct (existsb _ _); [|eauto].
  destruct (acceptsValue_total (MetadataExtractor.valueCellOf row idx cell) cl)
    as [b ->]; [now apply metadata_valueCellOf_stringOrFalsy | simpl; eauto].
Qed.

Lemma metadata_tables_total toLowerCase mappings tables : forall m,
  Forall (fun t => Forall (fun row => Forall stringOrFalsy (rowCells row))
                          (default [] (rows t))) tables ->
  exists m', MetadataExtractor._extractFromTables toLowerCase mappings tables m = Ok m'.
Proof.
  intros m H. unfold MetadataExtractor._extractFromTables.
  eapply foldM_total; [|exact H]. clear m. intros m t Ht.
  unfold MetadataExtractor.visitTable. cbv beta in Ht. revert Ht.
  destruct (rows t) as [rs|]; simpl; intros Ht; [|eauto].
  eapply foldM_total; [|exact Ht]. clear m. intros m row Hrow.
  destruct row as [cells|]; simpl in *; [|eauto].
  apply (foldM_total (fun _ => True)); [|now apply Forall_true].
  clear m. intros m [idx cell] _. unfold MetadataExtractor.visitCell.
  destruct (negb (truthy cell)); [eauto|]. destruct cell; eauto.
  apply (foldM_total (fun _ => True)); [|now apply Forall_true].
  intros m' fk _. now apply metadata_fromCell_total.
Qed.

(** X21. [extractMetadata] throws "no page data" exactly for a missing
    page, and on a page whose table cells are strings or falsy values, as
    the text-extraction service builds them, it throws nothing and returns
    metadata. *)
Theorem extractMetadata_throws toLowerCase mappings page :
  (MetadataExtractor.extractMetadata toLowerCase mappings page
   = MetadataExtractor.NoPageDataForExtraction <-> page = None)
  /\ (page <> None -> stringCells page ->
      exists m,
        MetadataExtractor.extractMetadata toLowerCase mappings page
        = MetadataExtractor.Extracted m).
Proof.
  unfold MetadataExtractor.extractMetadata. split.
  - destruct page as [pd|]; [|tauto]. split; [|discriminate].
    destruct (tables pd) as [[|t ts]|]; try discriminate.
    destruct (MetadataExtractor._hasIncompleteData _); [|discriminate].
    destruct (MetadataExtractor._extractFromTables _ _ _ _); discriminate.
  - destruct page as [pd|]; [intros _ | intros H; now elim H].
    simpl. intros Hcells.
    destruct (tables pd) as [[|t ts]|]; eauto.
    destruct (MetadataExtractor._hasIncompleteData _); [|eauto].
    destruct (metadata_tables_total toLowerCase mappings (t :: ts)
                (MetadataExtractor._extractFromKeyValuePairs mappings
                   (default ∅ (keyValuePairs pd)) MetadataExtractor.fresh) Hcells)
      as [m' ->].
    eauto.
Qed.

(** X22. The reports of one run get different file names: for two reports
    at different positions of the result of [splitIntoPatientReports], an
    array whose length is a safe integer, the
    names that [_generateFilename] makes from their report indices differ,
    whatever the metadata and the dates. *)
Theorem report_filenames_differ toLowerCase max l rs i j ri rj t t' m m' :
  S3Service.safeInteger (length rs) ->
  splitIntoPatientReports toLowerCase max (Some l) = Ok rs ->
  rs !! i = Some ri -> rs !! j = Some rj -> i <> j ->
  S3Service._generateFilename t m (reportIndex ri)
  <> S3Service._generateFilename t' m' (reportIndex rj).
Proof.
  intros _ H Hi Hj Hij E. apply filename_determines_index in E.
  apply split_grows in H as (Hg & _ & _).
  assert (Hnum : forall k r, rs !! k = Some r -> reportIndex r = k).
  { eapply grows_numbered; [exact Hg|].
    intros k r Hk. now rewrite lookup_nil in Hk. }
  rewrite (Hnum _ _ Hi), (Hnum _ _ Hj) in E. contradiction.
Qed.

(** ** Concrete runs of the pipeline properties *)

Lemma sample_key_values :
  TextractService._extractKeyValuePairs asciiToLowerCase sampleBlocks
  = {[ js "patient name" := VString (js "John Doe") ]}.
Proof. vm_compute. reflexivity. Qed.

Lemma sample_tables :
  TextractService._extractTables sampleBlocks
  = [ {| rows := Some [RowArray [VString (js "MRN"); VUndefined;
                                 VString (js "A17")]] |} ].
Proof. vm_compute. reflexivity. Qed.

Lemma extractKeyValuePairs_values_witness :
  exists s, VString (js "John Doe") = VString s /\ trim s = s.
Proof.
  apply (extractKeyValuePairs_values asciiToLowerCase sampleBlocks
           (js "patient name") (VString (js "John Doe"))).
  vm_compute. reflexivity.
Defined.

Lemma pipeline_split_succeeds_witness :
  exists rs,
    splitIntoPatientReports asciiToLowerCase 10 (Some samplePages) = Ok rs
    /\ rs <> []
    /\ Forall (fun r => (firstPageIndex r <= lastPageIndex r)%Z) rs
    /\ StronglySorted (fun r1 r2 => (lastPageIndex r1 < firstPageIndex r2)%Z) rs.
Proof.
  apply (pipeline_split_succeeds asciiToLowerCase 10 sampleResponses samplePages).
  reflexivity.
Defined.

Lemma report_filenames_differ_witness :
  S3Service._generateFilename (js "2026-01-05") MetadataExtractor.fresh
    (reportIndex (reportOf 0 [patientPage 0 "AAA1"; patientPage 1 "AAA1";
                              patientPage 2 "AAA1"] true))
  <> S3Service._generateFilename (js "2026-01-05") MetadataExtractor.fresh
       (reportIndex (reportOf 1 [patientPage 3 "BBB2"; patientPage 4 "BBB2"] true)).
Proof.
  apply (report_filenames_differ asciiToLowerCase 10 tenPages tenReports 0 1).
  - reflexivity.
  - vm_compute. reflexivity.
  - reflexivity.
  - reflexivity.
  - discriminate.
Defined.

(** ** Key/value pairs before tables, in the metadata extractor *)

Lemma metadata_get_set_other m f g v :
  f <> g -> MetadataExtractor.get (MetadataExtractor.set m f v) g
            = MetadataExtractor.get m g.
Proof. intros H. destruct f, g; try reflexivity; congruence. Qed.

Lemma metadata_fromCell_keeps (probed : MetadataExtractor.Metadata)
    row idx cell cl m fk m' :
  (forall field, isSet (MetadataExtractor.get probed field) = true ->
                 MetadataExtractor.get m field = MetadataExtractor.get probed field) ->
  MetadataExtractor.fromCell row idx cell cl m fk = Ok m' ->
  (forall field, isSet (MetadataExtractor.get probed field) = true ->
                 MetadataExtractor.get m' field = MetadataExtractor.get probed field).
Proof.
  intros Hm. unfold MetadataExtractor.fromCell.
  destruct (isSet (MetadataExtractor.get m (fst fk))) eqn:E; [now intros [= <-]|].
  destruct (existsb _ _); [|now intros [= <-]].
  intros H. inv_bind H. injection H as <-.
  destruct a; [|exact Hm].
  intros field Hf. destruct (decide (fst fk = field)) as [<-|Hne].
  - rewrite <- (Hm _ Hf) in Hf. congruence.
  - rewrite metadata_get_set_other by exact Hne. now apply Hm.
Qed.

(** What the key/value probing sets for a field is the field of the
    metadata returned when it is a non-empty string, which the table pass
    leaves alone, and when the page has no table. *)
Lemma metadata_probed_kept toLowerCase mappings pd m field :
  MetadataExtractor.extractMetadata toLowerCase mappings (Some pd)
  = MetadataExtractor.Extracted m ->
  let probed :=
    MetadataExtractor._extractFromKeyValuePairs mappings
      (default ∅ (keyValuePairs pd)) MetadataExtractor.fresh in
  isSet (MetadataExtractor.get probed field) = true \/ noTables pd ->
  MetadataExtractor.get m field = MetadataExtractor.get probed field.
Proof.
  unfold MetadataExtractor.extractMetadata. intros H. cbv zeta.
  set (probed := MetadataExtractor._extractFromKeyValuePairs mappings
                   (default ∅ (keyValuePairs pd)) MetadataExtractor.fresh) in *.
  intros Hside.
  destruct (tables pd) as [[|t ts]|] eqn:Et; try (injection H as <-; reflexivity).
  destruct (MetadataExtractor._hasIncompleteData probed);
    [|injection H as <-; reflexivity].
  destruct Hside as [Hset | [E|E]]; [|rewrite Et in E; discriminate ..].
  destruct (MetadataExtractor._extractFromTables _ _ _ _) as [m1|e] eqn:E;
    [|discriminate].
  injection H as <-. revert field Hset.
  eapply (metadata_tables_invariant toLowerCase
            (fun m => forall field,
               isSet (MetadataExtractor.get probed field) = true ->
               MetadataExtractor.get m field = MetadataExtractor.get probed field));
    [ | | exact E]; [|reflexivity].
  intros row idx cell cl m0 fk m'. apply metadata_fromCell_keeps.
Qed.

(** X23. In [extractMetadata] the key/value pairs come first: a field that
    the key/value probing sets to a non-empty string is the field of the
    metadata returned, whatever the tables hold; and when the probing sets
    the three fields the tables are not read at all, so that the probed
    metadata is returned and nothing is thrown. *)
Theorem metadata_key_values_take_precedence toLowerCase mappings pd :
  let probed :=
    MetadataExtractor._extractFromKeyValuePairs mappings
      (default ∅ (keyValuePairs pd)) MetadataExtractor.fresh in
  (forall m field,
     MetadataExtractor.extractMetadata toLowerCase mappings (Some pd)
     = MetadataExtractor.Extracted m ->
     isSet (MetadataExtractor.get probed field) = true ->
     MetadataExtractor.get m field = MetadataExtractor.get probed field)
  /\ (MetadataExtractor._hasIncompleteData probed = false ->
      MetadataExtractor.extractMetadata toLowerCase mappings (Some pd)
      = MetadataExtractor.Extracted probed).
Proof.
  intros probed. split.
  - intros m field H Hset.
    apply (metadata_probed_kept toLowerCase mappings pd m field H). now left.
  - intros Hcomplete. unfold MetadataExtractor.extractMetadata.
    fold probed. rewrite Hcomplete. now destruct (tables pd) as [[|t ts]|].
Qed.

Lemma metadata_key_values_take_precedence_witness :
  MetadataExtractor.get mixedMetadata MetadataExtractor.Name
  = MetadataExtractor.get
      (MetadataExtractor._extractFromKeyValuePairs MetadataExtractor.fieldMappings
         (default ∅ (keyValuePairs mixedData)) MetadataExtractor.fresh)
      MetadataExtractor.Name.
Proof.
  apply (proj1 (metadata_key_values_take_precedence asciiToLowerCase
                  MetadataExtractor.fieldMappings mixedData)).
  - vm_compute. reflexivity.
  - vm_compute. reflexivity.
Defined.

(** * First match wins *)

(** The aliases that the splitter probes name no property that an object
    inherits: for them [keyValuePairs[key]] reads the own property, or
    [undefined]. *)
Lemma splitter_aliases_own kv :
  Forall (fun key => getProperty kv key = Data (orUndefined (kv !! key)))
         (nameKeys ++ idKeys ++ dobKeys).
Proof.
  assert (H : Forall (fun key => key ∉ inheritedNames)
                     (nameKeys ++ idKeys ++ dobKeys))
    by (apply (bool_decide_unpack _); vm_compute; exact I).
  eapply Forall_impl; [exact H|]. intros key Hkey. unfold getProperty.
  destruct (kv !! key); [reflexivity|].
  now rewrite bool_decide_eq_false_2.
Qed.

Lemma aliases_NoDup : NoDup (nameKeys ++ idKeys ++ dobKeys).
Proof. apply (bool_decide_unpack _). vm_compute. exact I. Qed.

Lemma probeKeys_agree keys kv kv' field :
  (forall key, key ∈ keys -> kv' !! key = kv !! key) ->
  probeKeys keys kv' field = probeKeys keys kv field.
Proof.
  induction keys as [|a keys IH]; simpl; intros H; [reflexivity|].
  rewrite (H a) by left. destruct (truthy _); [reflexivity|].
  apply IH. intros key Hkey. apply H. now right.
Qed.

Lemma probeKeys_first_agree pre k post kv kv' v field :
  NoDup (pre ++ k :: post) ->
  Forall (fun a => truthy (orUndefined (kv !! a)) = false) pre ->
  kv !! k = Some v -> truthy v = true ->
  agreeOutside post kv kv' ->
  probeKeys (pre ++ k :: post) kv' field = probeKeys (pre ++ k :: post) kv field.
Proof.
  intros Hnd Hpre Hk Hv Hagree.
  apply NoDup_app in Hnd as (_ & Hdisj & Hnd).
  apply NoDup_cons in Hnd as [Hkpost _].
  rewrite (probeKeys_first_match kv pre k post v) by assumption.
  apply probeKeys_first_match; [ | now rewrite Hagree | exact Hv].
  apply Forall_forall. intros a Ha.
  rewrite Hagree; [eapply Forall_forall in Hpre; eauto|].
  intros Hin. apply (Hdisj a Ha). now right.
Qed.

(** Changing what the key/value pairs hold under the aliases after the
    first match of a field changes nothing of what the three loops find. *)
Lemma fromKeyValuePairs_agree keys proj pre k post kv kv' v :
  In (keys, proj) probedFields ->
  keys = pre ++ k :: post ->
  Forall (fun a => truthy (orUndefined (kv !! a)) = false) pre ->
  kv !! k = Some v -> truthy v = true ->
  agreeOutside post kv kv' ->
  fromKeyValuePairs kv' noInfo = fromKeyValuePairs kv noInfo.
Proof.
  intros Hin Hkeys Hpre Hk Hv Hagree.
  pose proof aliases_NoDup as Hnd.
  assert (Hpost : forall key, key ∈ post -> key ∈ keys)
    by (intros key Hkey; rewrite Hkeys, elem_of_app, elem_of_cons; auto).
  assert (Hother : forall other,
            (forall key, key ∈ other -> key ∈ keys -> False) ->
            forall field, probeKeys other kv' field = probeKeys other kv field).
  { intros other Hdisj field. apply probeKeys_agree. intros key Hkey.
    apply Hagree. intros Hp. eapply Hdisj; eauto. }
  assert (Hself : NoDup keys ->
            forall field, probeKeys keys kv' field = probeKeys keys kv field).
  { intros Hk' field. rewrite Hkeys in *.
    now apply (probeKeys_first_agree pre k post kv kv' v). }
  clear Hkeys Hpost.
  apply NoDup_app in Hnd as (Hn & Hni & Hnd).
  apply NoDup_app in Hnd as (Hi & Hid & Hd).
  unfold fromKeyValuePairs, noInfo. cbn [name patientId dob].
  destruct Hin as [[= <- <-] | [[= <- <-] | [[= <- <-] | []]]].
  - rewrite (Hself Hn), (Hother idKeys), (Hother dobKeys); [reflexivity | |];
      intros key H1 H2; apply (Hni key H2); rewrite elem_of_app; auto.
  - rewrite (Hself Hi), (Hother nameKeys), (Hother dobKeys); [reflexivity | |];
      intros key H1 H2.
    + now apply (Hid key H2).
    + apply (Hni key H1). rewrite elem_of_app; auto.
  - rewrite (Hself Hd), (Hother nameKeys), (Hother idKeys); [reflexivity | |];
      intros key H1 H2.
    + now apply (Hid key H1).
    + apply (Hni key H1). rewrite elem_of_app; auto.
Qed.

Section FirstMatch.

Variable toLowerCase : jsstring -> jsstring.

(** What the key/value loops find for a field is the field of the resolved
    identity when it is a non-empty string, which the table pass leaves
    alone, and when the page has no table. *)
Lemma resolve_keeps_probed pd kv info keys proj :
  keyValuePairs pd = Some kv ->
  resolveFields toLowerCase pd = Ok info ->
  In (keys, proj) probedFields ->
  isSet (probeKeys keys kv None) = true \/ noTables pd ->
  proj info = probeKeys keys kv None.
Proof.
  intros Hkv H Hin Hside. unfold resolveFields in H. rewrite Hkv in H.
  fold noInfo in H. set (probed := fromKeyValuePairs kv noInfo) in H.
  assert (Hp : proj probed = probeKeys keys kv None)
    by (destruct Hin as [[= <- <-] | [[= <- <-] | [[= <- <-] | []]]]; reflexivity).
  rewrite <- Hp in *.
  destruct (tables pd) as [[|t ts]|] eqn:Et; try (injection H as <-; reflexivity).
  destruct (_ || _); [|injection H as <-; reflexivity].
  destruct Hside as [Hset | [E|E]]; [|rewrite Et in E; discriminate ..].
  assert (Hkept : (isSet (name probed) = true -> name info = name probed)
                  /\ (isSet (patientId probed) = true
                      -> patientId info = patientId probed)
                  /\ (isSet (dob probed) = true -> dob info = dob probed)).
  { eapply (tables_invariant toLowerCase
              (fun f => isSet (name probed) = true -> f = name probed)
              (fun f => isSet (patientId probed) = true -> f = patientId probed)
              (fun f => isSet (dob probed) = true -> f = dob probed));
      [ | | exact H]; [|auto].
    intros P [-> | [-> | ->]] ks field row idx cell cl f';
      apply fromCell_keeps. }
  destruct Hin as [[= <- <-] | [[= <- <-] | [[= <- <-] | []]]];
    now apply Hkept.
Qed.

Lemma extract_resolved pd r :
  _extractPatientInfo toLowerCase (Some pd) = Ok r ->
  exists info,
    resolveFields toLowerCase pd = Ok info
    /\ r = if negb (isSet (name info)) && negb (isSet (patientId info))
           then None else Some info.
Proof.
  simpl. intros H. inv_bind H. exists a. split; [exact Ha|].
  destruct (_ && _); now injection H.
Qed.

Lemma metadata_first_match mappings kv field pre k post :
  NoDup (List.map fst mappings) ->
  In (field, pre ++ k :: post) mappings ->
  Forall (fun a => truthyProperty (getProperty kv a) = false) pre ->
  truthyProperty (getProperty kv k) = true ->
  MetadataExtractor.get
    (MetadataExtractor._extractFromKeyValuePairs mappings kv
       MetadataExtractor.fresh) field
  = MetadataExtractor.cleanProperty (getProperty kv k) field.
Proof.
  intros Hnd Hin Hpre Hk.
  apply in_split in Hin as (l1 & l2 & ->).
  rewrite map_app in Hnd. simpl in Hnd.
  apply NoDup_app in Hnd as (_ & Hl1 & Hl2).
  apply NoDup_cons in Hl2 as [Hl2 _].
  unfold MetadataExtractor._extractFromKeyValuePairs.
  rewrite fold_left_app. simpl.
  rewrite metadata_fold_other.
  - rewrite (metadata_probe_first_match kv pre k post); try assumption.
    + apply metadata_get_set.
    + rewrite metadata_fold_other; [now destruct field|].
      apply Forall_forall. intros fk Hfk E.
      apply (Hl1 (fst fk)); [|rewrite E; left].
      apply list_elem_of_fmap. eauto.
  - apply Forall_forall. intros fk Hfk E. apply Hl2.
    rewrite <- E. apply list_elem_of_fmap. eauto.
Qed.

(** C8. First match wins, not first valid match.  In the document
    splitter, for each of the three fields: when [k] is the first of the
    field's aliases whose key has a truthy (non-empty) value [v] in the
    key/value pairs of the page, the field of the candidate that
    [_extractPatientInfo] returns is the normalised [v], whatever the later
    aliases hold, on a page without tables and whenever the normalised [v]
    is a non-empty string (an empty or [null] field may still be filled in
    from the tables); what the later aliases hold changes nothing of what
    [_extractPatientInfo] returns or throws; and a non-empty name or
    identifier found so is returned in a candidate.  In the metadata
    extractor, for every field of any field mappings: the field that
    [_extractFromKeyValuePairs] sets is the normalised value of the first
    alias whose key reads as a truthy value, also when that is [null], and
    it is the field of the metadata that [extractMetadata] returns, under
    the same proviso on the tables. *)
Theorem first_match_wins (pd : PageData) (kv : gmap jsstring value) :
  keyValuePairs pd = Some kv ->
  (forall keys proj pre k post v,
     In (keys, proj) probedFields ->
     keys = pre ++ k :: post ->
     Forall (fun a => truthy (orUndefined (kv !! a)) = false) pre ->
     kv !! k = Some v -> truthy v = true ->
     (forall c,
        _extractPatientInfo toLowerCase (Some pd) = Ok (Some c) ->
        isSet (_cleanPatientValue v) = true \/ noTables pd ->
        proj c = _cleanPatientValue v)
     /\ (forall kv',
           agreeOutside post kv kv' ->
           _extractPatientInfo toLowerCase (Some (withKeyValuePairs pd kv'))
           = _extractPatientInfo toLowerCase (Some pd))
     /\ (keys <> dobKeys ->
         isSet (_cleanPatientValue v) = true ->
         stringCells (Some pd) ->
         exists c,
           _extractPatientInfo toLowerCase (Some pd) = Ok (Some c)
           /\ proj c = _cleanPatientValue v))
  /\ (forall mappings field pre k post,
        NoDup (List.map fst mappings) ->
        In (field, pre ++ k :: post) mappings ->
        Forall (fun a => truthyProperty (getProperty kv a) = false) pre ->
        truthyProperty (getProperty kv k) = true ->
        let taken := MetadataExtractor.cleanProperty (getProperty kv k) field in
        MetadataExtractor.get
          (MetadataExtractor._extractFromKeyValuePairs mappings kv
             MetadataExtractor.fresh) field
        = taken
        /\ (forall m,
              MetadataExtractor.extractMetadata toLowerCase mappings (Some pd)
              = MetadataExtractor.Extracted m ->
              isSet taken = true \/ noTables pd ->
              MetadataExtractor.get m field = taken)).
Proof.
  intros Hkv. split.
  - intros keys proj pre k post v Hin Hkeys Hpre Hk Hv.
    assert (Hprobe : probeKeys keys kv None = _cleanPatientValue v)
      by (rewrite Hkeys; now apply probeKeys_first_match).
    assert (Hvalue : forall c,
              _extractPatientInfo toLowerCase (Some pd) = Ok (Some c) ->
              isSet (_cleanPatientValue v) = true \/ noTables pd ->
              proj c = _cleanPatientValue v).
    { intros c Hc Hside. apply extract_resolved in Hc as (info & Hinfo & Hc).
      destruct (_ && _); [discriminate|]. injection Hc as ->.
      rewrite <- Hprobe in *. now apply (resolve_keeps_probed pd kv). }
    split; [exact Hvalue|]. split.
    + intros kv' Hagree.
      pose proof (fromKeyValuePairs_agree keys proj pre k post kv kv' v
                    Hin Hkeys Hpre Hk Hv Hagree) as E.
      unfold _extractPatientInfo, resolveFields, withKeyValuePairs.
      cbn [keyValuePairs tables]. rewrite Hkv. fold noInfo. now rewrite E.
    + intros Hnot Hset Hcells.
      destruct (stringCells_extractable toLowerCase _ Hcells) as [r Hr].
      destruct r as [c|]; [exists c; split; [exact Hr | apply Hvalue; auto]|].
      exfalso. apply extract_resolved in Hr as (info & Hinfo & Hr).
      pose proof (resolve_keeps_probed pd kv info keys proj Hkv Hinfo Hin) as Hkept.
      rewrite Hprobe in Hkept. specialize (Hkept (or_introl Hset)).
      destruct Hin as [[= <- <-] | [[= <- <-] | [[= <- <-] | []]]];
        [ | | now elim Hnot]; rewrite Hkept, Hset in Hr;
        cbn [negb andb] in Hr; [discriminate|].
      destruct (negb _); discriminate.
  - intros mappings field pre k post Hnd Hin Hpre Hk taken.
    pose proof (metadata_first_match mappings kv field pre k post
                  Hnd Hin Hpre Hk) as Hset.
    split; [exact Hset|].
    intros m Hm Hside.
    pose proof (metadata_probed_kept toLowerCase mappings pd m field Hm) as Hkept.
    cbv zeta in Hkept. rewrite Hkv in Hkept.
    change (default ∅ (Some kv)) with kv in Hkept.
    rewrite Hset in Hkept. now apply Hkept.
Qed.

End FirstMatch.

Lemma first_match_wins_witness :
  name invalidFirstInfo = _cleanPatientValue (VString (js "!!"))
  /\ _extractPatientInfo asciiToLowerCase
       (Some (withKeyValuePairs invalidFirstData otherSecondAlias))
     = _extractPatientInfo asciiToLowerCase (Some invalidFirstData)
  /\ MetadataExtractor.get
       (MetadataExtractor._extractFromKeyValuePairs MetadataExtractor.fieldMappings
          invalidFirstAlias MetadataExtractor.fresh) MetadataExtractor.Name
     = MetadataExtractor._cleanValue (VString (js "!!")) MetadataExtractor.Name
  /\ MetadataExtractor._cleanValue (VString (js "!!")) MetadataExtractor.Name = None
  /\ MetadataExtractor._cleanValue (VString (js "John Doe")) MetadataExtractor.Name
     = Some (js "John Doe").
Proof.
  destruct (first_match_wins asciiToLowerCase invalidFirstData invalidFirstAlias
              eq_refl) as [Hsplitter Hmetadata].
  destruct (Hsplitter nameKeys name [] (js "patient name")
              [js "name"; js "patient"; js "full name"] (VString (js "!!")))
    as (Hvalue & Hlater & _).
  - left. reflexivity.
  - reflexivity.
  - constructor.
  - vm_compute. reflexivity.
  - reflexivity.
  - split; [|split; [|split; [|split; reflexivity]]].
    + apply Hvalue; [vm_compute; reflexivity | right; right; reflexivity].
    + apply Hlater. intros key Hkey. apply lookup_insert_ne.
      intros <-. apply Hkey. left.
    + refine (proj1 (Hmetadata MetadataExtractor.fieldMappings
                       MetadataExtractor.Name [] (js "patient name")
                       [js "name"; js "patient"; js "full name";
                        js "patient full name"] _ _ _ _)).
      * apply (bool_decide_unpack _). vm_compute. exact I.
      * left. reflexivity.
      * constructor.
      * vm_compute. reflexivity.
Defined.

(** An alias that names an inherited property is a match whatever the
    key/value pairs hold: the name is set to [null] and the alias after it
    is not probed. *)
Example inherited_alias_is_first_match :
  MetadataExtractor.get
    (MetadataExtractor._extractFromKeyValuePairs inheritedAlias nameOnly
       MetadataExtractor.fresh) MetadataExtractor.Name
  = None.
Proof. vm_compute. reflexivity. Qed.

(** ** The exceptions of the scan *)

(** X24. The exceptions of [splitIntoPatientReports].  It throws the input
    error exactly when the page array is missing or empty; it throws a
    [TypeError] exactly when the array is not empty and the identity
    extraction of one of its pages throws one; and it never throws "No
    valid reports found after splitting". *)
Theorem split_exceptions toLowerCase max input :
  (splitIntoPatientReports toLowerCase max input = Err NoPageData
   <-> input = None \/ input = Some [])
  /\ (splitIntoPatientReports toLowerCase max input = Err TypeError
      <-> exists l,
            input = Some l /\ l <> []
            /\ Exists (fun p => _extractPatientInfo toLowerCase p = Err TypeError) l)
  /\ splitIntoPatientReports toLowerCase max input <> Err NoValidReports.
Proof.
  split; [|split].
  - split.
    + intros H. apply split_Err in H.
      destruct input as [[|p l]|]; auto. now destruct H.
    + now intros [-> | ->].
  - split.
    + intros H. apply split_Err in H.
      destruct input as [[|p l]|]; try discriminate.
      exists (p :: l). now destruct H.
    + intros (l & -> & Hne & Hex).
      destruct (splitIntoPatientReports toLowerCase max (Some l)) as [rs|e] eqn:E.
      * exfalso. apply split_Ok in E as (st & _ & Hscan & _).
        apply scan_consumed in Hscan as [Hl _].
        apply Exists_exists in Hex as (p & Hin & Hp).
        eapply Forall_forall in Hl as [c Hc]; [|exact Hin]. congruence.
      * apply split_Err in E. destruct l; [now elim Hne|]. now destruct E as [-> _].
  - intros H. apply split_Err in H. destruct input as [[|p l]|]; try discriminate.
    now destruct H.
Qed.

Lemma extractPageData_pages_witness :
  exists pds,
    samplePages = List.map Some pds /\ pds <> []
    /\ StronglySorted Z.lt (List.map index pds)
    /\ Forall (fun pd =>
                 exists j blocks,
                   sampleResponses !! j = Some (Some blocks)
                   /\ pd = ReportProcessor.pageDataOf asciiToLowerCase j blocks) pds.
Proof.
  apply (proj2 (extractPageData_pages asciiToLowerCase sampleResponses)).
  reflexivity.
Defined.

Lemma extractMetadata_throws_witness :
  exists m,
    MetadataExtractor.extractMetadata asciiToLowerCase
      MetadataExtractor.fieldMappings (Some mixedData)
    = MetadataExtractor.Extracted m.
Proof.
  apply (proj2 (extractMetadata_throws asciiToLowerCase
                  MetadataExtractor.fieldMappings (Some mixedData))).
  - discriminate.
  - simpl. repeat constructor.
Defined.
